(** * debounce-lite: the debounced function factory

    A shallow embedding of [createDebouncedFunction] (the TypeScript core of
    debounce-lite) together with the part of the JavaScript host it relies on:
    one timer slot, the microtask queue that carries promise reactions, abort
    signals with their one-shot listeners, and a log of what the target
    function and the callers' promises observe.

    Times are integer milliseconds.  The closure variables of the factory
    are the fields of [state]; everything the host keeps is in [world]. *)

From Stdlib Require Import ZArith List String Bool Lia Arith.
Import ListNotations.
Open Scope string_scope.
Open Scope Z_scope.
Open Scope list_scope.

#[local] Set Warnings "-register-all".

(* ------------------------------------------------------------------------- *)
(** ** JavaScript values that reach the wrapper *)

Definition signalId := nat.

Inductive value : Type :=
| VUndefined
| VNull
| VBool (b : bool)
| VNum (n : Z)
| VStr (s : string)
| VArray (xs : list value)
| VObject (fields : list (string * value))
| VSignal (s : signalId).          (* an AbortSignal object *)

(** Truthiness, as used by [allArgs[n-1] && ...], [if (signal)]. *)
Definition truthy (v : value) : bool :=
  match v with
  | VUndefined | VNull => false
  | VBool b => b
  | VNum n => negb (n =? 0)
  | VStr s => negb (String.eqb s EmptyString)
  | VArray _ | VObject _ | VSignal _ => true
  end.

(** [typeof v === "object"] *)
Definition typeof_object (v : value) : bool :=
  match v with
  | VNull | VArray _ | VObject _ | VSignal _ => true
  | _ => false
  end.

Definition isArray (v : value) : bool :=
  match v with VArray _ => true | _ => false end.

Fixpoint lookup_field (k : string) (fields : list (string * value)) : option value :=
  match fields with
  | [] => None
  | (k', v) :: rest => if String.eqb k k' then Some v else lookup_field k rest
  end.

(** [k in v] for a value that passed the object tests.  An AbortSignal has
    no property called [signal]; neither has an array. *)
Definition has_property (k : string) (v : value) : bool :=
  match v with
  | VObject fields => match lookup_field k fields with Some _ => true | None => false end
  | _ => false
  end.

(** [v.k] (or [v?.k]): a missing property reads as [undefined]. *)
Definition get_property (k : string) (v : value) : value :=
  match v with
  | VObject fields => match lookup_field k fields with Some x => x | None => VUndefined end
  | _ => VUndefined
  end.

(** [a ?? b] *)
Definition nullish (a b : value) : value :=
  match a with
  | VUndefined | VNull => b
  | _ => a
  end.

(* ------------------------------------------------------------------------- *)
(** ** Options *)

Inductive num := Fin (z : Z) | Infinity.

Inductive strategyKind := Extend | FixedDeadline.

Record DebounceOptions := mkOptions {
  opt_wait : Z;
  opt_leading : option bool;
  opt_trailing : option bool;
  opt_maxWait : option num;
  opt_strategy : option strategyKind;
  opt_signal : option signalId
}.

(* ------------------------------------------------------------------------- *)
(** ** What the host records *)

Definition waiter := nat.   (* one promise [p] per call, numbered in call order *)

Inductive payload :=
| PValue (v : value)        (* a value returned or thrown by the target *)
| PAbortError               (* DOMException("Operation aborted", "AbortError") *)
| PCanceled                 (* Error("Debounce canceled") *)
| PTypeError.               (* [signal.addEventListener] is not a function *)

(** One call of a waiter's [resolve] ([ok = true]) or [reject]. *)
Record settlement := mkSettlement {
  s_waiter : waiter;
  s_ok : bool;
  s_payload : payload
}.

(** One [fn.apply(ctx, args)]. *)
Record invocation := mkInvocation {
  inv_time : Z;
  inv_this : value;
  inv_args : list value
}.

(** What a wrapper operation hands back to its caller. *)
Inductive completion (A : Type) :=
| Normal (a : A)
| Thrown (e : payload).
Arguments Normal {A} a.
Arguments Thrown {A} e.

(** The direct result of the target: a plain value or a still pending promise. *)
Inductive direct := DValue (v : value) | DPromise.

(** The promise returned by a call: the call's own [p], or
    [Promise.resolve(result)] on the leading-only path. *)
Inductive returned := RetWaiter (p : waiter) | RetResolved (r : direct).

(* ------------------------------------------------------------------------- *)
(** ** The target function *)

(** Wrapper operations, as a caller (or the target itself) can issue them. *)
Inductive op :=
| OpCall (allArgs : list value)
| OpCancel
| OpFlush
| OpAbort (s : signalId).     (* [controller.abort()] of the signal's controller *)

Inductive outcome :=
| Returns (v : value)
| Throws (e : value)
| ReturnsPromise.             (* a promise that settles in a later task *)

(** One run of the target: the wrapper operations it issues while it runs
    (re-entrancy), then how it completes. *)
Record behaviour := mkBehaviour {
  reentrant : list op;
  result : outcome
}.

Definition target := value -> list value -> behaviour.

(* ------------------------------------------------------------------------- *)
(** ** Closure variables and host state *)

Record state := mkState {
  timerId : option Z;          (* the armed timeout, by the time it is due *)
  firstCallTime : Z;
  lastInvokeTime : Z;
  pendingArgs : option (list value);
  pendingThis : value;
  pendingResolves : list waiter;
  pendingRejects : list waiter;
  fixedDeadline : Z
}.

Record world := mkWorld {
  vars : state;
  invocations : list invocation;          (* oldest first *)
  settlements : list settlement;          (* oldest first *)
  microtasks : list (bool * payload);     (* queued [settleAll] reactions *)
  inflight : nat;                         (* target promises not yet settled *)
  abortedSignals : list signalId;
  listeners : list (signalId * waiter);   (* one-shot abort listeners *)
  nextWaiter : waiter
}.

Definition set_timerId (x : option Z) (s : state) : state :=
  mkState x (firstCallTime s) (lastInvokeTime s) (pendingArgs s) (pendingThis s)
          (pendingResolves s) (pendingRejects s) (fixedDeadline s).
Definition set_firstCallTime (x : Z) (s : state) : state :=
  mkState (timerId s) x (lastInvokeTime s) (pendingArgs s) (pendingThis s)
          (pendingResolves s) (pendingRejects s) (fixedDeadline s).
Definition set_lastInvokeTime (x : Z) (s : state) : state :=
  mkState (timerId s) (firstCallTime s) x (pendingArgs s) (pendingThis s)
          (pendingResolves s) (pendingRejects s) (fixedDeadline s).
Definition set_pendingArgs (x : option (list value)) (s : state) : state :=
  mkState (timerId s) (firstCallTime s) (lastInvokeTime s) x (pendingThis s)
          (pendingResolves s) (pendingRejects s) (fixedDeadline s).
Definition set_pendingThis (x : value) (s : state) : state :=
  mkState (timerId s) (firstCallTime s) (lastInvokeTime s) (pendingArgs s) x
          (pendingResolves s) (pendingRejects s) (fixedDeadline s).
Definition set_waiters (rs js : list waiter) (s : state) : state :=
  mkState (timerId s) (firstCallTime s) (lastInvokeTime s) (pendingArgs s) (pendingThis s)
          rs js (fixedDeadline s).
Definition set_fixedDeadline (x : Z) (s : state) : state :=
  mkState (timerId s) (firstCallTime s) (lastInvokeTime s) (pendingArgs s) (pendingThis s)
          (pendingResolves s) (pendingRejects s) x.

Definition upd_vars (f : state -> state) (w : world) : world :=
  mkWorld (f (vars w)) (invocations w) (settlements w) (microtasks w) (inflight w)
          (abortedSignals w) (listeners w) (nextWaiter w).
Definition log_invocation (i : invocation) (w : world) : world :=
  mkWorld (vars w) (invocations w ++ [i]) (settlements w) (microtasks w) (inflight w)
          (abortedSignals w) (listeners w) (nextWaiter w).
Definition log_settlements (l : list settlement) (w : world) : world :=
  mkWorld (vars w) (invocations w) (settlements w ++ l) (microtasks w) (inflight w)
          (abortedSignals w) (listeners w) (nextWaiter w).
Definition set_microtasks (q : list (bool * payload)) (w : world) : world :=
  mkWorld (vars w) (invocations w) (settlements w) q (inflight w)
          (abortedSignals w) (listeners w) (nextWaiter w).
Definition set_inflight (n : nat) (w : world) : world :=
  mkWorld (vars w) (invocations w) (settlements w) (microtasks w) n
          (abortedSignals w) (listeners w) (nextWaiter w).
Definition set_abortedSignals (l : list signalId) (w : world) : world :=
  mkWorld (vars w) (invocations w) (settlements w) (microtasks w) (inflight w)
          l (listeners w) (nextWaiter w).
Definition set_listeners (l : list (signalId * waiter)) (w : world) : world :=
  mkWorld (vars w) (invocations w) (settlements w) (microtasks w) (inflight w)
          (abortedSignals w) l (nextWaiter w).
Definition set_nextWaiter (n : waiter) (w : world) : world :=
  mkWorld (vars w) (invocations w) (settlements w) (microtasks w) (inflight w)
          (abortedSignals w) (listeners w) n.

Definition is_some {A} (o : option A) : bool :=
  match o with Some _ => true | None => false end.

(** [Array.prototype.indexOf] on the waiter list. *)
Fixpoint indexOf (x : waiter) (l : list waiter) : option nat :=
  match l with
  | [] => None
  | y :: r => if Nat.eqb x y then Some 0%nat
              else match indexOf x r with Some i => Some (S i) | None => None end
  end.

(** [l.splice(idx, 1)] *)
Fixpoint splice1 (idx : nat) (l : list waiter) : list waiter :=
  match l, idx with
  | [], _ => []
  | _ :: r, O => r
  | y :: r, S i => y :: splice1 i r
  end.

(* ------------------------------------------------------------------------- *)
(** ** Per-call options: the trailing [{ signal }] argument *)

Definition lastArg (allArgs : list value) : value := last allArgs VUndefined.

Definition has_call_options (allArgs : list value) : bool :=
  (0 <? List.length allArgs)%nat
  && truthy (lastArg allArgs)
  && typeof_object (lastArg allArgs)
  && negb (isArray (lastArg allArgs))
  && has_property "signal" (lastArg allArgs).

(** The arguments left for the target and the value of [callSignal]. *)
Definition split_call (allArgs : list value) : list value * value :=
  if has_call_options allArgs
  then (removelast allArgs, get_property "signal" (lastArg allArgs))
  else (allArgs, VUndefined).

(* ------------------------------------------------------------------------- *)
(** ** The wrapper *)

Section Wrapper.

Variable options : DebounceOptions.
Variable fn : target.

Definition wait : Z := Z.max 0 (opt_wait options).
Definition leading : bool :=
  match opt_leading options with Some b => b | None => false end.
Definition trailing : bool :=
  match opt_trailing options with Some false => false | _ => true end.
Definition strategy : strategyKind :=
  match opt_strategy options with Some s => s | None => Extend end.
Definition hasMaxWait : bool :=
  match opt_maxWait options with Some (Fin _) => true | _ => false end.
Definition maxWait : num :=
  match opt_maxWait options with
  | Some (Fin m) => Fin (Z.max 0 m)
  | _ => Infinity
  end.
Definition defaultSignal : value :=
  match opt_signal options with Some s => VSignal s | None => VUndefined end.

Definition clearTimer (w : world) : world := upd_vars (set_timerId None) w.

Definition settleAll (success : bool) (p : payload) (w : world) : world :=
  let resolves := pendingResolves (vars w) in
  let rejects := pendingRejects (vars w) in
  let w := upd_vars (set_waiters [] []) w in
  log_settlements
    (map (fun k => mkSettlement k success p) (if success then resolves else rejects)) w.

Definition pending (w : world) : bool :=
  is_some (pendingArgs (vars w)) || is_some (timerId (vars w)).

Definition cancel (w : world) : world :=
  let w := clearTimer w in
  let w := upd_vars (fun s => set_pendingThis VNull (set_pendingArgs None s)) w in
  match pendingRejects (vars w) with
  | [] => w
  | _ :: _ => settleAll false PCanceled w
  end.

(** [signal?.aborted], read for truthiness. *)
Definition signal_aborted (w : world) (sig : value) : bool :=
  match sig with
  | VSignal s => existsb (Nat.eqb s) (abortedSignals w)
  | VObject _ => truthy (get_property "aborted" sig)
  | _ => false
  end.

(** The executor of [new Promise(...)] for the call's waiter [p]. *)
Definition executor (sig : value) (aborted : bool) (p : waiter) (w : world) : world :=
  if aborted then log_settlements [mkSettlement p false PAbortError] w
  else
    let w := upd_vars (fun s => set_waiters (pendingResolves s ++ [p])
                                            (pendingRejects s ++ [p]) s) w in
    if truthy sig then
      match sig with
      | VSignal s => set_listeners (listeners w ++ [(s, p)]) w
      | _ =>
          (* not an event target: the executor throws and the promise
             constructor rejects [p] with that error *)
          log_settlements [mkSettlement p false PTypeError] w
      end
    else w.

(** The listener installed by the executor. *)
Definition onAbort (p : waiter) (w : world) : world :=
  let w :=
    match indexOf p (pendingResolves (vars w)) with
    | Some idx =>
        let w := upd_vars (fun s => set_waiters (splice1 idx (pendingResolves s))
                                                (splice1 idx (pendingRejects s)) s) w in
        log_settlements [mkSettlement p false PAbortError] w
    | None => w
    end in
  if negb (pending w) then clearTimer w else w.

(** The signal fires: its one-shot listeners run in registration order. *)
Definition abort (s : signalId) (w : world) : world :=
  if existsb (Nat.eqb s) (abortedSignals w) then w
  else
    let mine := filter (fun l => Nat.eqb (fst l) s) (listeners w) in
    let others := filter (fun l => negb (Nat.eqb (fst l) s)) (listeners w) in
    let w := set_listeners others (set_abortedSignals (s :: abortedSignals w) w) in
    fold_left (fun w l => onAbort (snd l) w) mine w.

Definition min_delay (remainingWait : Z) (remainingByMax : num) : Z :=
  match remainingByMax with
  | Fin m => Z.min remainingWait m
  | Infinity => remainingWait
  end.

(** The largest delay the host's timers hold: 2^31 - 1 ms. *)
Definition TIMEOUT_MAX : Z := 2147483647.

(** The delay the host waits when asked for [delay] ms.  No host holds a
    delay above [TIMEOUT_MAX]: Node, and the fake timers the package's tests
    run on, take such a delay as 1 ms (a browser wraps it to 32 bits
    instead).  Node also takes a delay below 1 as 1 ms; [schedule] never
    asks for one.  From 1 to [TIMEOUT_MAX] the hosts agree. *)
Definition hostDelay (delay : Z) : Z :=
  if (1 <=? delay) && (delay <=? TIMEOUT_MAX) then delay else 1.

(** [setTimeout(callback, delay)] at time [now]; the timeout is known by the
    time it is due. *)
Definition setTimeout (delay now : Z) : Z := now + hostDelay delay.

Section Level.

(** [invoke] as the operations below may call it; tied by [invoke] below. *)
Variable invoke_rec : Z -> world -> option (world * completion direct).

Definition schedule_with (now : Z) (w : world) : option (world * completion unit) :=
  let w := clearTimer w in
  let remainingWait :=
    match strategy with
    | Extend => wait
    | FixedDeadline => Z.max 0 (fixedDeadline (vars w) - now)
    end in
  let elapsedSinceFirst := now - firstCallTime (vars w) in
  let remainingByMax :=
    if hasMaxWait
    then match maxWait with
         | Fin m => Fin (Z.max 0 (m - elapsedSinceFirst))
         | Infinity => Infinity
         end
    else Infinity in
  let delay := min_delay remainingWait remainingByMax in
  if delay <=? 0 then
    match invoke_rec now w with
    | None => None
    | Some (w, Thrown e) => Some (w, Thrown e)
    | Some (w, Normal _) => Some (w, Normal tt)
    end
  else Some (upd_vars (set_timerId (Some (setTimeout delay now))) w, Normal tt).

Definition debounced_with (this : value) (allArgs : list value) (now : Z) (w : world)
  : option (world * completion returned) :=
  let '(args, callSignal) := split_call allArgs in
  let isFirstInCycle :=
    negb (is_some (pendingArgs (vars w))) && negb (is_some (timerId (vars w))) in
  let w := upd_vars (fun s => set_pendingThis this (set_pendingArgs (Some args) s)) w in
  let w :=
    if isFirstInCycle then
      upd_vars (fun s =>
                  let s := set_firstCallTime now s in
                  match strategy with
                  | FixedDeadline => set_fixedDeadline (firstCallTime s + wait) s
                  | Extend => s
                  end) w
    else w in
  let sig := nullish callSignal defaultSignal in
  let aborted := signal_aborted w sig in
  let p := nextWaiter w in
  let w := executor sig aborted p (set_nextWaiter (S p) w) in
  let trailingEdge (w : world) :=
    if trailing then
      match schedule_with now w with
      | None => None
      | Some (w, Thrown e) => Some (w, Thrown e)
      | Some (w, Normal _) => Some (w, Normal (RetWaiter p))
      end
    else Some (w, Normal (RetWaiter p)) in
  if isFirstInCycle && leading then
    match invoke_rec now w with
    | None => None
    | Some (w, Thrown e) => Some (w, Thrown e)
    | Some (w, Normal r) =>
        if negb trailing then Some (w, Normal (RetResolved r))
        else trailingEdge w
    end
  else trailingEdge w.

Definition flush_with (now : Z) (w : world) : option (world * completion (option direct)) :=
  match pendingArgs (vars w) with
  | None => Some (w, Normal None)
  | Some _ =>
      match invoke_rec now w with
      | None => None
      | Some (w, Thrown e) => Some (w, Thrown e)
      | Some (w, Normal r) => Some (w, Normal (Some r))
      end
  end.

Definition exec_op (now : Z) (o : op) (w : world) : option (world * completion unit) :=
  match o with
  | OpCall allArgs =>
      match debounced_with VUndefined allArgs now w with
      | None => None
      | Some (w, Thrown e) => Some (w, Thrown e)
      | Some (w, Normal _) => Some (w, Normal tt)
      end
  | OpCancel => Some (cancel w, Normal tt)
  | OpFlush =>
      match flush_with now w with
      | None => None
      | Some (w, Thrown e) => Some (w, Thrown e)
      | Some (w, Normal _) => Some (w, Normal tt)
      end
  | OpAbort s => Some (abort s w, Normal tt)
  end.

(** Straight-line code: an uncaught exception skips the rest. *)
Fixpoint exec_ops (now : Z) (ops : list op) (w : world) : option (world * completion unit) :=
  match ops with
  | [] => Some (w, Normal tt)
  | o :: rest =>
      match exec_op now o w with
      | None => None
      | Some (w, Thrown e) => Some (w, Thrown e)
      | Some (w, Normal _) => exec_ops now rest w
      end
  end.

Definition invoke_with (now : Z) (w : world) : option (world * completion direct) :=
  let w := clearTimer w in
  (* [fn.apply(ctx, null)] passes no arguments *)
  let args := match pendingArgs (vars w) with Some a => a | None => [] end in
  let ctx := pendingThis (vars w) in
  let w := upd_vars (fun s => set_pendingThis VNull (set_pendingArgs None s)) w in
  let w := upd_vars (set_lastInvokeTime now) w in
  let w := log_invocation (mkInvocation now ctx args) w in
  let b := fn ctx args in
  match exec_ops now (reentrant b) w with
  | None => None
  | Some (w, Thrown e) => Some (settleAll false e w, Thrown e)
  | Some (w, Normal _) =>
      match result b with
      | Returns v =>
          Some (set_microtasks (microtasks w ++ [(true, PValue v)]) w, Normal (DValue v))
      | Throws e => Some (settleAll false (PValue e) w, Thrown (PValue e))
      | ReturnsPromise => Some (set_inflight (S (inflight w)) w, Normal DPromise)
      end
  end.

End Level.

(** [fuel] bounds how deeply target runs nest (the target calling the
    wrapper, whose invocation runs the target, ...). *)
Fixpoint invoke (fuel : nat) : Z -> world -> option (world * completion direct) :=
  match fuel with
  | O => fun _ _ => None
  | S fuel' => invoke_with (invoke fuel')
  end.

Definition schedule (fuel : nat) := schedule_with (invoke fuel).
Definition debounced (fuel : nat) := debounced_with (invoke fuel).
Definition flush (fuel : nat) := flush_with (invoke fuel).

(* ----------------------------------------------------------------------- *)
(** ** The host: tasks, microtasks, the timer *)

(** Reactions queued by [Promise.resolve(out).then(...)] run once the
    current task has finished. *)
Definition run_microtasks (w : world) : world :=
  fold_left (fun w m => settleAll (fst m) (snd m) w) (microtasks w) (set_microtasks [] w).

Inductive event :=
| Task (ops : list op)                      (* caller code, run to completion *)
| TargetSettles (ok : bool) (v : value).    (* a promise returned by the target settles *)

Definition drop {A} (r : option (world * completion A)) : option world :=
  match r with Some (w, _) => Some w | None => None end.

Definition run_event (fuel : nat) (now : Z) (e : event) (w : world) : option world :=
  match e with
  | Task ops => option_map run_microtasks (drop (exec_ops (invoke fuel) now ops w))
  | TargetSettles ok v =>
      match inflight w with
      | O => Some w
      | S n => Some (settleAll ok (PValue v) (set_inflight n w))
      end
  end.

(** The timer callback [() => invoke(Date.now())], run when it is due. *)
Definition fire_timer (fuel : nat) (due : Z) (w : world) : option world :=
  option_map run_microtasks (drop (invoke fuel due w)).

(** Let the clock reach [t]: timers due by then fire, at most [n] of them. *)
Fixpoint advance_loop (fuel n : nat) (t : Z) (w : world) : option world :=
  match timerId (vars w) with
  | Some due =>
      if due <=? t then
        match n with
        | O => None
        | S n' =>
            match fire_timer fuel due w with
            | Some w' => advance_loop fuel n' t w'
            | None => None
            end
        end
      else Some w
  | None => Some w
  end.

Definition advance (fuel : nat) (t : Z) (w : world) : option world :=
  advance_loop fuel fuel t w.

(** A timed trace: before each event the clock advances to its time. *)
Fixpoint run (fuel : nat) (trace : list (Z * event)) (w : world) : option world :=
  match trace with
  | [] => Some w
  | (t, e) :: rest =>
      match advance fuel t w with
      | None => None
      | Some w =>
          match run_event fuel t e w with
          | None => None
          | Some w => run fuel rest w
          end
      end
  end.

(** The trace, then the clock advanced to [t]. *)
Definition run_until (fuel : nat) (trace : list (Z * event)) (t : Z) (w : world) : option world :=
  match run fuel trace w with
  | Some w => advance fuel t w
  | None => None
  end.

End Wrapper.

(** The closure variables right after [createDebouncedFunction] returns. *)
Definition initial_state : state :=
  mkState None 0 0 None VUndefined [] [] 0.

(** The wrapper as [createDebouncedFunction] returns it: nothing pending,
    nothing logged.  The options and the target are parameters of every
    operation above. *)
Definition createDebouncedFunction : world :=
  mkWorld initial_state [] [] [] 0%nat [] [] 0%nat.

Definition debounceExtend (wait : Z) (opts : DebounceOptions) : DebounceOptions :=
  mkOptions wait (opt_leading opts) (opt_trailing opts) (opt_maxWait opts)
            (Some Extend) (opt_signal opts).

Definition debounceFixedDeadline (wait : Z) (opts : DebounceOptions) : DebounceOptions :=
  mkOptions wait (opt_leading opts) (opt_trailing opts) (opt_maxWait opts)
            (Some FixedDeadline) (opt_signal opts).

(** [{}]: every option left out. *)
Definition noOptions : DebounceOptions := mkOptions 0 None None None None None.

(** A target that returns its first argument and never calls the wrapper. *)
Definition echo : target :=
  fun _ args => mkBehaviour [] (Returns (hd VUndefined args)).

Definition call1 (s : string) : op := OpCall [VStr s].

(* ------------------------------------------------------------------------- *)
(** ** Auxiliary definitions used by the statements *)

(** The arguments a call leaves for the target. *)
Definition call_args (allArgs : list value) : list value := fst (split_call allArgs).

(** The signal a call listens to. *)
Definition call_signal (options : DebounceOptions) (allArgs : list value) : value :=
  nullish (snd (split_call allArgs)) (defaultSignal options).

(** A target that never calls back into the wrapper while it runs. *)
Definition plain (fn : target) : Prop := forall ctx args, reentrant (fn ctx args) = [].

(** [invoke] unfolded once for a target run that issues no wrapper operation. *)
Definition invoke1 (fn : target) (now : Z) (w : world) : world * completion direct :=
  let w := clearTimer w in
  let args := match pendingArgs (vars w) with Some a => a | None => [] end in
  let ctx := pendingThis (vars w) in
  let w := upd_vars (fun s => set_pendingThis VNull (set_pendingArgs None s)) w in
  let w := upd_vars (set_lastInvokeTime now) w in
  let w := log_invocation (mkInvocation now ctx args) w in
  match result (fn ctx args) with
  | Returns v => (set_microtasks (microtasks w ++ [(true, PValue v)]) w, Normal (DValue v))
  | Throws e => (settleAll false (PValue e) w, Thrown (PValue e))
  | ReturnsPromise => (set_inflight (S (inflight w)) w, Normal DPromise)
  end.

(** The delay computed by [schedule] at time [now]. *)
Definition delay (options : DebounceOptions) (now : Z) (w : world) : Z :=
  min_delay
    match strategy options with
    | Extend => wait options
    | FixedDeadline => Z.max 0 (fixedDeadline (vars w) - now)
    end
    match maxWait options with
    | Fin m => Fin (Z.max 0 (m - (now - firstCallTime (vars w))))
    | Infinity => Infinity
    end.

(** The world once [debounced] has staged the call and run the promise
    executor, before any leading or trailing work. *)
Definition staged (options : DebounceOptions) (this : value) (allArgs : list value)
    (now : Z) (w : world) : world :=
  let first := negb (is_some (pendingArgs (vars w))) && negb (is_some (timerId (vars w))) in
  let w1 := upd_vars (fun s => set_pendingThis this (set_pendingArgs (Some (call_args allArgs)) s)) w in
  let w2 :=
    if first then
      upd_vars (fun s =>
                  let s := set_firstCallTime now s in
                  match strategy options with
                  | FixedDeadline => set_fixedDeadline (firstCallTime s + wait options) s
                  | Extend => s
                  end) w1
    else w1 in
  executor (call_signal options allArgs)
           (signal_aborted w2 (call_signal options allArgs))
           (nextWaiter w2) (set_nextWaiter (S (nextWaiter w2)) w2).

(** No cycle is open: nothing staged, no timer armed. *)
Definition idle (w : world) : bool :=
  negb (is_some (pendingArgs (vars w))) && negb (is_some (timerId (vars w))).

(** How often waiter [p] has been settled so far. *)
Definition times_settled (p : waiter) (w : world) : nat :=
  List.length (filter (fun s => Nat.eqb (s_waiter s) p) (settlements w)).

(** How often the log [l] settles waiter [p]. *)
Definition count_for (p : waiter) (l : list settlement) : nat :=
  List.length (filter (fun s => Nat.eqb (s_waiter s) p) l).

(** Waiter [p] is in the list [l]. *)
Definition waiting (p : waiter) (l : list waiter) : bool := existsb (Nat.eqb p) l.

(** Fields that settling waiters never touches. *)
Definition same_cycle (w w' : world) : Prop :=
  timerId (vars w') = timerId (vars w)
  /\ pendingArgs (vars w') = pendingArgs (vars w)
  /\ pendingThis (vars w') = pendingThis (vars w)
  /\ firstCallTime (vars w') = firstCallTime (vars w)
  /\ fixedDeadline (vars w') = fixedDeadline (vars w)
  /\ invocations w' = invocations w.

(** ** Traces of calls *)

(** One task per call, at the call's time. *)
Definition single_calls (calls : list (Z * list value)) : list (Z * event) :=
  map (fun c => (fst c, Task [OpCall (snd c)])) calls.

(** Calls that follow one another less than [gap] apart. *)
Fixpoint spaced (gap t : Z) (rest : list (Z * list value)) : Prop :=
  match rest with
  | [] => True
  | c :: r => t <= fst c < t + gap /\ spaced gap (fst c) r
  end.

(** Calls in time order, all before [limit]. *)
Fixpoint within (limit t : Z) (rest : list (Z * list value)) : Prop :=
  match rest with
  | [] => True
  | c :: r => t <= fst c < limit /\ within limit (fst c) r
  end.


(** ** Shapes of an open cycle *)

(** Under [extend]: the cycle as a burst leaves it after the call [(t, a)]. *)
Definition armed (options : DebounceOptions) (inv : list invocation) (t : Z)
    (a : list value) (w : world) : Prop :=
  timerId (vars w) = Some (t + wait options)
  /\ pendingArgs (vars w) = Some (call_args a)
  /\ pendingThis (vars w) = VUndefined
  /\ invocations w = inv.

(** Under [fixedDeadline]: the timer sits on the frozen deadline [D]. *)
Definition armedFixed (inv : list invocation) (D : Z) (a : list value) (w : world) : Prop :=
  timerId (vars w) = Some D
  /\ fixedDeadline (vars w) = D
  /\ pendingArgs (vars w) = Some (call_args a)
  /\ pendingThis (vars w) = VUndefined
  /\ invocations w = inv.



(** ** Waiter accounting *)

(** Every promise handed out so far is either still in the waiter lists and
    unsettled, or out of them and settled exactly once. *)
Definition accounted (w : world) : Prop :=
  pendingRejects (vars w) = pendingResolves (vars w)
  /\ NoDup (pendingResolves (vars w))
  /\ (forall p, In p (pendingResolves (vars w)) -> (p < nextWaiter w)%nat)
  /\ (forall p, times_settled p w =
                if (p <? nextWaiter w)%nat && negb (waiting p (pendingResolves (vars w)))
                then 1%nat else 0%nat).

(** Waiters are only kept while something is still due to settle them. *)
Definition owed (w : world) : Prop :=
  pendingResolves (vars w) = []
  \/ timerId (vars w) <> None \/ microtasks w <> [] \/ inflight w <> 0%nat.

Definition consistent (options : DebounceOptions) (w : world) : Prop :=
  accounted w /\ owed w /\ (trailing options = false -> idle w = true).

(** Between tasks: the books are kept and the microtask queue is empty. *)
Definition settledown (options : DebounceOptions) (w : world) : Prop :=
  consistent options w /\ microtasks w = [].

(** The books are kept, and a wrapper without trailing edge is idle. *)
Definition tidy (options : DebounceOptions) (w : world) : Prop :=
  accounted w /\ (trailing options = false -> idle w = true).

(** What [invoke] owes its callers, whatever the target does. *)
Definition invoke_ok (options : DebounceOptions)
    (inv : Z -> world -> option (world * completion direct)) : Prop :=
  forall now w w' c,
    accounted w -> inv now w = Some (w', c) -> tidy options w' /\ owed w'.

(** The signal of a call is absent or an AbortSignal, as the type
    [{ signal?: AbortSignal }] of the per-call options has it. *)
Definition signal_typed (v : value) : bool :=
  match v with
  | VUndefined | VNull | VSignal _ => true
  | _ => false
  end.

Definition op_typed (options : DebounceOptions) (o : op) : bool :=
  match o with
  | OpCall allArgs => signal_typed (call_signal options allArgs)
  | _ => true
  end.

Definition event_typed (options : DebounceOptions) (e : event) : bool :=
  match e with
  | Task ops => forallb (op_typed options) ops
  | TargetSettles _ _ => true
  end.

(** ** Sample targets, options and worlds *)

(** A target whose result is a promise that settles later. *)
Definition slow : target := fun _ _ => mkBehaviour [] ReturnsPromise.

(** A target that calls the wrapper again while it runs on ["a"]. *)
Definition reenter : target :=
  fun _ args =>
    match args with
    | [VStr s] =>
        if String.eqb s "a"
        then mkBehaviour [OpCall [VStr "b"]] (Returns (VStr "result of a"))
        else mkBehaviour [] (Returns (VStr "result of b"))
    | _ => mkBehaviour [] (Returns VUndefined)
    end.

(** A cycle opened by one call with ["a"], its timer due at 100. *)
Definition openCycle : world :=
  mkWorld (mkState (Some 100) 0 0 (Some [VStr "a"]) VUndefined [0%nat] [0%nat] 0)
          [] [] [] 0%nat [] [] 1%nat.

(** Calls every 100 ms for 2.4 s, with [wait = 300] and [maxWait = 2000]. *)
Definition stream : list (Z * list value) :=
  map (fun i => (100 * Z.of_nat i, [VNum (Z.of_nat i)])) (seq 1 24).

Definition streamOptions : DebounceOptions :=
  debounceExtend 300 (mkOptions 0 None None (Some (Fin 2000)) None None).

(** ** Further shapes and traces *)

(** What the promise executor leaves behind for a signal that has not fired. *)
Definition executor_extra (sig : value) (p : waiter) : list settlement :=
  match sig with
  | VSignal _ => []
  | _ => if truthy sig then [mkSettlement p false PTypeError] else []
  end.

Definition executor_listener (sig : value) (p : waiter) : list (signalId * waiter) :=
  match sig with
  | VSignal s => [(s, p)]
  | _ => []
  end.

(** Two calls share a cycle; the first listens to signal 5. *)
Definition twoWaiters : world :=
  mkWorld (mkState (Some 100) 0 0 (Some [VStr "b"]) VUndefined
                   [0%nat; 1%nat] [0%nat; 1%nat] 0)
          [] [] [] 0%nat [] [(5%nat, 0%nat)] 2%nat.

(** The waiters of a burst: callers [0 .. n-1], none settled yet. *)
Definition gathered (n : nat) (w : world) : Prop :=
  pendingResolves (vars w) = seq 0 n
  /\ pendingRejects (vars w) = seq 0 n
  /\ settlements w = []
  /\ microtasks w = []
  /\ nextWaiter w = n
  /\ abortedSignals w = []
  /\ inflight w = 0%nat.

(** An operation other than [flush()]. *)
Definition flushless (o : op) : bool :=
  match o with OpFlush => false | _ => true end.

Definition event_flushless (e : event) : bool :=
  match e with
  | Task ops => forallb flushless ops
  | TargetSettles _ _ => true
  end.

(** Every target run so far used the arguments of one of the calls [seen],
    not before that call; an armed timer stands for one more such run. *)
Definition traced (seen : list (Z * list value)) (w : world) : Prop :=
  (List.length (invocations w) + match timerId (vars w) with Some _ => 1 | None => 0 end
   <= List.length seen)%nat
  /\ (forall i, In i (invocations w) ->
        inv_this i = VUndefined
        /\ exists c, In c seen /\ inv_args i = call_args (snd c) /\ fst c <= inv_time i)
  /\ (forall due, timerId (vars w) = Some due ->
        exists c, In c seen /\ pendingArgs (vars w) = Some (call_args (snd c))
                  /\ pendingThis (vars w) = VUndefined /\ fst c < due).

(** When the timer of a cycle begun at [t0] is due after its latest call at
    [t]: the strategy's time, cut off at the ceiling [t0 + m]. *)
Definition dueTime (options : DebounceOptions) (t0 m t : Z) : Z :=
  Z.min match strategy options with
        | Extend => t + wait options
        | FixedDeadline => t0 + wait options
        end
        (t0 + m).

(** A cycle begun at [t0], its latest call [(t, a)], under the ceiling [m]. *)
Definition armedCapped (options : DebounceOptions) (inv : list invocation) (t0 m t : Z)
    (a : list value) (w : world) : Prop :=
  firstCallTime (vars w) = t0
  /\ fixedDeadline (vars w) =
       match strategy options with
       | Extend => fixedDeadline (vars w)
       | FixedDeadline => t0 + wait options
       end
  /\ timerId (vars w) = Some (dueTime options t0 m t)
  /\ pendingArgs (vars w) = Some (call_args a)
  /\ pendingThis (vars w) = VUndefined
  /\ invocations w = inv.

(** Calls in time order, each before the timer left by the one before it. *)
Fixpoint beforeDue (options : DebounceOptions) (t0 m t : Z) (rest : list (Z * list value))
  : Prop :=
  match rest with
  | [] => True
  | c :: r => t <= fst c < dueTime options t0 m t /\ beforeDue options t0 m (fst c) r
  end.

(* ------------------------------------------------------------------------- *)
(** * The first version of the package: [UserTypedDebounce], [TimeBasedDebounce] *)

Module Legacy.

(** The function handed in: a label to tell the callers apart, and whether
    it throws.  It does not call the debouncer itself. *)
Record func := mkFunc {
  label : nat;
  throws : bool
}.

(** A timeout the host still has to run. *)
Record timeout := mkTimeout {
  timeoutId : nat;
  due : Z;
  callback : func
}.

(** The module-level variables [ref] and [lastTime] (or [ref1] and
    [lastTime1]), shared by every caller of the exported function, and the
    host's timeouts.  A number that is [undefined] or [NaN] is [None]; the
    ids [setTimeout] returns are positive, hence truthy. *)
Record module := mkModule {
  ref : option nat;
  lastTime : option Z;
  timeouts : list timeout;       (* in the order they were set *)
  nextId : nat;
  runs : list (Z * nat)          (* when which [func] ran, oldest first *)
}.

(** The module once loaded. *)
Definition load : module := mkModule None None [] 1 [].

Definition set_ref (x : option nat) (m : module) : module :=
  mkModule x (lastTime m) (timeouts m) (nextId m) (runs m).

Definition set_lastTime (x : option Z) (m : module) : module :=
  mkModule (ref m) x (timeouts m) (nextId m) (runs m).

Definition plus (a b : option Z) : option Z :=
  match a, b with Some x, Some y => Some (x + y) | _, _ => None end.

Definition minus (a b : option Z) : option Z :=
  match a, b with Some x, Some y => Some (x - y) | _, _ => None end.

(** One call of an exported function. *)
Record request := mkRequest {
  when : Z;
  what : func;
  timer : Z
}.

Section Host.

(** The least delay the host grants: 0 in a browser, 1 in Node. *)
Variable minDelay : Z.

(** The delays on which the hosts agree up to [minDelay]. *)
Definition inRange (d : Z) : bool := (-2147483648 <=? d) && (d <=? 2147483647).

Definition setTimeout (f : func) (delay : option Z) (now : Z) (m : module)
  : option (nat * module) :=
  match delay with
  | Some d =>
      if inRange d then
        Some (nextId m,
              mkModule (ref m) (lastTime m)
                       (timeouts m ++ [mkTimeout (nextId m) (now + Z.max minDelay d) f])
                       (S (nextId m)) (runs m))
      else None
  | None =>
      Some (nextId m,
            mkModule (ref m) (lastTime m)
                     (timeouts m ++ [mkTimeout (nextId m) (now + minDelay) f])
                     (S (nextId m)) (runs m))
  end.

Definition clearTimeout (id : nat) (m : module) : module :=
  mkModule (ref m) (lastTime m)
           (filter (fun t => negb (Nat.eqb (timeoutId t) id)) (timeouts m))
           (nextId m) (runs m).

Definition UserTypedDebounce (f : func) (timer : Z) (now : Z) (m : module) : option module :=
  let m := match ref m with
           | Some id => clearTimeout id m
           | None => m
           end in
  match setTimeout f (Some timer) now m with
  | Some (id, m) => Some (set_lastTime (Some (now + timer)) (set_ref (Some id) m))
  | None => None
  end.

(** The example app's [utils] holds the same function under the name
    [debounce], with module variables of its own. *)
Definition debounce (f : func) (timer : Z) (now : Z) (m : module) : option module :=
  UserTypedDebounce f timer now m.

Definition TimeBasedDebounce (f : func) (timer : Z) (now : Z) (m : module) : option module :=
  let '(m, timer) :=
    match ref m with
    | Some id => (set_ref None (clearTimeout id m), minus (Some now) (lastTime m))
    | None => (m, Some timer)
    end in
  match setTimeout f timer now m with
  | Some (id, m) => Some (set_lastTime (plus (Some now) timer) (set_ref (Some id) m))
  | None => None
  end.

(** The arrow function given to [setTimeout]; a throw of [func] skips the
    two assignments. *)
Definition onTimeout (t : timeout) (m : module) : module :=
  let m := mkModule (ref m) (lastTime m) (timeouts m) (nextId m)
                    (runs m ++ [(due t, label (callback t))]) in
  if throws (callback t) then m
  else set_ref None (set_lastTime (Some 0) m).

(** The timeout to run next: the earliest, the older one of two due together. *)
Fixpoint earliest (l : list timeout) : option timeout :=
  match l with
  | [] => None
  | t :: r =>
      match earliest r with
      | Some u => if due u <? due t then Some u else Some t
      | None => Some t
      end
  end.

Fixpoint advance_loop (n : nat) (T : Z) (m : module) : module :=
  match n with
  | O => m
  | S n' =>
      match earliest (timeouts m) with
      | Some t =>
          if due t <=? T
          then advance_loop n' T (onTimeout t (clearTimeout (timeoutId t) m))
          else m
      | None => m
      end
  end.

(** Let the clock reach [T]; running a timeout sets no new one. *)
Definition advance (T : Z) (m : module) : module :=
  advance_loop (List.length (timeouts m)) T m.

Fixpoint run (debounce : func -> Z -> Z -> module -> option module)
    (calls : list request) (m : module) : option module :=
  match calls with
  | [] => Some m
  | c :: rest =>
      match debounce (what c) (timer c) (when c) (advance (when c) m) with
      | Some m => run debounce rest m
      | None => None
      end
  end.

Definition run_until (debounce : func -> Z -> Z -> module -> option module)
    (calls : list request) (T : Z) (m : module) : option module :=
  option_map (advance T) (run debounce calls m).

(** When the timeout set by the call [c] is due. *)
Definition dueOf (c : request) : Z := when c + Z.max minDelay (timer c).

(** Each call comes before the timeout of the call before it has run. *)
Fixpoint crowded (c : request) (rest : list request) : Prop :=
  match rest with
  | [] => True
  | c' :: r => when c <= when c' < dueOf c /\ crowded c' r
  end.

(** One timeout at most is set, and [ref] holds its id. *)
Definition single (seen : list request) (m : module) : Prop :=
  (timeouts m = []
   \/ exists t, timeouts m = [t] /\ ref m = Some (timeoutId t)
                /\ In (callback t) (map what seen))
  /\ (List.length (runs m) + List.length (timeouts m) <= List.length seen)%nat
  /\ forall r, In r (runs m) -> exists c, In c seen /\ snd r = label (what c).

End Host.
End Legacy.

(* ------------------------------------------------------------------------- *)
(** * Properties *)

(** Reduce projections of updated worlds. *)
Ltac unfold_world :=
  cbn [clearTimer settleAll upd_vars log_invocation log_settlements
       set_microtasks set_inflight set_abortedSignals set_listeners set_nextWaiter
       set_timerId set_firstCallTime set_lastInvokeTime set_pendingArgs
       set_pendingThis set_waiters set_fixedDeadline
       vars invocations settlements microtasks inflight abortedSignals listeners
       nextWaiter timerId firstCallTime lastInvokeTime pendingArgs pendingThis
       pendingResolves pendingRejects fixedDeadline fst snd] in *.

(** Closes the range condition on a concrete delay. *)
Ltac timer_range :=
  vm_compute; first [discriminate | split; [reflexivity | discriminate]].

(** The repository's two tests, with the fake clock advanced step by step. *)
Example test_extend_debounces_trailing :
  let o := debounceExtend 50 noOptions in
  option_map (@invocations) (run_until o echo 1 [(0, Task [call1 "a"; call1 "b"; call1 "c"])] 49 createDebouncedFunction)
    = Some []
  /\ option_map (@invocations) (run_until o echo 1 [(0, Task [call1 "a"; call1 "b"; call1 "c"])] 50 createDebouncedFunction)
    = Some [mkInvocation 50 VUndefined [VStr "c"]].
Proof. split; reflexivity. Qed.

Example test_fixedDeadline_uses_first_deadline :
  let o := debounceFixedDeadline 80 noOptions in
  option_map (@invocations)
    (run_until o echo 1 [(0, Task [call1 "1"]); (40, Task [call1 "2"])] 80 createDebouncedFunction)
    = Some [mkInvocation 80 VUndefined [VStr "2"]].
Proof. reflexivity. Qed.

(* ------------------------------------------------------------------------- *)
(** ** One run of the target *)

Section PlainInvoke.
Variable options : DebounceOptions.
Variable fn : target.
Hypothesis fn_plain : plain fn.

Lemma invoke_plain fuel now w :
  invoke options fn (S fuel) now w = Some (invoke1 fn now w).
Proof.
  cbn [invoke]. unfold invoke_with, invoke1.
  rewrite fn_plain. cbn [exec_ops].
  destruct (result _); reflexivity.
Qed.

Lemma invoke1_shape now w :
  let args := match pendingArgs (vars w) with Some a => a | None => [] end in
  let w' := fst (invoke1 fn now w) in
  timerId (vars w') = None /\ pendingArgs (vars w') = None
  /\ pendingThis (vars w') = VNull
  /\ firstCallTime (vars w') = firstCallTime (vars w)
  /\ fixedDeadline (vars w') = fixedDeadline (vars w)
  /\ invocations w' = invocations w ++ [mkInvocation now (pendingThis (vars w)) args]
  /\ nextWaiter w' = nextWaiter w /\ listeners w' = listeners w
  /\ abortedSignals w' = abortedSignals w.
Proof.
  unfold invoke1. destruct (result _); unfold_world; repeat split; reflexivity.
Qed.
End PlainInvoke.

(* ------------------------------------------------------------------------- *)
(** ** [cancel()] *)

Lemma cancel_spec w :
    let w' := cancel w in
    timerId (vars w') = None
    /\ pendingArgs (vars w') = None
    /\ pending w' = false
    /\ invocations w' = invocations w
    /\ settlements w' =
         settlements w ++ map (fun k => mkSettlement k false PCanceled) (pendingRejects (vars w))
    /\ pendingResolves (vars w') = match pendingRejects (vars w) with [] => pendingResolves (vars w) | _ => [] end
    /\ pendingRejects (vars w') = [].
Proof.
  unfold cancel, pending. unfold_world.
  destruct (pendingRejects (vars w)) eqn:E; unfold_world; rewrite ?E; cbn [map];
    rewrite ?app_nil_r; repeat split; reflexivity.
Qed.

Lemma advance_loop_no_timer options fn fuel n t w :
  timerId (vars w) = None -> advance_loop options fn fuel n t w = Some w.
Proof. intros H. destruct n; cbn [advance_loop]; rewrite H; reflexivity. Qed.

(** C6 (amended).  [cancel()] clears the timer and drops the staged
    arguments, so that nothing is invoked for the cycle, neither when time
    passes nor on [flush()]; it rejects every outstanding waiter with the
    cancellation error and leaves [pending()] false.  With no open cycle and
    no waiter outstanding it changes nothing but the saved context, which it
    nulls.  (With no open cycle but waiters still outstanding from a target
    run whose result has not arrived, it rejects those waiters.) *)
Theorem C6_cancel (options : DebounceOptions) (fn : target) (fuel : nat) (w : world) :
  let w' := cancel w in
  (* the timer is cleared and the staged arguments are dropped *)
  timerId (vars w') = None
  /\ pendingArgs (vars w') = None
  /\ pending w' = false
  (* nothing is invoked, now or when time passes or on flush *)
  /\ invocations w' = invocations w
  /\ (forall t, advance options fn fuel t w' = Some w')
  /\ (forall t, flush options fn fuel t w' = Some (w', Normal None))
  (* every outstanding waiter is rejected with the cancellation error *)
  /\ settlements w' =
       settlements w ++ map (fun k => mkSettlement k false PCanceled) (pendingRejects (vars w))
  /\ pendingRejects (vars w') = []
  (* with no open cycle and no waiter outstanding nothing changes but the
     context slot, which is nulled *)
  /\ (pending w = false -> pendingRejects (vars w) = [] ->
      w' = upd_vars (set_pendingThis VNull) w).
Proof.
  intros w'. destruct (cancel_spec w) as (H1 & H2 & H3 & H4 & H5 & H6 & H7).
  fold w' in H1, H2, H3, H4, H5, H6, H7.
  repeat split; auto.
  - intros t. apply advance_loop_no_timer. exact H1.
  - intros t. unfold flush, flush_with. rewrite H2. reflexivity.
  - intros Hp Hr. subst w'. unfold cancel, pending in *. unfold_world. rewrite Hr.
    apply orb_false_elim in Hp. destruct Hp as [Ha Ht].
    destruct w as [s ? ? ? ? ? ? ?]. destruct s as [ti ? ? pa ? ? ? ?]. cbn in *.
    destruct pa; [discriminate|]. destruct ti; [discriminate|]. reflexivity.
Qed.

Lemma C6_witness :
  pending (cancel openCycle) = false
  /\ settlements (cancel openCycle) = [mkSettlement 0%nat false PCanceled]
  /\ advance noOptions echo 1 100 (cancel openCycle) = Some (cancel openCycle)
  /\ cancel createDebouncedFunction = upd_vars (set_pendingThis VNull) createDebouncedFunction.
Proof.
  destruct (C6_cancel noOptions echo 1 openCycle) as (_ & _ & H3 & _ & H5 & _ & H7 & _).
  destruct (C6_cancel noOptions echo 1 createDebouncedFunction)
    as (_ & _ & _ & _ & _ & _ & _ & _ & H9).
  split; [exact H3|]. split; [exact H7|]. split; [exact (H5 100)|].
  exact (H9 eq_refl eq_refl).
Defined.

(** C6 as stated fails: after the timer has run a target whose promise is
    still pending, no cycle is open, yet [cancel()] rejects the waiter. *)
Lemma C6_counterexample :
  exists w,
    run_until (debounceExtend 100 noOptions) slow 1
        [(0, Task [OpCall [VStr "a"]])] 100 createDebouncedFunction = Some w
    /\ invocations w = [mkInvocation 100 VUndefined [VStr "a"]]
    /\ pending w = false
    /\ cancel w <> w
    /\ settlements (cancel w) = [mkSettlement 0%nat false PCanceled].
Proof.
  eexists. split; [vm_compute; reflexivity|].
  repeat split; try (vm_compute; reflexivity).
  vm_compute. discriminate.
Qed.

(* ------------------------------------------------------------------------- *)
(** ** [flush()] *)

(** C7 (amended).  With no arguments staged, [flush()] does nothing and
    returns [undefined], also while a timer is armed.  With arguments staged
    and a target whose run on them does not call back into the wrapper, it
    clears the timer, runs the target at once on those arguments and returns
    the target's own result (or lets its exception through); the waiters are
    settled by the invocation path: at once when the target throws, by the
    queued reaction when it returns a value, and when its promise settles
    otherwise. *)
Theorem C7_flush (options : DebounceOptions) (fn : target) (fuel : nat) (now : Z) (w : world) :
  (pendingArgs (vars w) = None -> flush options fn fuel now w = Some (w, Normal None))
  /\ (forall a, pendingArgs (vars w) = Some a ->
      reentrant (fn (pendingThis (vars w)) a) = [] ->
      exists w' c,
        flush options fn (S fuel) now w = Some (w', c)
        /\ invocations w' = invocations w ++ [mkInvocation now (pendingThis (vars w)) a]
        /\ timerId (vars w') = None
        /\ pendingArgs (vars w') = None
        /\ match result (fn (pendingThis (vars w)) a) with
           | Returns v =>
               c = Normal (Some (DValue v))
               /\ microtasks w' = microtasks w ++ [(true, PValue v)]
               /\ (microtasks w = [] ->
                   settlements (run_microtasks w') =
                     settlements w
                     ++ map (fun k => mkSettlement k true (PValue v)) (pendingResolves (vars w)))
           | Throws e =>
               c = Thrown (PValue e)
               /\ settlements w' =
                    settlements w
                    ++ map (fun k => mkSettlement k false (PValue e)) (pendingRejects (vars w))
           | ReturnsPromise =>
               c = Normal (Some DPromise)
               /\ inflight w' = S (inflight w)
               /\ forall ok v,
                    option_map (@settlements) (run_event options fn fuel now (TargetSettles ok v) w') =
                      Some (settlements w
                            ++ map (fun k => mkSettlement k ok (PValue v))
                                   (if ok then pendingResolves (vars w) else pendingRejects (vars w)))
           end).
Proof.
  split.
  - intros H. unfold flush, flush_with. rewrite H. reflexivity.
  - intros a Ha Hr. unfold flush, flush_with. rewrite Ha.
    cbn [invoke]. unfold invoke_with. unfold_world. rewrite Ha, Hr. cbn [exec_ops].
    destruct (result (fn (pendingThis (vars w)) a)) eqn:Er.
    + do 2 eexists. split; [reflexivity|]. unfold_world. repeat split.
      intros Hm. rewrite Hm. cbn [app]. unfold run_microtasks. unfold_world.
      cbn [fold_left]. unfold_world. reflexivity.
    + do 2 eexists. split; [reflexivity|]. unfold_world. repeat split.
    + do 2 eexists. split; [reflexivity|]. unfold_world. repeat split.
Qed.

Lemma C7_witness :
  flush noOptions echo 1 5 createDebouncedFunction
    = Some (createDebouncedFunction, Normal None)
  /\ exists w' c,
       flush noOptions echo 1 5 openCycle = Some (w', c)
       /\ invocations w' = [mkInvocation 5 VUndefined [VStr "a"]]
       /\ c = Normal (Some (DValue (VStr "a")))
       /\ settlements (run_microtasks w') = [mkSettlement 0%nat true (PValue (VStr "a"))].
Proof.
  destruct (C7_flush noOptions echo 1 5 createDebouncedFunction) as [H1 _].
  destruct (C7_flush noOptions echo 0 5 openCycle) as [_ H2].
  split; [exact (H1 eq_refl)|].
  destruct (H2 [VStr "a"] eq_refl eq_refl) as (w' & c & E & I & _ & _ & Hc & _ & Hs).
  exists w', c. split; [exact E|]. split; [exact I|]. split; [exact Hc|].
  exact (Hs eq_refl).
Defined.

(** C7 as stated fails: after a leading invocation with the trailing edge
    enabled the cycle is open (the timer is armed), yet [flush()] invokes
    nothing and returns [undefined]. *)
Lemma C7_counterexample :
  let o := mkOptions 100 (Some true) (Some true) None None None in
  exists w,
    run o echo 1 [(0, Task [OpCall [VStr "a"]])] createDebouncedFunction = Some w
    /\ pending w = true
    /\ timerId (vars w) = Some 100
    /\ flush o echo 1 50 w = Some (w, Normal None).
Proof.
  eexists. split; [vm_compute; reflexivity|].
  repeat split; vm_compute; reflexivity.
Qed.

(* ------------------------------------------------------------------------- *)
(** ** A call, for a target that does not call back *)

Lemma executor_frame sig ab p w :
  let w' := executor sig ab p w in
  timerId (vars w') = timerId (vars w)
  /\ pendingArgs (vars w') = pendingArgs (vars w)
  /\ pendingThis (vars w') = pendingThis (vars w)
  /\ firstCallTime (vars w') = firstCallTime (vars w)
  /\ fixedDeadline (vars w') = fixedDeadline (vars w)
  /\ invocations w' = invocations w
  /\ microtasks w' = microtasks w
  /\ inflight w' = inflight w
  /\ abortedSignals w' = abortedSignals w
  /\ nextWaiter w' = nextWaiter w.
Proof.
  unfold executor. destruct ab; [unfold_world; repeat split|].
  destruct (truthy sig); [destruct sig|]; unfold_world; repeat split.
Qed.

Section PlainCall.
Variable options : DebounceOptions.
Variable fn : target.
Hypothesis fn_plain : plain fn.

Lemma invoke1_clearTimer now w : invoke1 fn now (clearTimer w) = invoke1 fn now w.
Proof. reflexivity. Qed.

Lemma schedule_plain fuel now w :
  schedule options fn (S fuel) now w =
    Some (if delay options now w <=? 0
          then (fst (invoke1 fn now w),
                match snd (invoke1 fn now w) with
                | Thrown e => Thrown e
                | Normal _ => Normal tt
                end)
          else (upd_vars (set_timerId (Some (setTimeout (delay options now w) now))) w,
                Normal tt)).
Proof.
  unfold schedule, schedule_with. rewrite (invoke_plain options fn fn_plain).
  rewrite invoke1_clearTimer.
  assert (E : min_delay
      match strategy options with
      | Extend => wait options
      | FixedDeadline => Z.max 0 (fixedDeadline (vars (clearTimer w)) - now)
      end
      (if hasMaxWait options
       then match maxWait options with
            | Fin m => Fin (Z.max 0 (m - (now - firstCallTime (vars (clearTimer w)))))
            | Infinity => Infinity
            end
       else Infinity) = delay options now w).
  { unfold delay, hasMaxWait, maxWait. unfold_world.
    destruct (opt_maxWait options) as [[m|]|]; reflexivity. }
  rewrite E. destruct (delay options now w <=? 0).
  - destruct (invoke1 fn now w) as [w' [r|e]]; reflexivity.
  - reflexivity.
Qed.

Lemma debounced_plain fuel this allArgs now w :
  debounced options fn (S fuel) this allArgs now w =
    let w1 := staged options this allArgs now w in
    let p := nextWaiter w in
    let trailingEdge (w : world) :=
      if trailing options then
        match schedule options fn (S fuel) now w with
        | None => None
        | Some (w, Thrown e) => Some (w, Thrown e)
        | Some (w, Normal _) => Some (w, Normal (RetWaiter p))
        end
      else Some (w, Normal (RetWaiter p)) in
    if idle w && leading options then
      match invoke1 fn now w1 with
      | (w, Thrown e) => Some (w, Thrown e)
      | (w, Normal r) =>
          if negb (trailing options) then Some (w, Normal (RetResolved r))
          else trailingEdge w
      end
    else trailingEdge w1.
Proof.
  unfold debounced, debounced_with, staged, call_args, call_signal, idle.
  destruct (split_call allArgs) as [args cs]. cbn [fst snd].
  rewrite (invoke_plain options fn fn_plain).
  destruct (negb (is_some (pendingArgs (vars w))) && negb (is_some (timerId (vars w))));
    reflexivity.
Qed.
End PlainCall.

(* ------------------------------------------------------------------------- *)
(** ** The paths of a call *)

Lemma signal_aborted_frame w w' sig :
  abortedSignals w' = abortedSignals w -> signal_aborted w' sig = signal_aborted w sig.
Proof. intros H. unfold signal_aborted. rewrite H. reflexivity. Qed.

Lemma staged_frame options this allArgs now w :
  let w' := staged options this allArgs now w in
  timerId (vars w') = timerId (vars w)
  /\ pendingArgs (vars w') = Some (call_args allArgs)
  /\ pendingThis (vars w') = this
  /\ firstCallTime (vars w') = (if idle w then now else firstCallTime (vars w))
  /\ fixedDeadline (vars w') =
       (if idle w then match strategy options with
                       | FixedDeadline => now + wait options
                       | Extend => fixedDeadline (vars w)
                       end
        else fixedDeadline (vars w))
  /\ invocations w' = invocations w
  /\ microtasks w' = microtasks w
  /\ inflight w' = inflight w
  /\ abortedSignals w' = abortedSignals w
  /\ nextWaiter w' = S (nextWaiter w).
Proof.
  unfold staged, idle.
  match goal with |- context [executor ?s ?a ?p ?x] =>
    pose proof (executor_frame s a p x) as H; cbv zeta in H;
    set (e := executor s a p x) in *; clearbody e end.
  cbv zeta.
  destruct H as (H1 & H2 & H3 & H4 & H5 & H6 & H7 & H8 & H9 & H10).
  rewrite H1, H2, H3, H4, H5, H6, H7, H8, H9, H10. clear.
  destruct (negb (is_some (pendingArgs (vars w))) && negb (is_some (timerId (vars w))));
    [destruct (strategy options)|]; unfold_world; repeat split.
Qed.

Lemma split_call_options pre fields v :
  lookup_field "signal" fields = Some v ->
  split_call (pre ++ [VObject fields]) = (pre, v).
Proof.
  intros H. unfold split_call, has_call_options, lastArg.
  rewrite last_last, removelast_last, length_app. cbn [List.length truthy typeof_object isArray has_property get_property negb].
  rewrite H. replace (0 <? List.length pre + 1)%nat with true.
  - reflexivity.
  - symmetry. apply Nat.ltb_lt. lia.
Qed.

Section PlainPaths.
Variable options : DebounceOptions.
Variable fn : target.
Hypothesis fn_plain : plain fn.

Lemma delay_frame now w w' :
  firstCallTime (vars w') = firstCallTime (vars w) ->
  fixedDeadline (vars w') = fixedDeadline (vars w) ->
  delay options now w' = delay options now w.
Proof. intros H1 H2. unfold delay. rewrite H1, H2. reflexivity. Qed.

(** The paths a call can take, each with the world it leaves. *)
Lemma debounced_paths fuel this allArgs now w :
  let w1 := staged options this allArgs now w in
  let d := delay options now w1 in
  let lead := idle w && leading options in
  exists w' c,
    debounced options fn (S fuel) this allArgs now w = Some (w', c)
    /\ ((lead = false /\ trailing options = false /\ w' = w1)
        \/ (lead = false /\ trailing options = true /\ 0 < d
            /\ w' = upd_vars (set_timerId (Some (setTimeout d now))) w1)
        \/ (lead = false /\ trailing options = true /\ d <= 0
            /\ w' = fst (invoke1 fn now w1))
        \/ (lead = true
            /\ (trailing options = false \/ exists e, snd (invoke1 fn now w1) = Thrown e)
            /\ w' = fst (invoke1 fn now w1))
        \/ (lead = true /\ trailing options = true /\ 0 < d
            /\ w' = upd_vars (set_timerId (Some (setTimeout d now))) (fst (invoke1 fn now w1)))
        \/ (lead = true /\ trailing options = true /\ d <= 0
            /\ w' = fst (invoke1 fn now (fst (invoke1 fn now w1))))).
Proof.
  cbv zeta. rewrite (debounced_plain options fn fn_plain). cbv zeta.
  set (w1 := staged options this allArgs now w).
  destruct (idle w && leading options) eqn:El.
  - pose proof (invoke1_shape fn now w1) as I1. cbv zeta in I1.
    destruct I1 as (_ & _ & _ & I4 & I5 & _).
    pose proof (delay_frame now w1 (fst (invoke1 fn now w1)) I4 I5) as Ed.
    destruct (invoke1 fn now w1) as [w2 [r|e]] eqn:Ei; cbn [fst snd] in *.
    + destruct (trailing options) eqn:Et; cbn [negb].
      * rewrite (schedule_plain options fn fn_plain). rewrite Ed.
        destruct (delay options now w1 <=? 0) eqn:Ez.
        -- apply Z.leb_le in Ez.
           destruct (snd (invoke1 fn now w2)); cbn iota;
             do 2 eexists; (split; [reflexivity|]); do 5 right; auto.
        -- apply Z.leb_gt in Ez. do 2 eexists. split; [reflexivity|].
           do 4 right. left. auto.
      * do 2 eexists. split; [reflexivity|]. do 3 right. left. auto.
    + do 2 eexists. split; [reflexivity|]. do 3 right. left. eauto.
  - destruct (trailing options) eqn:Et.
    + rewrite (schedule_plain options fn fn_plain).
      destruct (delay options now w1 <=? 0) eqn:Ez.
      * apply Z.leb_le in Ez.
        destruct (snd (invoke1 fn now w1)); cbn iota;
          do 2 eexists; (split; [reflexivity|]); do 2 right; left; auto.
      * apply Z.leb_gt in Ez. do 2 eexists. split; [reflexivity|].
        right. left. auto.
    + do 2 eexists. split; [reflexivity|]. left. auto.
Qed.



End PlainPaths.



(* ------------------------------------------------------------------------- *)
(** ** Calls with a fired signal *)

(** What a target run does to the waiters. *)
Lemma invoke1_waiters fn now w :
  let w' := fst (invoke1 fn now w) in
  (settlements w' = settlements w
   /\ pendingResolves (vars w') = pendingResolves (vars w)
   /\ pendingRejects (vars w') = pendingRejects (vars w)
   /\ (exists r, snd (invoke1 fn now w) = Normal r)
   /\ ((exists v, microtasks w' = microtasks w ++ [(true, PValue v)] /\ inflight w' = inflight w)
       \/ (microtasks w' = microtasks w /\ inflight w' = S (inflight w))))
  \/ (exists e,
        settlements w' = settlements w
                         ++ map (fun k => mkSettlement k false (PValue e)) (pendingRejects (vars w))
        /\ pendingResolves (vars w') = [] /\ pendingRejects (vars w') = []
        /\ snd (invoke1 fn now w) = Thrown (PValue e)
        /\ microtasks w' = microtasks w /\ inflight w' = inflight w).
Proof.
  unfold invoke1. destruct (result _); unfold_world.
  - left. repeat split; eauto.
  - right. eexists. repeat split; eauto.
  - left. repeat split; eauto.
Qed.





(* ------------------------------------------------------------------------- *)
(** ** Timed traces *)

Lemma same_cycle_refl w : same_cycle w w.
Proof. repeat split. Qed.

Lemma same_cycle_trans w1 w2 w3 :
  same_cycle w1 w2 -> same_cycle w2 w3 -> same_cycle w1 w3.
Proof.
  unfold same_cycle. intros (A1 & A2 & A3 & A4 & A5 & A6) (B1 & B2 & B3 & B4 & B5 & B6).
  repeat split; congruence.
Qed.

Lemma settleAll_same_cycle ok p w : same_cycle w (settleAll ok p w).
Proof. unfold same_cycle. unfold_world. repeat split. Qed.

Lemma run_microtasks_same_cycle w : same_cycle w (run_microtasks w).
Proof.
  unfold run_microtasks.
  assert (G : forall q w0, same_cycle w w0 ->
            same_cycle w (fold_left (fun w m => settleAll (fst m) (snd m) w) q w0)).
  { induction q as [|m q IH]; intros w0 H0; cbn [fold_left]; [exact H0|].
    apply IH. eapply same_cycle_trans; [exact H0|apply settleAll_same_cycle]. }
  apply G. unfold same_cycle. unfold_world. repeat split.
Qed.

Lemma idle_same_cycle w w' : same_cycle w w' -> idle w' = idle w.
Proof. intros (A1 & A2 & _). unfold idle. rewrite A1, A2. reflexivity. Qed.

Section PlainTrace.
Variable options : DebounceOptions.
Variable fn : target.
Hypothesis fn_plain : plain fn.

Lemma run_call fuel now allArgs w w' c :
  debounced options fn (S fuel) VUndefined allArgs now w = Some (w', c) ->
  run_event options fn (S fuel) now (Task [OpCall allArgs]) w = Some (run_microtasks w').
Proof.
  intros H. unfold run_event. cbn [exec_ops exec_op].
  unfold debounced in H. rewrite H. destruct c; reflexivity.
Qed.

Lemma advance_idle fuel t w :
  timerId (vars w) = None -> advance options fn fuel t w = Some w.
Proof. intros H. apply advance_loop_no_timer. exact H. Qed.

Lemma advance_early fuel t w due :
  timerId (vars w) = Some due -> t < due -> advance options fn fuel t w = Some w.
Proof.
  intros H Hlt. unfold advance. destruct fuel; cbn [advance_loop]; rewrite H;
    replace (due <=? t) with false by (symmetry; apply Z.leb_gt; lia); reflexivity.
Qed.

Lemma advance_due fuel t w due :
  timerId (vars w) = Some due -> due <= t ->
  advance options fn (S fuel) t w = Some (run_microtasks (fst (invoke1 fn due w))).
Proof.
  intros H Hle. unfold advance. cbn [advance_loop]. rewrite H.
  replace (due <=? t) with true by (symmetry; apply Z.leb_le; lia).
  unfold fire_timer. rewrite (invoke_plain options fn fn_plain).
  destruct (invoke1 fn due w) as [w1 c1] eqn:E. cbn [drop option_map fst].
  apply advance_loop_no_timer.
  pose proof (invoke1_shape fn due w) as I. cbv zeta in I. rewrite E in I. cbn [fst] in I.
  destruct (run_microtasks_same_cycle w1) as (A1 & _). rewrite A1. tauto.
Qed.

(** With only the leading edge, every call runs the target. *)
Lemma leading_only_run fuel calls :
  leading options = true -> trailing options = false ->
  forall w, idle w = true ->
  exists w',
    run options fn (S fuel) (single_calls calls) w = Some w'
    /\ idle w' = true
    /\ invocations w' =
         invocations w
         ++ map (fun c => mkInvocation (fst c) VUndefined (call_args (snd c))) calls.
Proof.
  intros Hl Ht. induction calls as [|[t a] calls IH]; intros w Hi.
  - exists w. cbn. rewrite app_nil_r. auto.
  - cbn [single_calls map run fst snd].
    assert (Hti : timerId (vars w) = None).
    { unfold idle in Hi. apply andb_prop in Hi. destruct Hi as [_ Hi].
      destruct (timerId (vars w)); [discriminate|reflexivity]. }
    rewrite (advance_idle (S fuel) t w Hti).
    destruct (debounced_paths options fn fn_plain fuel VUndefined a t w)
      as (w1 & c & Hd & Hp).
    rewrite (run_call fuel t a w w1 c Hd). cbv zeta in Hp. rewrite Hi, Hl, Ht in Hp.
    cbn [andb] in Hp.
    destruct Hp as [(L & _)|[(L & _)|[(L & _)|[(_ & _ & E)|[(_ & T & _)|(_ & T & _)]]]]];
      try discriminate.
    pose proof (staged_frame options VUndefined a t w) as S1. cbv zeta in S1.
    destruct S1 as (_ & S2 & S3 & _ & _ & S6 & _).
    pose proof (invoke1_shape fn t (staged options VUndefined a t w)) as I.
    cbv zeta in I. rewrite <- E, S2, S3, S6 in I.
    destruct I as (I1 & I2 & _ & _ & _ & I6 & _).
    pose proof (run_microtasks_same_cycle w1) as R.
    assert (Hi1 : idle (run_microtasks w1) = true).
    { rewrite (idle_same_cycle _ _ R). unfold idle. rewrite I1, I2. reflexivity. }
    destruct (IH (run_microtasks w1) Hi1) as (w' & Hr & Hi' & Hinv).
    exists w'. split; [exact Hr|]. split; [exact Hi'|].
    rewrite Hinv. destruct R as (_ & _ & _ & _ & _ & R6). rewrite R6, I6, <- app_assoc.
    reflexivity.
Qed.
End PlainTrace.

(** C9 (the code at the failing input).  With [leading = true] and
    [trailing = false] and [wait = 100], a second call 10 ms after the
    first runs the target again: the leading run has cleared the staged
    arguments and no timer is armed, so the second call finds no cycle open.
    [lastInvokeTime], which [invoke] records, is read nowhere.  With both
    edges enabled the same second call is held back until the timer
    fires. *)
Theorem C9_leading_only_runs_every_call :
  option_map (@invocations)
    (run_until (mkOptions 100 (Some true) (Some false) None None None) echo 1
       [(0, Task [OpCall [VStr "a"]]); (10, Task [OpCall [VStr "b"]])] 100
       createDebouncedFunction)
  = Some [mkInvocation 0 VUndefined [VStr "a"]; mkInvocation 10 VUndefined [VStr "b"]]
  /\ option_map (@invocations)
       (run_until (mkOptions 100 (Some true) (Some true) None None None) echo 1
          [(0, Task [OpCall [VStr "a"]]); (10, Task [OpCall [VStr "b"]])] 100
          createDebouncedFunction)
     = Some [mkInvocation 0 VUndefined [VStr "a"]].
Proof. split; vm_compute; reflexivity. Qed.

(* ------------------------------------------------------------------------- *)
(** ** Bursts under [extend] *)

Lemma last_cons {A} (x d : A) (l : list A) : last (x :: l) d = last l x.
Proof.
  revert x d. induction l as [|y l IH]; intros x d; [reflexivity|].
  change (last (x :: y :: l) d) with (last (y :: l) d).
  rewrite (IH y d), (IH y x). reflexivity.
Qed.

Section PlainBurst.
Variable options : DebounceOptions.
Variable fn : target.
Hypothesis fn_plain : plain fn.

Lemma wait_nonneg : 0 <= wait options.
Proof. unfold wait. lia. Qed.

(** Within the timer range the host waits as long as it is asked to. *)
Lemma setTimeout_in_range d now :
  0 < d -> d <= TIMEOUT_MAX -> setTimeout d now = now + d.
Proof.
  intros H1 H2. unfold setTimeout, hostDelay.
  replace (1 <=? d) with true by (symmetry; apply Z.leb_le; lia).
  replace (d <=? TIMEOUT_MAX) with true by (symmetry; apply Z.leb_le; lia).
  reflexivity.
Qed.

(** In any case it waits at least 1 ms and no longer than asked. *)
Lemma setTimeout_bounds d now :
  0 < d -> now < setTimeout d now <= now + d.
Proof.
  intros H1. unfold setTimeout, hostDelay.
  destruct ((1 <=? d) && (d <=? TIMEOUT_MAX)); lia.
Qed.

(** A call on the trailing path that arms the timer. *)
Lemma call_arms_host fuel t a w :
  idle w && leading options = false -> trailing options = true ->
  0 < delay options t (staged options VUndefined a t w) ->
  exists w',
    run_event options fn (S fuel) t (Task [OpCall a]) w = Some w'
    /\ timerId (vars w')
       = Some (setTimeout (delay options t (staged options VUndefined a t w)) t)
    /\ pendingArgs (vars w') = Some (call_args a)
    /\ pendingThis (vars w') = VUndefined
    /\ firstCallTime (vars w') = firstCallTime (vars (staged options VUndefined a t w))
    /\ fixedDeadline (vars w') = fixedDeadline (vars (staged options VUndefined a t w))
    /\ invocations w' = invocations w.
Proof.
  intros Hl Ht Hd.
  destruct (debounced_paths options fn fn_plain fuel VUndefined a t w)
    as (w1 & c & Hdeb & Hp).
  rewrite (run_call options fn fuel t a w w1 c Hdeb). cbv zeta in Hp.
  rewrite Hl, Ht in Hp.
  destruct Hp as [(_ & T & _)|[(_ & _ & _ & E)|[(_ & _ & D & _)|[(L & _)|[(L & _)|(L & _)]]]]];
    try discriminate; try lia.
  eexists. split; [reflexivity|].
  pose proof (staged_frame options VUndefined a t w) as S1. cbv zeta in S1.
  destruct S1 as (_ & S2 & S3 & _ & _ & S6 & _).
  destruct (run_microtasks_same_cycle w1) as (R1 & R2 & R3 & R4 & R5 & R6).
  rewrite R1, R2, R3, R4, R5, R6. subst w1. unfold_world. repeat split; assumption.
Qed.

(** The same, for a delay the host's timers hold. *)
Lemma call_arms fuel t a w :
  idle w && leading options = false -> trailing options = true ->
  0 < delay options t (staged options VUndefined a t w) <= TIMEOUT_MAX ->
  exists w',
    run_event options fn (S fuel) t (Task [OpCall a]) w = Some w'
    /\ timerId (vars w') = Some (t + delay options t (staged options VUndefined a t w))
    /\ pendingArgs (vars w') = Some (call_args a)
    /\ pendingThis (vars w') = VUndefined
    /\ firstCallTime (vars w') = firstCallTime (vars (staged options VUndefined a t w))
    /\ fixedDeadline (vars w') = fixedDeadline (vars (staged options VUndefined a t w))
    /\ invocations w' = invocations w.
Proof.
  intros Hl Ht [Hd Hfit].
  destruct (call_arms_host fuel t a w Hl Ht Hd) as (w' & Hr & A1 & A).
  exists w'. split; [exact Hr|]. split; [|exact A].
  rewrite A1, (setTimeout_in_range _ t Hd Hfit). reflexivity.
Qed.

(** A call on the trailing path whose delay is already used up. *)
Lemma call_invokes fuel t a w :
  idle w && leading options = false -> trailing options = true ->
  delay options t (staged options VUndefined a t w) <= 0 ->
  exists w',
    run_event options fn (S fuel) t (Task [OpCall a]) w = Some w'
    /\ timerId (vars w') = None
    /\ pendingArgs (vars w') = None
    /\ invocations w' = invocations w ++ [mkInvocation t VUndefined (call_args a)].
Proof.
  intros Hl Ht Hd.
  destruct (debounced_paths options fn fn_plain fuel VUndefined a t w)
    as (w1 & c & Hdeb & Hp).
  rewrite (run_call options fn fuel t a w w1 c Hdeb). cbv zeta in Hp.
  rewrite Hl, Ht in Hp.
  destruct Hp as [(_ & T & _)|[(_ & _ & D & _)|[(_ & _ & _ & E)|[(L & _)|[(L & _)|(L & _)]]]]];
    try discriminate; try lia.
  eexists. split; [reflexivity|].
  pose proof (staged_frame options VUndefined a t w) as S1. cbv zeta in S1.
  destruct S1 as (_ & S2 & S3 & _ & _ & S6 & _).
  pose proof (invoke1_shape fn t (staged options VUndefined a t w)) as I.
  cbv zeta in I. rewrite <- E, S2, S3, S6 in I.
  destruct I as (I1 & I2 & _ & _ & _ & I6 & _).
  destruct (run_microtasks_same_cycle w1) as (R1 & R2 & R3 & R4 & R5 & R6).
  rewrite R1, R2, R6. auto.
Qed.

(** The timer callback at its due time. *)
Lemma timer_fires fuel T w due a this :
  timerId (vars w) = Some due -> due <= T ->
  pendingArgs (vars w) = Some a -> pendingThis (vars w) = this ->
  exists w',
    advance options fn (S fuel) T w = Some w'
    /\ timerId (vars w') = None
    /\ pendingArgs (vars w') = None
    /\ invocations w' = invocations w ++ [mkInvocation due this a].
Proof.
  intros Hti Hle Ha Hth. rewrite (advance_due options fn fn_plain fuel T w due Hti Hle).
  eexists. split; [reflexivity|].
  pose proof (invoke1_shape fn due w) as I. cbv zeta in I. rewrite Ha, Hth in I.
  destruct I as (I1 & I2 & _ & _ & _ & I6 & _).
  destruct (run_microtasks_same_cycle (fst (invoke1 fn due w))) as (R1 & R2 & _ & _ & _ & R6).
  rewrite R1, R2, R6. auto.
Qed.

Section Extend.
Hypothesis Hstrategy : strategy options = Extend.
Hypothesis Hleading : leading options = false.
Hypothesis Htrailing : trailing options = true.
Hypothesis HnoMax : maxWait options = Infinity.
Hypothesis Hrange : wait options <= TIMEOUT_MAX.

Lemma delay_extend t w : delay options t w = wait options.
Proof. unfold delay. rewrite Hstrategy, HnoMax. reflexivity. Qed.

Lemma extend_call fuel inv t a w :
  0 < wait options ->
  (timerId (vars w) = None \/ exists due, timerId (vars w) = Some due /\ t < due) ->
  invocations w = inv ->
  exists w',
    run options fn (S fuel) [(t, Task [OpCall a])] w = Some w' /\ armed options inv t a w'.
Proof.
  intros Hw Hti Hinv. cbn [run].
  assert (Ha : advance options fn (S fuel) t w = Some w).
  { destruct Hti as [Hn|(due & Hs & Hlt)];
      [apply advance_idle; exact Hn|eapply advance_early; eauto]. }
  rewrite Ha.
  destruct (call_arms fuel t a w) as (w' & Hr & A1 & A2 & A3 & _ & _ & A6).
  - rewrite Hleading. apply andb_false_r.
  - exact Htrailing.
  - rewrite delay_extend. split; [exact Hw|exact Hrange].
  - rewrite Hr. exists w'. split; [reflexivity|].
    rewrite delay_extend in A1. unfold armed. repeat split; congruence.
Qed.

Lemma extend_burst fuel inv rest :
  0 < wait options ->
  forall t a w,
    armed options inv t a w -> spaced (wait options) t rest ->
    exists w',
      run options fn (S fuel) (single_calls rest) w = Some w'
      /\ armed options inv (fst (last rest (t, a))) (snd (last rest (t, a))) w'.
Proof.
  intros Hw. induction rest as [|[t1 a1] rest IH]; intros t a w Hq Hs.
  - exists w. split; [reflexivity|exact Hq].
  - cbn [spaced fst] in Hs. destruct Hs as [Ht1 Hs].
    destruct Hq as (Q1 & Q2 & Q3 & Q4).
    destruct (extend_call fuel inv t1 a1 w Hw) as (w1 & Hr1 & Hq1).
    + right. exists (t + wait options). split; [exact Q1|lia].
    + exact Q4.
    + destruct (IH t1 a1 w1 Hq1 Hs) as (w' & Hr & Hq').
      exists w'. split.
      * cbn [single_calls map run fst snd] in *.
        destruct (advance options fn (S fuel) t1 w) as [w0|]; [|discriminate].
        destruct (run_event options fn (S fuel) t1 (Task [OpCall a1]) w0) as [w2|];
          [|discriminate].
        injection Hr1 as ->. exact Hr.
      * rewrite last_cons. exact Hq'.
Qed.
End Extend.
End PlainBurst.

Lemma run_cons options fn fuel ev rest w w1 :
  run options fn fuel [ev] w = Some w1 ->
  run options fn fuel (ev :: rest) w = run options fn fuel rest w1.
Proof.
  destruct ev as [t e]. cbn [run]. intros H.
  destruct (advance options fn fuel t w) as [w0|]; [|discriminate].
  destruct (run_event options fn fuel t e w0) as [w2|]; [|discriminate].
  injection H as ->. reflexivity.
Qed.

Lemma idle_initial : idle createDebouncedFunction = true.
Proof. reflexivity. Qed.

(** C1 (amended).  Under [extend] with the trailing edge only, no
    [maxWait] and a [wait] within the host's timer range, for a target that
    does not call back into the wrapper, a burst of calls that follow one
    another less than [wait] apart leads to exactly one invocation: none
    before [wait] ms have passed since the last call, and then one, at that
    time, on the last call's arguments. *)
Theorem C1_extend_burst (options : DebounceOptions) (fn : target) (fuel : nat)
    (first : Z * list value) (rest : list (Z * list value)) (T : Z) :
  plain fn ->
  strategy options = Extend ->
  leading options = false ->
  trailing options = true ->
  maxWait options = Infinity ->
  wait options <= TIMEOUT_MAX ->
  spaced (wait options) (fst first) rest ->
  fst (last rest first) <= T ->
  exists w,
    run_until options fn (S fuel) (single_calls (first :: rest)) T createDebouncedFunction
      = Some w
    /\ invocations w =
         if T <? fst (last rest first) + wait options then []
         else [mkInvocation (fst (last rest first) + wait options) VUndefined
                            (call_args (snd (last rest first)))].
Proof.
  intros Hp Hs Hl Ht Hm Hrg Hsp HT. destruct first as [t0 a0]. cbn [fst] in Hsp.
  unfold run_until. cbn [single_calls map fst snd].
  pose proof (wait_nonneg options) as Hw0.
  destruct (Z.eq_dec (wait options) 0) as [Hz|Hnz].
  - (* a zero wait admits no second call; the only call runs the target at once *)
    destruct rest as [|c r]; [|cbn [spaced] in Hsp; lia].
    cbn [last fst snd] in *. cbn [run].
    rewrite (advance_idle options fn (S fuel) t0 createDebouncedFunction eq_refl).
    destruct (call_invokes options fn Hp fuel t0 a0 createDebouncedFunction)
      as (w1 & Hr & A1 & A2 & A3).
    + rewrite Hl. reflexivity.
    + exact Ht.
    + rewrite (delay_extend options Hs Hm). lia.
    + rewrite Hr. cbn [run map]. rewrite (advance_idle options fn (S fuel) T w1 A1). exists w1.
      split; [reflexivity|]. rewrite A3, Hz, Z.add_0_r.
      replace (T <? t0) with false by (symmetry; apply Z.ltb_ge; lia). reflexivity.
  - assert (Hw : 0 < wait options) by lia.
    destruct (extend_call options fn Hp Hs Hl Ht Hm Hrg fuel [] t0 a0 createDebouncedFunction Hw)
      as (w1 & Hr1 & Hq1); [left; reflexivity|reflexivity|].
    rewrite (run_cons options fn (S fuel) _ _ createDebouncedFunction w1 Hr1).
    destruct (extend_burst options fn Hp Hs Hl Ht Hm Hrg fuel [] rest Hw t0 a0 w1 Hq1 Hsp)
      as (w2 & Hr2 & Q1 & Q2 & Q3 & Q4).
    fold (single_calls rest). rewrite Hr2.
    destruct (T <? fst (last rest (t0, a0)) + wait options) eqn:E.
    + apply Z.ltb_lt in E. exists w2. split; [|exact Q4].
      eapply advance_early; eauto.
    + apply Z.ltb_ge in E.
      destruct (timer_fires options fn Hp fuel T w2 _ _ VUndefined Q1 E Q2 Q3)
        as (w3 & Ha & _ & _ & Hinv).
      exists w3. split; [exact Ha|]. rewrite Hinv, Q4. reflexivity.
Qed.

Lemma C1_witness :
  exists w,
    run_until (debounceExtend 50 noOptions) echo 1
      (single_calls [(0, [VStr "a"]); (20, [VStr "b"]); (60, [VStr "c"])]) 500
      createDebouncedFunction = Some w
    /\ invocations w = [mkInvocation 110 VUndefined [VStr "c"]].
Proof.
  apply (C1_extend_burst (debounceExtend 50 noOptions) echo 0
           (0, [VStr "a"]) [(20, [VStr "b"]); (60, [VStr "c"])] 500).
  - intros ctx args. reflexivity.
  - reflexivity.
  - reflexivity.
  - reflexivity.
  - reflexivity.
  - timer_range.
  - cbn. lia.
  - cbn. lia.
Defined.

(** C1 as stated fails for a [wait] the host's timers do not hold: with
    [wait] = 2^31 ms the host waits 1 ms only, so two calls 500 ms apart,
    far less than [wait], are each served on their own, 1 ms after the
    call. *)
Lemma C1_counterexample :
  exists w,
    run_until (debounceExtend 2147483648 noOptions) echo 1
      (single_calls [(0, [VStr "a"]); (500, [VStr "b"])]) 1000
      createDebouncedFunction = Some w
    /\ invocations w =
         [mkInvocation 1 VUndefined [VStr "a"]; mkInvocation 501 VUndefined [VStr "b"]].
Proof. eexists. split; [vm_compute; reflexivity|reflexivity]. Qed.

(* ------------------------------------------------------------------------- *)
(** ** Bursts under [fixedDeadline] *)

Section PlainFixed.
Variable options : DebounceOptions.
Variable fn : target.
Hypothesis fn_plain : plain fn.

Lemma debounced_fixedDeadline fuel this allArgs now w :
  exists w' c,
    debounced options fn (S fuel) this allArgs now w = Some (w', c)
    /\ fixedDeadline (vars w') = fixedDeadline (vars (staged options this allArgs now w))
    /\ firstCallTime (vars w') = firstCallTime (vars (staged options this allArgs now w)).
Proof.
  destruct (debounced_paths options fn fn_plain fuel this allArgs now w)
    as (w' & c & Hd & Hp).
  exists w', c. split; [exact Hd|]. cbv zeta in Hp.
  set (w1 := staged options this allArgs now w) in *. clearbody w1.
  pose proof (invoke1_shape fn now w1) as I. cbv zeta in I.
  pose proof (invoke1_shape fn now (fst (invoke1 fn now w1))) as J. cbv zeta in J.
  destruct I as (_ & _ & _ & I4 & I5 & _). destruct J as (_ & _ & _ & J4 & J5 & _).
  destruct Hp as [(L & T & E)|[(L & T & D & E)|[(L & T & D & E)|[(L & T & E)|
                 [(L & T & D & E)|(L & T & D & E)]]]]]; subst w'; unfold_world;
    split; congruence.
Qed.

Section Fixed.
Hypothesis Hstrategy : strategy options = FixedDeadline.
Hypothesis Hleading : leading options = false.
Hypothesis Htrailing : trailing options = true.
Hypothesis HnoMax : maxWait options = Infinity.

Lemma delay_fixed t w : delay options t w = Z.max 0 (fixedDeadline (vars w) - t).
Proof. unfold delay. rewrite Hstrategy, HnoMax. reflexivity. Qed.

Lemma fixed_first_call fuel inv t a w :
  0 < wait options <= TIMEOUT_MAX -> idle w = true -> invocations w = inv ->
  exists w',
    run options fn (S fuel) [(t, Task [OpCall a])] w = Some w'
    /\ armedFixed inv (t + wait options) a w'.
Proof.
  intros Hw Hi Hinv. cbn [run].
  assert (Hti : timerId (vars w) = None).
  { unfold idle in Hi. apply andb_prop in Hi. destruct Hi as [_ Hi].
    destruct (timerId (vars w)); [discriminate|reflexivity]. }
  rewrite (advance_idle options fn (S fuel) t w Hti).
  pose proof (staged_frame options VUndefined a t w) as S1. cbv zeta in S1.
  rewrite Hi, Hstrategy in S1. destruct S1 as (_ & _ & _ & _ & S5 & _).
  destruct (call_arms options fn fn_plain fuel t a w) as (w' & Hr & A1 & A2 & A3 & _ & A5 & A6).
  - rewrite Hleading. apply andb_false_r.
  - exact Htrailing.
  - rewrite delay_fixed, S5. lia.
  - rewrite Hr. exists w'. split; [reflexivity|].
    rewrite delay_fixed, S5 in A1. rewrite S5 in A5.
    unfold armedFixed. repeat split; try congruence.
    rewrite A1. f_equal. lia.
Qed.

Lemma fixed_later_call fuel inv D t a0 a w :
  armedFixed inv D a0 w -> t < D -> D - t <= TIMEOUT_MAX ->
  exists w',
    run options fn (S fuel) [(t, Task [OpCall a])] w = Some w'
    /\ armedFixed inv D a w'.
Proof.
  intros (Q1 & Q2 & Q3 & Q4 & Q5) Hlt Hfit. cbn [run].
  rewrite (advance_early options fn (S fuel) t w D Q1 Hlt).
  assert (Hi : idle w = false).
  { unfold idle. rewrite Q1. apply andb_false_r. }
  pose proof (staged_frame options VUndefined a t w) as S1. cbv zeta in S1.
  rewrite Hi in S1. destruct S1 as (_ & _ & _ & _ & S5 & _).
  destruct (call_arms options fn fn_plain fuel t a w) as (w' & Hr & A1 & A2 & A3 & _ & A5 & A6).
  - rewrite Hi. reflexivity.
  - exact Htrailing.
  - rewrite delay_fixed, S5. lia.
  - rewrite Hr. exists w'. split; [reflexivity|].
    rewrite delay_fixed, S5 in A1. rewrite S5 in A5.
    unfold armedFixed. repeat split; try congruence.
    rewrite A1. f_equal. lia.
Qed.

Lemma fixed_burst fuel inv D rest :
  forall t a w,
    armedFixed inv D a w -> within D t rest -> D - t <= TIMEOUT_MAX ->
    exists w',
      run options fn (S fuel) (single_calls rest) w = Some w'
      /\ armedFixed inv D (snd (last rest (t, a))) w'.
Proof.
  induction rest as [|[t1 a1] rest IH]; intros t a w Hq Hs Hfit.
  - exists w. split; [reflexivity|exact Hq].
  - cbn [within fst] in Hs. destruct Hs as [Ht1 Hs].
    destruct (fixed_later_call fuel inv D t1 a a1 w Hq) as (w1 & Hr1 & Hq1); [lia|lia|].
    destruct (IH t1 a1 w1 Hq1 Hs) as (w' & Hr & Hq'); [lia|].
    exists w'. split.
    + cbn [single_calls map fst snd].
      rewrite (run_cons options fn (S fuel) _ _ w w1 Hr1). exact Hr.
    + rewrite last_cons. exact Hq'.
Qed.
End Fixed.
End PlainFixed.

(** C2.  Under [fixedDeadline] a call writes the deadline, as its time plus
    [wait], exactly when it opens a cycle; no later call of the cycle, no
    target run and no [cancel()] changes it.  So, for a [wait] within the
    host's timer range, a burst whose calls all come before the deadline is
    served once, at the deadline, on the last call's arguments: with
    [wait = 80], calls at 0 and 40 give one invocation at 80. *)
Theorem C2_fixed_deadline (options : DebounceOptions) (fn : target) (fuel : nat) :
  plain fn ->
  strategy options = FixedDeadline ->
  (* the deadline is written by the first call of a cycle and by nothing else *)
  (forall this allArgs now w,
      exists w' c,
        debounced options fn (S fuel) this allArgs now w = Some (w', c)
        /\ fixedDeadline (vars w') =
             if idle w then now + wait options else fixedDeadline (vars w))
  /\ (forall now w,
        exists w' c,
          invoke options fn (S fuel) now w = Some (w', c)
          /\ fixedDeadline (vars w') = fixedDeadline (vars w))
  /\ (forall w, fixedDeadline (vars (cancel w)) = fixedDeadline (vars w))
  (* so a burst that stays before the deadline is served at the deadline *)
  /\ (leading options = false -> trailing options = true -> maxWait options = Infinity ->
      wait options <= TIMEOUT_MAX ->
      forall (first : Z * list value) (rest : list (Z * list value)) (T : Z),
        within (fst first + wait options) (fst first) rest ->
        fst (last rest first) <= T ->
        exists w,
          run_until options fn (S fuel) (single_calls (first :: rest)) T
            createDebouncedFunction = Some w
          /\ invocations w =
               if T <? fst first + wait options then []
               else [mkInvocation (fst first + wait options) VUndefined
                                  (call_args (snd (last rest first)))]).
Proof.
  intros Hp Hs. split; [|split; [|split]].
  - intros this allArgs now w.
    destruct (debounced_fixedDeadline options fn Hp fuel this allArgs now w)
      as (w' & c & Hd & Hf & _).
    exists w', c. split; [exact Hd|]. rewrite Hf.
    pose proof (staged_frame options this allArgs now w) as S1. cbv zeta in S1.
    rewrite Hs in S1. tauto.
  - intros now w. rewrite (invoke_plain options fn Hp).
    pose proof (invoke1_shape fn now w) as I. cbv zeta in I.
    destruct (invoke1 fn now w) as [w' c]. exists w', c. split; [reflexivity|]. tauto.
  - intros w. unfold cancel. unfold_world.
    destruct (pendingRejects (vars w)); reflexivity.
  - intros Hl Ht Hm Hrg [t0 a0] rest T Hw HT. cbn [fst] in Hw.
    unfold run_until. cbn [single_calls map fst snd].
    pose proof (wait_nonneg options) as Hw0.
    destruct (Z.eq_dec (wait options) 0) as [Hz|Hnz].
    + destruct rest as [|c r]; [|cbn [within] in Hw; lia].
      cbn [last fst snd] in *. cbn [run].
      rewrite (advance_idle options fn (S fuel) t0 createDebouncedFunction eq_refl).
      destruct (call_invokes options fn Hp fuel t0 a0 createDebouncedFunction)
        as (w1 & Hr & A1 & A2 & A3).
      * rewrite Hl. reflexivity.
      * exact Ht.
      * rewrite (delay_fixed options Hs Hm).
        pose proof (staged_frame options VUndefined a0 t0 createDebouncedFunction) as S1.
        cbv zeta in S1. rewrite idle_initial, Hs in S1.
        destruct S1 as (_ & _ & _ & _ & S5 & _). rewrite S5. lia.
      * rewrite Hr. cbn [run map]. rewrite (advance_idle options fn (S fuel) T w1 A1).
        exists w1. split; [reflexivity|]. rewrite A3, Hz, Z.add_0_r.
        replace (T <? t0) with false by (symmetry; apply Z.ltb_ge; lia). reflexivity.
    + assert (Hwp : 0 < wait options) by lia.
      destruct (fixed_first_call options fn Hp Hs Hl Ht Hm fuel [] t0 a0
                  createDebouncedFunction (conj Hwp Hrg) idle_initial eq_refl)
        as (w1 & Hr1 & Hq1).
      rewrite (run_cons options fn (S fuel) _ _ createDebouncedFunction w1 Hr1).
      destruct (fixed_burst options fn Hp Hs Ht Hm fuel [] (t0 + wait options) rest
                  t0 a0 w1 Hq1 Hw ltac:(lia)) as (w2 & Hr2 & Q1 & Q2 & Q3 & Q4 & Q5).
      fold (single_calls rest). rewrite Hr2.
      destruct (T <? t0 + wait options) eqn:E.
      * apply Z.ltb_lt in E. exists w2. split; [|exact Q5].
        eapply advance_early; eauto.
      * apply Z.ltb_ge in E.
        destruct (timer_fires options fn Hp fuel T w2 _ _ VUndefined Q1 E Q3 Q4)
          as (w3 & Ha & _ & _ & Hinv).
        exists w3. split; [exact Ha|]. rewrite Hinv, Q5. reflexivity.
Qed.

Lemma C2_witness :
  (exists w' c,
     debounced (debounceFixedDeadline 80 noOptions) echo 1 VUndefined [VStr "1"] 0
       createDebouncedFunction = Some (w', c)
     /\ fixedDeadline (vars w') = 80)
  /\ (exists w,
        run_until (debounceFixedDeadline 80 noOptions) echo 1
          (single_calls [(0, [VStr "1"]); (40, [VStr "2"])]) 80 createDebouncedFunction = Some w
        /\ invocations w = [mkInvocation 80 VUndefined [VStr "2"]]).
Proof.
  destruct (C2_fixed_deadline (debounceFixedDeadline 80 noOptions) echo 0
              (fun _ _ => eq_refl) eq_refl) as (H1 & _ & _ & H4).
  split.
  - exact (H1 VUndefined [VStr "1"] 0 createDebouncedFunction).
  - assert (R : wait (debounceFixedDeadline 80 noOptions) <= TIMEOUT_MAX)
      by (vm_compute; discriminate).
    apply (H4 eq_refl eq_refl eq_refl R (0, [VStr "1"]) [(40, [VStr "2"])] 80).
    + cbn. lia.
    + cbn. lia.
Defined.

(* ------------------------------------------------------------------------- *)
(** ** The [maxWait] ceiling *)


Section PlainCeiling.
Variable options : DebounceOptions.
Variable fn : target.
Hypothesis fn_plain : plain fn.



Lemma advance_total fuel t w :
  exists w' more,
    advance options fn (S fuel) t w = Some w'
    /\ invocations w' = invocations w ++ more.
Proof.
  destruct (timerId (vars w)) as [due|] eqn:E.
  - destruct (Z_lt_le_dec t due) as [Hlt|Hle].
    + exists w, []. rewrite app_nil_r. split; [|reflexivity].
      eapply advance_early; eauto.
    + rewrite (advance_due options fn fn_plain fuel t w due E Hle).
      do 2 eexists. split; [reflexivity|].
      destruct (run_microtasks_same_cycle (fst (invoke1 fn due w))) as (_ & _ & _ & _ & _ & R6).
      rewrite R6. pose proof (invoke1_shape fn due w) as I. cbv zeta in I.
      destruct I as (_ & _ & _ & _ & _ & I6 & _). exact I6.
  - exists w, []. rewrite app_nil_r. split; [|reflexivity].
    apply advance_idle. exact E.
Qed.



Section MaxWait.
Variable m : Z.
Hypothesis Hmax : maxWait options = Fin m.
Hypothesis Htrailing : trailing options = true.



End MaxWait.
End PlainCeiling.

(** A cycle under the ceiling, call by call. *)
Section PlainCapped.
Variable options : DebounceOptions.
Variable fn : target.
Variable m : Z.
Hypothesis fn_plain : plain fn.
Hypothesis Htrailing : trailing options = true.
Hypothesis Hmax : maxWait options = Fin m.
Hypothesis Hwait : 0 < wait options.
Hypothesis Hfit : Z.min (wait options) m <= TIMEOUT_MAX.

Lemma delay_dueTime t0 t w :
  firstCallTime (vars w) = t0 ->
  fixedDeadline (vars w) =
       match strategy options with
       | Extend => fixedDeadline (vars w)
       | FixedDeadline => t0 + wait options
       end ->
  t0 <= t < dueTime options t0 m t ->
  0 < delay options t w <= TIMEOUT_MAX
  /\ t + delay options t w = dueTime options t0 m t.
Proof.
  intros H1 H2 Ht. unfold delay, dueTime in *. rewrite Hmax, H1. cbn [min_delay].
  destruct (strategy options); [lia|]. rewrite H2. lia.
Qed.

Lemma capped_call fuel inv t0 t a w :
  idle w && leading options = false ->
  firstCallTime (vars (staged options VUndefined a t w)) = t0 ->
  fixedDeadline (vars (staged options VUndefined a t w)) =
       match strategy options with
       | Extend => fixedDeadline (vars (staged options VUndefined a t w))
       | FixedDeadline => t0 + wait options
       end ->
  t0 <= t < dueTime options t0 m t ->
  invocations w = inv ->
  exists w',
    run_event options fn (S fuel) t (Task [OpCall a]) w = Some w'
    /\ armedCapped options inv t0 m t a w'.
Proof.
  intros Hl H1 H2 Ht Hinv.
  destruct (delay_dueTime t0 t _ H1 H2 Ht) as [Dp De].
  destruct (call_arms options fn fn_plain fuel t a w Hl Htrailing Dp)
    as (w' & Hr & A1 & A2 & A3 & A4 & A5 & A6).
  exists w'. split; [exact Hr|].
  unfold armedCapped. rewrite A1, A2, A3, A4, A5, A6, De.
  repeat split; auto.
Qed.

Lemma capped_burst fuel inv t0 rest :
  forall t a w,
    armedCapped options inv t0 m t a w -> t0 <= t ->
    beforeDue options t0 m t rest ->
    exists w',
      run options fn (S fuel) (single_calls rest) w = Some w'
      /\ armedCapped options inv t0 m (fst (last rest (t, a))) (snd (last rest (t, a))) w'.
Proof.
  induction rest as [|[t1 a1] rest IH]; intros t a w Hq Ht0 Hs.
  - exists w. split; [reflexivity|exact Hq].
  - cbn [beforeDue fst] in Hs. destruct Hs as [Ht1 Hs].
    destruct Hq as (Q1 & Q2 & Q3 & Q4 & Q5 & Q6).
    assert (Hi : idle w = false).
    { unfold idle. rewrite Q3. apply andb_false_r. }
    pose proof (staged_frame options VUndefined a1 t1 w) as S1. cbv zeta in S1.
    rewrite Hi in S1. destruct S1 as (_ & _ & _ & S4 & S5 & _).
    assert (Hd1 : t0 <= t1 < dueTime options t0 m t1).
    { unfold dueTime in *. destruct (strategy options); lia. }
    destruct (capped_call fuel inv t0 t1 a1 w) as (w1 & Hr1 & Hq1).
    + rewrite Hi. reflexivity.
    + congruence.
    + rewrite S5. destruct (strategy options); [reflexivity|exact Q2].
    + exact Hd1.
    + exact Q6.
    + destruct (IH t1 a1 w1 Hq1 ltac:(lia) Hs) as (w' & Hr & Hq').
      exists w'. split.
      * cbn [single_calls map run fst snd].
        rewrite (advance_early options fn (S fuel) t1 w _ Q3) by lia.
        rewrite Hr1. exact Hr.
      * rewrite last_cons. exact Hq'.
Qed.
End PlainCapped.




Example stream_invocations :
  option_map (@invocations)
    (run_until streamOptions echo 1 (single_calls ((0, [VNum 0]) :: stream)) 2400
       createDebouncedFunction)
  = Some [mkInvocation 2000 VUndefined [VNum 19]].
Proof. vm_compute. reflexivity. Qed.

(* ------------------------------------------------------------------------- *)
(** ** Re-entrancy, and the books of the waiters *)

(** C4 (the code at the failing input).  The waiter lists are emptied only
    when the outcome is delivered, not before the target is called: a call
    the target makes while it runs on ["a"] joins the same lists, and its
    promise (waiter 1) is resolved with the result for ["a"]; the later run
    on ["b"] settles nobody. *)
Theorem C4_reentrant_waiter_gets_outer_outcome :
  exists w,
    run_until (debounceExtend 100 noOptions) reenter 2 [(0, Task [OpCall [VStr "a"]])] 1000
      createDebouncedFunction = Some w
    /\ invocations w = [mkInvocation 100 VUndefined [VStr "a"];
                        mkInvocation 200 VUndefined [VStr "b"]]
    /\ settlements w = [mkSettlement 0%nat true (PValue (VStr "result of a"));
                        mkSettlement 1%nat true (PValue (VStr "result of a"))].
Proof. eexists. split; [vm_compute; reflexivity|]. split; reflexivity. Qed.

Lemma times_settled_log p l w :
  times_settled p (log_settlements l w) = (times_settled p w + count_for p l)%nat.
Proof.
  unfold times_settled, count_for. unfold_world. rewrite filter_app, length_app. reflexivity.
Qed.

Lemma waiting_In p l : waiting p l = true <-> In p l.
Proof.
  unfold waiting. rewrite existsb_exists. split.
  - intros (x & Hx & E). apply Nat.eqb_eq in E. subst. exact Hx.
  - intros H. exists p. split; [exact H|apply Nat.eqb_refl].
Qed.

Lemma waiting_false p l : ~ In p l -> waiting p l = false.
Proof.
  intros H. destruct (waiting p l) eqn:E; [|reflexivity].
  apply waiting_In in E. contradiction.
Qed.

Lemma count_for_map ok pl p l :
  NoDup l ->
  count_for p (map (fun k => mkSettlement k ok pl) l) = if waiting p l then 1%nat else 0%nat.
Proof.
  induction 1 as [|k l Hk Hnd IH]; [reflexivity|].
  unfold count_for in *. cbn [map filter s_waiter waiting existsb].
  rewrite (Nat.eqb_sym p k). destruct (Nat.eqb k p) eqn:E.
  - apply Nat.eqb_eq in E. subst k. cbn [List.length orb]. rewrite IH.
    fold (waiting p l). rewrite (waiting_false p l Hk). reflexivity.
  - cbn [orb]. exact IH.
Qed.

Lemma accounted_le1 w p : accounted w -> (times_settled p w <= 1)%nat.
Proof. intros (_ & _ & _ & H). rewrite H. destruct (_ && _); lia. Qed.

Lemma times_settled_settleAll ok pl p w :
  times_settled p (settleAll ok pl w) =
    (times_settled p w
     + count_for p (map (fun k => mkSettlement k ok pl)
                        (if ok then pendingResolves (vars w) else pendingRejects (vars w))))%nat.
Proof.
  unfold times_settled, count_for, settleAll. unfold_world.
  rewrite filter_app, length_app. reflexivity.
Qed.

(** Settling everything keeps the books and empties the lists. *)
Lemma settleAll_accounted ok pl w :
  accounted w ->
  accounted (settleAll ok pl w) /\ pendingResolves (vars (settleAll ok pl w)) = [].
Proof.
  intros (A1 & A2 & A3 & A4). split; [|reflexivity].
  unfold accounted. repeat split.
  - constructor.
  - intros p [].
  - intros p. rewrite times_settled_settleAll, A1.
    replace (if ok then _ else _) with (pendingResolves (vars w))
      by (destruct ok; reflexivity).
    rewrite (count_for_map ok pl p _ A2), A4.
    change (nextWaiter (settleAll ok pl w)) with (nextWaiter w).
    change (pendingResolves (vars (settleAll ok pl w))) with (@nil waiter).
    cbn [waiting existsb negb]. rewrite andb_true_r.
    destruct (p <? nextWaiter w)%nat eqn:E; cbn [andb].
    + destruct (waiting p (pendingResolves (vars w))); reflexivity.
    + destruct (waiting p (pendingResolves (vars w))) eqn:Ew; [|reflexivity].
      apply waiting_In in Ew. apply A3 in Ew. apply Nat.ltb_ge in E. lia.
Qed.

Lemma waiting_app p l q : waiting p (l ++ [q]) = waiting p l || Nat.eqb p q.
Proof. unfold waiting. rewrite existsb_app. cbn [existsb]. rewrite orb_false_r. reflexivity. Qed.

(** Books that depend only on these fields carry over. *)
Lemma accounted_frame w w' :
  pendingResolves (vars w') = pendingResolves (vars w) ->
  pendingRejects (vars w') = pendingRejects (vars w) ->
  settlements w' = settlements w ->
  nextWaiter w' = nextWaiter w ->
  accounted w -> accounted w'.
Proof.
  intros E1 E2 E3 E4 (A1 & A2 & A3 & A4). unfold accounted, times_settled in *.
  rewrite E1, E2, E3, E4. auto.
Qed.

(** Staging a call whose signal is absent or an AbortSignal. *)
Lemma staged_accounted options this allArgs now w :
  signal_typed (call_signal options allArgs) = true ->
  accounted w ->
  let w' := staged options this allArgs now w in
  accounted w'
  /\ (pendingResolves (vars w') = pendingResolves (vars w)
      \/ pendingResolves (vars w') = pendingResolves (vars w) ++ [nextWaiter w]).
Proof.
  intros Hty (A1 & A2 & A3 & A4). cbv zeta. unfold staged.
  set (w2 := if _ && _ then _ else _).
  assert (F : pendingResolves (vars w2) = pendingResolves (vars w)
              /\ pendingRejects (vars w2) = pendingRejects (vars w)
              /\ settlements w2 = settlements w /\ nextWaiter w2 = nextWaiter w).
  { unfold w2. destruct (_ && _); [destruct (strategy options)|]; repeat split. }
  destruct F as (F1 & F2 & F3 & F4). rewrite F4.
  set (sig := call_signal options allArgs) in *.
  unfold executor. destruct (signal_aborted w2 sig).
  - (* rejected at once *)
    split; [|left; unfold_world; exact F1].
    unfold accounted. unfold_world. rewrite F1, F2. repeat split; auto.
    + intros p Hp. apply A3 in Hp. lia.
    + intros p.
      change (times_settled p ?x) with
        (times_settled p (log_settlements [mkSettlement (nextWaiter w) false PAbortError] w2)).
      rewrite times_settled_log. unfold times_settled at 1. rewrite F3.
      fold (times_settled p w). rewrite A4. unfold count_for. cbn [filter s_waiter].
      destruct (Nat.eqb (nextWaiter w) p) eqn:E.
      * apply Nat.eqb_eq in E. subst p.
        rewrite (waiting_false (nextWaiter w) (pendingResolves (vars w))).
        2:{ intros Hin. apply A3 in Hin. lia. }
        replace (nextWaiter w <? nextWaiter w)%nat with false
          by (symmetry; apply Nat.ltb_ge; lia).
        replace (nextWaiter w <? S (nextWaiter w))%nat with true
          by (symmetry; apply Nat.ltb_lt; lia).
        reflexivity.
      * apply Nat.eqb_neq in E. cbn [List.length]. rewrite Nat.add_0_r.
        destruct (waiting p (pendingResolves (vars w))) eqn:Ew; cbn [negb];
          rewrite ?andb_false_r, ?andb_true_r; [reflexivity|].
        destruct (p <? nextWaiter w)%nat eqn:E1, (p <? S (nextWaiter w))%nat eqn:E2;
          try reflexivity.
        -- apply Nat.ltb_lt in E1. apply Nat.ltb_ge in E2. lia.
        -- apply Nat.ltb_ge in E1. apply Nat.ltb_lt in E2. lia.
  - (* registered *)
    assert (G : forall x,
              pendingResolves (vars x) = pendingResolves (vars w) ++ [nextWaiter w] ->
              pendingRejects (vars x) = pendingRejects (vars w) ++ [nextWaiter w] ->
              settlements x = settlements w -> nextWaiter x = S (nextWaiter w) ->
              accounted x).
    { intros x X1 X2 X3 X4. unfold accounted, times_settled. rewrite X1, X2, X3, X4, A1.
      repeat split.
      - apply NoDup_app; [exact A2|constructor; [intros []|constructor]|].
        intros p Hp [<-|[]]. apply A3 in Hp. lia.
      - intros p Hp. apply in_app_or in Hp. destruct Hp as [Hp|[<-|[]]]; [apply A3 in Hp|]; lia.
      - intros p. fold (times_settled p w). rewrite A4, waiting_app.
        destruct (Nat.eqb p (nextWaiter w)) eqn:E.
        + apply Nat.eqb_eq in E. subst p. rewrite orb_true_r. cbn [negb].
          rewrite andb_false_r.
          replace (nextWaiter w <? nextWaiter w)%nat with false
            by (symmetry; apply Nat.ltb_ge; lia).
          reflexivity.
        + apply Nat.eqb_neq in E. rewrite orb_false_r.
          destruct (waiting p (pendingResolves (vars w))) eqn:Ew; cbn [negb];
            rewrite ?andb_false_r, ?andb_true_r; [reflexivity|].
          destruct (p <? nextWaiter w)%nat eqn:E1, (p <? S (nextWaiter w))%nat eqn:E2;
            try reflexivity.
          * apply Nat.ltb_lt in E1. apply Nat.ltb_ge in E2. lia.
          * apply Nat.ltb_ge in E1. apply Nat.ltb_lt in E2. lia. }
    destruct sig; try discriminate Hty; cbn [truthy]; unfold_world;
      (split; [apply G; unfold_world; congruence|right; congruence]).
Qed.

Lemma cancel_accounted w :
  accounted w ->
  accounted (cancel w) /\ owed (cancel w) /\ idle (cancel w) = true.
Proof.
  intros A. unfold cancel.
  set (w0 := upd_vars _ (clearTimer w)).
  assert (A0 : accounted w0) by (revert A; apply accounted_frame; reflexivity).
  destruct (pendingRejects (vars w0)) eqn:E.
  - split; [exact A0|]. split; [|reflexivity]. left.
    destruct A0 as (A1 & _). rewrite <- A1. exact E.
  - destruct (settleAll_accounted false PCanceled w0 A0) as [S1 S2].
    split; [exact S1|]. split; [left; exact S2|reflexivity].
Qed.

Lemma indexOf_Some p l :
  forall idx, indexOf p l = Some idx ->
  exists l1 l2, l = l1 ++ p :: l2 /\ splice1 idx l = l1 ++ l2.
Proof.
  induction l as [|y l IH]; intros idx H; [discriminate|].
  cbn [indexOf] in H. destruct (Nat.eqb p y) eqn:E.
  - apply Nat.eqb_eq in E. subst y. injection H as <-. exists [], l. split; reflexivity.
  - destruct (indexOf p l) as [i|]; [|discriminate]. injection H as <-.
    destruct (IH i eq_refl) as (l1 & l2 & H1 & H2).
    exists (y :: l1), l2. cbn [splice1 app]. rewrite H2. split; [congruence|reflexivity].
Qed.

Lemma waiting_mid q l1 p l2 :
  waiting q (l1 ++ p :: l2) = waiting q (l1 ++ l2) || Nat.eqb q p.
Proof.
  unfold waiting. rewrite !existsb_app. cbn [existsb].
  rewrite <- orb_assoc. f_equal. apply orb_comm.
Qed.

(** The abort listener of waiter [p]. *)
Lemma onAbort_tidy p w :
  accounted w ->
  accounted (onAbort p w) /\ idle (onAbort p w) = idle w
  /\ (owed w -> owed (onAbort p w)).
Proof.
  intros A. unfold onAbort.
  set (w1 := match indexOf p (pendingResolves (vars w)) with Some _ => _ | None => w end).
  assert (H1 : accounted w1 /\ same_cycle w w1 /\ (owed w -> owed w1)).
  { unfold w1. destruct (indexOf p (pendingResolves (vars w))) as [idx|] eqn:E.
    2:{ split; [exact A|split; [apply same_cycle_refl|auto]]. }
    destruct A as (A1 & A2 & A3 & A4).
    destruct (indexOf_Some p _ idx E) as (l1 & l2 & L1 & L2).
    split; [|split; [repeat split|]].
    - unfold accounted. unfold_world. rewrite A1, L2.
      rewrite L1 in A2. pose proof (NoDup_remove_1 _ _ _ A2) as N1.
      pose proof (NoDup_remove_2 _ _ _ A2) as N2.
      repeat split; [exact N1| |].
      + intros q Hq. apply A3. rewrite L1. apply in_app_or in Hq. apply in_or_app.
        destruct Hq; [left|right; right]; assumption.
      + intros q.
        change (times_settled q ?x) with
          (times_settled q (log_settlements [mkSettlement p false PAbortError] w)).
        rewrite times_settled_log, A4, L1, waiting_mid. unfold count_for.
        cbn [filter s_waiter]. rewrite (Nat.eqb_sym q p).
        destruct (Nat.eqb p q) eqn:Eq.
        * apply Nat.eqb_eq in Eq. subst q. rewrite orb_true_r. cbn [negb].
          rewrite andb_false_r. cbn [List.length].
          rewrite (waiting_false p (l1 ++ l2) N2). cbn [negb]. rewrite andb_true_r.
          replace (p <? nextWaiter w)%nat with true; [reflexivity|].
          symmetry. apply Nat.ltb_lt. apply A3. rewrite L1. apply in_or_app. right. left.
          reflexivity.
        * rewrite orb_false_r. cbn [List.length]. rewrite Nat.add_0_r. reflexivity.
    - intros [O'|O']; [|right; exact O'].
      rewrite L1 in O'. destruct l1; discriminate. }
  destruct H1 as (B1 & B3 & B2).
  destruct (negb (pending w1)) eqn:Ep.
  - assert (Hti : timerId (vars w1) = None).
    { apply negb_true_iff in Ep. unfold pending in Ep. apply orb_false_elim in Ep.
      destruct (timerId (vars w1)); [destruct Ep; discriminate|reflexivity]. }
    split; [revert B1; apply accounted_frame; reflexivity|].
    split.
    + rewrite <- (idle_same_cycle w w1 B3). unfold idle. unfold_world. rewrite Hti. reflexivity.
    + intros O. destruct (B2 O) as [X|[X|X]]; [left; exact X|contradiction|right; right; exact X].
  - split; [exact B1|]. split; [apply idle_same_cycle; exact B3|exact B2].
Qed.

Lemma abort_tidy s w :
  accounted w ->
  accounted (abort s w) /\ idle (abort s w) = idle w /\ (owed w -> owed (abort s w)).
Proof.
  intros A. unfold abort. destruct (existsb _ _); [auto|].
  set (w0 := set_listeners _ _).
  assert (H0 : accounted w0 /\ idle w0 = idle w /\ (owed w -> owed w0)).
  { split; [revert A; apply accounted_frame; reflexivity|]. split; [reflexivity|auto]. }
  clearbody w0. revert w0 H0.
  match goal with |- context [fold_left _ ?m _] => generalize m end.
  intros mine. induction mine as [|l ls IH]; intros w0 H0; cbn [fold_left]; [exact H0|].
  apply IH. destruct H0 as (H1 & H2 & H3).
  destruct (onAbort_tidy (snd l) w0 H1) as (K1 & K2 & K3).
  split; [exact K1|]. split; [congruence|auto].
Qed.

(** Draining the microtask queue. *)
Lemma run_microtasks_accounted w :
  accounted w -> owed w ->
  let w' := run_microtasks w in
  accounted w' /\ microtasks w' = []
  /\ (pendingResolves (vars w') = [] \/ timerId (vars w') <> None \/ inflight w' <> 0%nat).
Proof.
  intros A O. cbv zeta. unfold run_microtasks.
  set (w0 := set_microtasks [] w).
  assert (A0 : accounted w0) by (revert A; apply accounted_frame; reflexivity).
  assert (G : forall q x, accounted x -> microtasks x = [] ->
              let y := fold_left (fun w m => settleAll (fst m) (snd m) w) q x in
              accounted y /\ microtasks y = []
              /\ timerId (vars y) = timerId (vars x) /\ inflight y = inflight x
              /\ (q <> [] -> pendingResolves (vars y) = [])
              /\ (q = [] -> y = x)).
  { induction q as [|m q IH]; intros x Ax Mx; cbn [fold_left].
    - split; [exact Ax|]. split; [exact Mx|]. split; [reflexivity|]. split; [reflexivity|].
      split; [intros H; contradiction|reflexivity].
    - destruct (settleAll_accounted (fst m) (snd m) x Ax) as [S1 S2].
      destruct (IH (settleAll (fst m) (snd m) x) S1 Mx) as (I1 & I2 & I3 & I4 & I5 & I6).
      split; [exact I1|]. split; [exact I2|]. split; [exact I3|]. split; [exact I4|].
      split; [|discriminate]. intros _. destruct q as [|m' q'].
      + rewrite (I6 eq_refl). exact S2.
      + apply I5. discriminate. }
  destruct (G (microtasks w) w0 A0 eq_refl) as (G1 & G2 & G3 & G4 & G5 & G6).
  split; [exact G1|]. split; [exact G2|].
  destruct (microtasks w) as [|m q] eqn:E.
  - rewrite (G6 eq_refl). destruct O as [X|[X|[X|X]]]; auto; contradiction.
  - left. apply G5. discriminate.
Qed.

(* ------------------------------------------------------------------------- *)
(** ** Every promise is settled *)

(** The books hold whatever the target does, also when it calls back into
    the wrapper; [invoke] is taken at any nesting depth. *)
Section AnyTarget.
Variable options : DebounceOptions.
Hypothesis some_edge : leading options || trailing options = true.

Section AnyInvoke.
Variable inv : Z -> world -> option (world * completion direct).
Hypothesis inv_ok : invoke_ok options inv.

Lemma schedule_tidy now w w' c :
  trailing options = true -> accounted w ->
  schedule_with options inv now w = Some (w', c) ->
  tidy options w' /\ owed w'.
Proof.
  intros Ht A. unfold schedule_with.
  set (d := min_delay _ _). destruct (d <=? 0).
  - destruct (inv now (clearTimer w)) as [[w1 [r|e]]|] eqn:E; [| |discriminate];
      intros H; injection H as <- _;
      apply (inv_ok now (clearTimer w) _ _ ltac:(revert A; apply accounted_frame; reflexivity) E).
  - intros H. injection H as <- _. split; [split|].
    + revert A. apply accounted_frame; reflexivity.
    + intros F. congruence.
    + right; left. discriminate.
Qed.

Lemma debounced_tidy this allArgs now w w' c :
  signal_typed (call_signal options allArgs) = true ->
  tidy options w ->
  debounced_with options inv this allArgs now w = Some (w', c) ->
  tidy options w' /\ owed w'.
Proof.
  intros Hty [A Q].
  destruct (staged_accounted options this allArgs now w Hty A) as [A1 _].
  unfold debounced_with. unfold staged, call_args, call_signal in A1.
  destruct (split_call allArgs) as [args cs]. cbn [fst snd] in A1.
  fold (idle w). fold (idle w) in A1.
  set (w1 := executor _ _ _ _) in *. clearbody w1.
  destruct (idle w && leading options) eqn:El.
  - destruct (inv now w1) as [[w2 [r|e]]|] eqn:E; [| |discriminate].
    + destruct (inv_ok now w1 _ _ A1 E) as [T2 O2].
      destruct (trailing options) eqn:Et; cbn [negb].
      * destruct (schedule_with options inv now w2) as [[w3 [u|e]]|] eqn:Es;
          [| |discriminate]; intros H; injection H as <- _;
          apply (schedule_tidy now w2 _ _ Et (proj1 T2) Es).
      * intros H. injection H as <- _. split; assumption.
    + intros H. injection H as <- _. apply (inv_ok now w1 _ _ A1 E).
  - destruct (trailing options) eqn:Et.
    + destruct (schedule_with options inv now w1) as [[w3 [u|e]]|] eqn:Es;
        [| |discriminate]; intros H; injection H as <- _;
        apply (schedule_tidy now w1 _ _ Et A1 Es).
    + exfalso. rewrite (Q eq_refl) in El. rewrite orb_false_r in some_edge.
      rewrite some_edge in El. discriminate.
Qed.

Lemma exec_op_tidy now o w w' c :
  op_typed options o = true ->
  tidy options w ->
  exec_op options inv now o w = Some (w', c) ->
  tidy options w' /\ (owed w -> owed w').
Proof.
  intros Hty [A Q]. destruct o as [allArgs| | |s]; cbn [exec_op op_typed] in *.
  - destruct (debounced_with options inv VUndefined allArgs now w) as [[w1 [r|e]]|] eqn:E;
      [| |discriminate]; intros H; injection H as <- _;
      destruct (debounced_tidy VUndefined allArgs now w _ _ Hty (conj A Q) E); auto.
  - intros H. injection H as <- _.
    destruct (cancel_accounted w A) as (K1 & K2 & K3).
    split; [split; auto|auto].
  - unfold flush_with. destruct (pendingArgs (vars w)) eqn:Ea.
    + destruct (inv now w) as [[w1 [r|e]]|] eqn:E; [| |discriminate];
        intros H; injection H as <- _; destruct (inv_ok now w _ _ A E); auto.
    + intros H. injection H as <- _. split; [split|]; auto.
  - intros H. injection H as <- _.
    destruct (abort_tidy s w A) as (K1 & K2 & K3).
    split; [split; [exact K1|]|exact K3]. intros T. rewrite K2. auto.
Qed.

Lemma exec_ops_tidy now ops :
  forallb (op_typed options) ops = true ->
  forall w w' c,
    tidy options w ->
    exec_ops options inv now ops w = Some (w', c) ->
    tidy options w' /\ (owed w -> owed w').
Proof.
  induction ops as [|o ops IH]; intros Hty w w' c Tw; cbn [exec_ops].
  - intros H. injection H as <- _. auto.
  - cbn [forallb] in Hty. apply andb_prop in Hty. destruct Hty as [H1 H2].
    destruct (exec_op options inv now o w) as [[w1 [u|e]]|] eqn:E; [| |discriminate].
    + destruct (exec_op_tidy now o w _ _ H1 Tw E) as [T1 O1].
      intros H. destruct (IH H2 w1 w' c T1 H) as [T2 O2]. auto.
    + intros H. injection H as <- _. apply (exec_op_tidy now o w _ _ H1 Tw E).
Qed.
End AnyInvoke.

Variable fn : target.
Hypothesis fn_typed :
  forall ctx args, forallb (op_typed options) (reentrant (fn ctx args)) = true.

Lemma invoke_tidy fuel : invoke_ok options (invoke options fn fuel).
Proof.
  induction fuel as [|fuel IH]; intros now w w' c A; cbn [invoke]; [discriminate|].
  unfold invoke_with.
  set (w0 := log_invocation _ _).
  assert (T0 : tidy options w0).
  { split; [revert A; apply accounted_frame; reflexivity|reflexivity]. }
  set (b := fn _ _).
  destruct (exec_ops options (invoke options fn fuel) now (reentrant b) w0)
    as [[w1 [u|e]]|] eqn:E; [| |discriminate].
  - destruct (exec_ops_tidy _ IH now _ (fn_typed _ _) w0 _ _ T0 E) as [[A1 Q1] _].
    destruct (result b); intros H; injection H as <- _.
    + split; [split|].
      * revert A1. apply accounted_frame; reflexivity.
      * exact Q1.
      * right; right; left. unfold_world. destruct (microtasks w1); discriminate.
    + destruct (settleAll_accounted false (PValue e) w1 A1) as [S1 S2].
      split; [split; [exact S1|]|left; exact S2].
      intros T. rewrite (idle_same_cycle w1 _ (settleAll_same_cycle _ _ w1)). auto.
    + split; [split|].
      * revert A1. apply accounted_frame; reflexivity.
      * exact Q1.
      * right; right; right. unfold_world. discriminate.
  - destruct (exec_ops_tidy _ IH now _ (fn_typed _ _) w0 _ _ T0 E) as [[A1 Q1] _].
    intros H. injection H as <- _.
    destruct (settleAll_accounted false e w1 A1) as [S1 S2].
    split; [split; [exact S1|]|left; exact S2].
    intros T. rewrite (idle_same_cycle w1 _ (settleAll_same_cycle _ _ w1)). auto.
Qed.

Lemma run_microtasks_tidy w :
  tidy options w -> owed w -> settledown options (run_microtasks w).
Proof.
  intros [A Q] O.
  destruct (run_microtasks_accounted w A O) as (R1 & R2 & R3). cbv zeta in *.
  split; [|exact R2]. split; [exact R1|]. split.
  - destruct R3 as [R|[R|R]]; [left|right; left|right; right; right]; exact R.
  - intros T. rewrite (idle_same_cycle w _ (run_microtasks_same_cycle w)). apply Q. exact T.
Qed.

Lemma run_event_tidy fuel now e w w' :
  event_typed options e = true ->
  settledown options w ->
  run_event options fn fuel now e w = Some w' -> settledown options w'.
Proof.
  intros Hty [(A & O & Q) M]. destruct e as [ops|ok v]; cbn [run_event event_typed] in *.
  - destruct (exec_ops options (invoke options fn fuel) now ops w) as [[w1 c]|] eqn:E;
      [|discriminate].
    cbn [drop option_map]. intros H. injection H as <-.
    destruct (exec_ops_tidy _ (invoke_tidy fuel) now ops Hty w _ _ (conj A Q) E) as [T1 O1].
    apply run_microtasks_tidy; auto.
  - destruct (inflight w) as [|n] eqn:E; intros H; injection H as <-.
    + split; [split; [|split]|]; assumption.
    + assert (A0 : accounted (set_inflight n w))
        by (revert A; apply accounted_frame; reflexivity).
      destruct (settleAll_accounted ok (PValue v) (set_inflight n w) A0) as [S1 S2].
      split; [|exact M]. split; [exact S1|]. split; [left; exact S2|]. exact Q.
Qed.

Lemma advance_loop_tidy fuel t n :
  forall w w',
    settledown options w ->
    advance_loop options fn fuel n t w = Some w' ->
    settledown options w' /\ (forall due, timerId (vars w') = Some due -> t < due).
Proof.
  induction n as [|n IH]; intros w w' S0; cbn [advance_loop];
    destruct (timerId (vars w)) as [due|] eqn:E.
  - destruct (due <=? t) eqn:El; [discriminate|]. intros H. injection H as <-.
    split; [exact S0|]. intros d Hd. apply Z.leb_gt in El. congruence.
  - intros H. injection H as <-. split; [exact S0|]. intros d Hd. congruence.
  - destruct (due <=? t) eqn:El.
    + unfold fire_timer.
      destruct (invoke options fn fuel due w) as [[w1 c]|] eqn:Ei; [|discriminate].
      cbn [drop option_map]. apply IH.
      destruct S0 as [(A & _ & _) _].
      destruct (invoke_tidy fuel due w _ _ A Ei) as [T1 O1].
      apply run_microtasks_tidy; assumption.
    + intros H. injection H as <-.
      split; [exact S0|]. intros d Hd. apply Z.leb_gt in El. congruence.
  - intros H. injection H as <-. split; [exact S0|]. intros d Hd. congruence.
Qed.

Lemma run_tidy fuel trace :
  forallb (fun te => event_typed options (snd te)) trace = true ->
  forall w w',
    settledown options w ->
    run options fn fuel trace w = Some w' -> settledown options w'.
Proof.
  induction trace as [|[t e] trace IH]; intros Hty w w' S0; cbn [run].
  - intros H. injection H as <-. exact S0.
  - cbn [forallb snd] in Hty. apply andb_prop in Hty. destruct Hty as [H1 H2].
    destruct (advance options fn fuel t w) as [w1|] eqn:E1; [|discriminate].
    destruct (run_event options fn fuel t e w1) as [w2|] eqn:E2; [|discriminate].
    apply (IH H2).
    apply (run_event_tidy fuel t e w1 w2 H1); [|exact E2].
    apply (advance_loop_tidy fuel t fuel w w1 S0 E1).
Qed.
End AnyTarget.

(** A target that does not call back never exhausts the nesting bound. *)
Section PlainTotal.
Variable options : DebounceOptions.
Variable fn : target.
Hypothesis fn_plain : plain fn.

Lemma exec_op_total fuel now o w :
  exists w' c, exec_op options (invoke options fn (S fuel)) now o w = Some (w', c).
Proof.
  destruct o as [allArgs| | |s]; cbn [exec_op].
  - destruct (debounced_paths options fn fn_plain fuel VUndefined allArgs now w)
      as (w' & c & Hd & _).
    unfold debounced in Hd. rewrite Hd. destruct c; do 2 eexists; reflexivity.
  - do 2 eexists. reflexivity.
  - unfold flush_with. destruct (pendingArgs (vars w)).
    + rewrite (invoke_plain options fn fn_plain).
      destruct (invoke1 fn now w) as [w' [r|e]]; do 2 eexists; reflexivity.
    + do 2 eexists. reflexivity.
  - do 2 eexists. reflexivity.
Qed.

Lemma exec_ops_total fuel now ops :
  forall w, exists w' c, exec_ops options (invoke options fn (S fuel)) now ops w = Some (w', c).
Proof.
  induction ops as [|o ops IH]; intros w; cbn [exec_ops].
  - do 2 eexists. reflexivity.
  - destruct (exec_op_total fuel now o w) as (w1 & c1 & E1). rewrite E1.
    destruct c1 as [u|e]; [apply IH|do 2 eexists; reflexivity].
Qed.

Lemma run_event_total fuel now e w :
  exists w', run_event options fn (S fuel) now e w = Some w'.
Proof.
  destruct e as [ops|ok v]; cbn [run_event].
  - destruct (exec_ops_total fuel now ops w) as (w1 & c & E). rewrite E.
    eexists. reflexivity.
  - destruct (inflight w); eexists; reflexivity.
Qed.

Lemma run_total fuel trace :
  forall w, exists w', run options fn (S fuel) trace w = Some w'.
Proof.
  induction trace as [|[t e] trace IH]; intros w; cbn [run].
  - eexists. reflexivity.
  - destruct (advance_total options fn fn_plain fuel t w) as (w1 & m1 & E1 & _). rewrite E1.
    destruct (run_event_total fuel t e w1) as (w2 & E2). rewrite E2. apply IH.
Qed.

Lemma run_until_total fuel trace T w :
  exists w', run_until options fn (S fuel) trace T w = Some w'.
Proof.
  unfold run_until. destruct (run_total fuel trace w) as (w1 & E1). rewrite E1.
  destruct (advance_total options fn fn_plain fuel T w1) as (w2 & m2 & E2 & _).
  exists w2. exact E2.
Qed.
End PlainTotal.

Lemma settledown_initial options : settledown options createDebouncedFunction.
Proof.
  split; [|reflexivity]. split; [|split; [left; reflexivity|reflexivity]].
  unfold accounted. cbn. repeat split; try constructor; intros p [].
Qed.

(** C5 (amended).  With at least one edge enabled, and for calls (those the
    target itself makes included) whose signal is absent or an AbortSignal:
    in every run no promise is settled twice, and once the timer has fired
    and the target's own promises have settled every promise handed out has
    been settled exactly once.  A target that does not call back never
    exhausts the nesting bound, so its runs always complete. *)
Theorem C5_settled_once (options : DebounceOptions) (fn : target)
    (trace : list (Z * event)) (T : Z) :
  leading options || trailing options = true ->
  forallb (fun te => event_typed options (snd te)) trace = true ->
  (forall ctx args, forallb (op_typed options) (reentrant (fn ctx args)) = true) ->
  (forall fuel w,
      run_until options fn fuel trace T createDebouncedFunction = Some w ->
      (* no promise is ever settled twice *)
      (forall p, (times_settled p w <= 1)%nat)
      (* with no timer armed and no target promise pending, all are settled *)
      /\ (timerId (vars w) = None -> inflight w = 0%nat ->
          forall p, (p < nextWaiter w)%nat -> times_settled p w = 1%nat)
      (* and the timer has fired whenever it was due by [T] *)
      /\ (forall due, timerId (vars w) = Some due -> T < due))
  /\ (plain fn ->
      forall fuel,
      exists w, run_until options fn (S fuel) trace T createDebouncedFunction = Some w).
Proof.
  intros He Hty Hfn. split.
  - intros fuel w. unfold run_until.
    destruct (run options fn fuel trace createDebouncedFunction) as [w1|] eqn:E1;
      [|discriminate].
    intros E.
    pose proof (run_tidy options He fn Hfn fuel trace Hty _ _
                  (settledown_initial options) E1) as S1.
    destruct (advance_loop_tidy options He fn Hfn fuel T fuel w1 w S1 E)
      as (((A & O & _) & M) & D).
    split; [|split; [|exact D]].
    + intros p. apply accounted_le1. exact A.
    + intros Hti Hin p Hlt.
      assert (L : pendingResolves (vars w) = []).
      { destruct O as [X|[X|[X|X]]]; [exact X|contradiction..]. }
      destruct A as (_ & _ & _ & A4). rewrite A4, L.
      replace (p <? nextWaiter w)%nat with true by (symmetry; apply Nat.ltb_lt; exact Hlt).
      reflexivity.
  - intros Hp fuel. apply run_until_total. exact Hp.
Qed.

(** C5 as stated fails: with both edges disabled a call that is neither
    flushed, cancelled nor aborted has its promise left unsettled, however
    long one waits. *)
Lemma C5_counterexample :
  exists w,
    run_until (mkOptions 100 (Some false) (Some false) None None None) echo 1
      [(0, Task [OpCall [VStr "a"]])] 1000000 createDebouncedFunction = Some w
    /\ times_settled 0%nat w = 0%nat
    /\ nextWaiter w = 1%nat
    /\ invocations w = []
    /\ timerId (vars w) = None /\ microtasks w = [] /\ inflight w = 0%nat.
Proof. eexists. split; [vm_compute; reflexivity|]. repeat split. Qed.

Lemma C5_witness :
  (exists w,
     run_until (debounceExtend 100 noOptions) echo 1
       [(0, Task [OpCall [VStr "a"]; OpCall [VStr "b"; VObject [("signal", VSignal 3%nat)]]]);
        (50, Task [OpAbort 3%nat; OpCall [VStr "c"]]);
        (400, Task [OpCall [VStr "d"]; OpCancel])] 1000 createDebouncedFunction = Some w
     /\ nextWaiter w = 4%nat
     /\ forall p, (p < 4)%nat -> times_settled p w = 1%nat)
  /\ (exists w,
        run_until (debounceExtend 100 noOptions) reenter 2
          [(0, Task [OpCall [VStr "a"]])] 1000 createDebouncedFunction = Some w
        /\ nextWaiter w = 2%nat
        /\ forall p, (p < 2)%nat -> times_settled p w = 1%nat).
Proof.
  split.
  - destruct (C5_settled_once (debounceExtend 100 noOptions) echo
                [(0, Task [OpCall [VStr "a"]; OpCall [VStr "b"; VObject [("signal", VSignal 3%nat)]]]);
                 (50, Task [OpAbort 3%nat; OpCall [VStr "c"]]);
                 (400, Task [OpCall [VStr "d"]; OpCancel])] 1000
                eq_refl eq_refl (fun _ _ => eq_refl)) as [H1 H2].
    destruct (H2 (fun _ _ => eq_refl) 0%nat) as (w & E).
    destruct (H1 1%nat w E) as (_ & H & _).
    exists w. split; [exact E|].
    assert (F : timerId (vars w) = None /\ inflight w = 0%nat /\ nextWaiter w = 4%nat).
    { vm_compute in E. injection E as <-. repeat split. }
    destruct F as (F1 & F2 & F3). split; [exact F3|].
    intros p Hp. apply (H F1 F2). rewrite F3. exact Hp.
  - assert (Hty : forall ctx args,
               forallb (op_typed (debounceExtend 100 noOptions))
                       (reentrant (reenter ctx args)) = true).
    { intros ctx args. unfold reenter.
      destruct args as [|v [|? ?]]; try reflexivity; destruct v; try reflexivity.
      destruct (String.eqb s "a"); reflexivity. }
    destruct (C5_settled_once (debounceExtend 100 noOptions) reenter
                [(0, Task [OpCall [VStr "a"]])] 1000 eq_refl eq_refl Hty) as [H1 _].
    assert (Ex : exists w,
               run_until (debounceExtend 100 noOptions) reenter 2
                 [(0, Task [OpCall [VStr "a"]])] 1000 createDebouncedFunction = Some w)
      by (eexists; vm_compute; reflexivity).
    destruct Ex as (w & E).
    destruct (H1 2%nat w E) as (_ & H & _).
    exists w. split; [exact E|].
    assert (F : timerId (vars w) = None /\ inflight w = 0%nat /\ nextWaiter w = 2%nat).
    { vm_compute in E. injection E as <-. repeat split. }
    destruct F as (F1 & F2 & F3). split; [exact F3|].
    intros p Hp. apply (H F1 F2). rewrite F3. exact Hp.
Defined.

(* ------------------------------------------------------------------------- *)
(** * Further properties *)

(** X1.  A call is taken to carry per-call options exactly when its last
    argument is a non-array object that has a [signal] key, whatever the
    value under the key; only then is that argument taken off.  In every
    other case the target gets all the arguments and the call listens to
    the signal of the wrapper's options. *)
Theorem call_options_exactly (options : DebounceOptions) (allArgs : list value) :
  (has_call_options allArgs = true <->
   exists pre fields v,
     allArgs = pre ++ [VObject fields] /\ lookup_field "signal" fields = Some v)
  /\ (has_call_options allArgs = false ->
      call_args allArgs = allArgs /\ call_signal options allArgs = defaultSignal options).
Proof.
  split; [split|].
  - intros H. unfold has_call_options in H.
    destruct allArgs as [|x l] eqn:E; [discriminate|]. rewrite <- E in *.
    assert (Hne : allArgs <> []) by (rewrite E; discriminate).
    destruct (exists_last Hne) as (pre & lastv & El).
    unfold lastArg in H. rewrite El, last_last in H.
    repeat (apply andb_prop in H; destruct H as [H ?]).
    destruct lastv; try discriminate.
    cbn [has_property] in *. destruct (lookup_field "signal" fields) as [v|] eqn:Ef;
      [|discriminate].
    exists pre, fields, v. split; [exact El|exact Ef].
  - intros (pre & fields & v & -> & Hf).
    pose proof (split_call_options pre fields v Hf) as Hs. unfold split_call in Hs.
    destruct (has_call_options (pre ++ [VObject fields])); [reflexivity|].
    injection Hs as Hs _.
    assert (Hl : List.length (pre ++ [VObject fields]) = List.length pre) by (rewrite Hs; reflexivity).
    rewrite length_app in Hl. cbn in Hl. lia.
  - intros H. unfold call_args, call_signal, split_call. rewrite H. split; reflexivity.
Qed.

(** X4.  [cancel()] a second time changes nothing: the first call has
    cleared the timer and the staged arguments and emptied the waiter
    lists, so no one is rejected twice. *)
Theorem cancel_idempotent (w : world) : cancel (cancel w) = cancel w.
Proof.
  unfold cancel. unfold_world.
  destruct (pendingRejects (vars w)) eqn:E; unfold_world; rewrite ?E; reflexivity.
Qed.


Lemma indexOf_None p l : indexOf p l = None -> ~ In p l.
Proof.
  induction l as [|y l IH]; cbn [indexOf]; intros H; [intros []|].
  destruct (Nat.eqb p y) eqn:E; [discriminate|].
  destruct (indexOf p l); [discriminate|].
  apply Nat.eqb_neq in E. intros [Hy|Hin]; [congruence|]. apply IH; auto.
Qed.

(** One abort listener: either its waiter is no longer listed and nothing
    changes, or the waiter is taken out of the lists and rejected. *)
Lemma onAbort_effect p w :
  let w' := onAbort p w in
  same_cycle w w'
  /\ abortedSignals w' = abortedSignals w
  /\ ((~ In p (pendingResolves (vars w))
       /\ settlements w' = settlements w
       /\ pendingResolves (vars w') = pendingResolves (vars w))
      \/ (exists l1 l2,
            pendingResolves (vars w) = l1 ++ p :: l2
            /\ pendingResolves (vars w') = l1 ++ l2
            /\ settlements w' = settlements w ++ [mkSettlement p false PAbortError])).
Proof.
  cbv zeta. unfold onAbort.
  set (w1 := match indexOf p (pendingResolves (vars w)) with Some _ => _ | None => w end).
  assert (H1 : same_cycle w w1 /\ abortedSignals w1 = abortedSignals w
               /\ ((~ In p (pendingResolves (vars w))
                    /\ settlements w1 = settlements w
                    /\ pendingResolves (vars w1) = pendingResolves (vars w))
                   \/ (exists l1 l2,
                         pendingResolves (vars w) = l1 ++ p :: l2
                         /\ pendingResolves (vars w1) = l1 ++ l2
                         /\ settlements w1 = settlements w ++ [mkSettlement p false PAbortError]))).
  { unfold w1. destruct (indexOf p (pendingResolves (vars w))) as [idx|] eqn:E.
    - destruct (indexOf_Some p _ idx E) as (l1 & l2 & L1 & L2).
      split; [repeat split|]. split; [reflexivity|]. right.
      exists l1, l2. unfold_world. rewrite L2. auto.
    - split; [apply same_cycle_refl|]. split; [reflexivity|]. left.
      split; [apply indexOf_None; exact E|]. split; reflexivity. }
  destruct H1 as (B1 & B2 & B3).
  destruct (negb (pending w1)) eqn:Ep; [|auto].
  assert (Hti : timerId (vars w1) = None).
  { apply negb_true_iff in Ep. unfold pending in Ep. apply orb_false_elim in Ep.
    destruct (timerId (vars w1)); [destruct Ep; discriminate|reflexivity]. }
  split; [|split; [exact B2|exact B3]].
  destruct B1 as (C1 & C2 & C3 & C4 & C5 & C6).
  unfold same_cycle. unfold_world. repeat split; congruence.
Qed.

Lemma abort_fold :
  forall (mine : list (signalId * waiter)) (w0 : world),
    let r := fold_left (fun w l => onAbort (snd l) w) mine w0 in
    same_cycle w0 r
    /\ abortedSignals r = abortedSignals w0
    /\ (exists l,
          settlements r = settlements w0 ++ l
          /\ forall x, In x l ->
               s_ok x = false /\ s_payload x = PAbortError
               /\ In (s_waiter x) (map snd mine)
               /\ In (s_waiter x) (pendingResolves (vars w0)))
    /\ (forall q, In q (pendingResolves (vars w0)) -> ~ In q (map snd mine) ->
                  In q (pendingResolves (vars r)))
    /\ (forall q, In q (pendingResolves (vars r)) -> In q (pendingResolves (vars w0)))
    /\ (NoDup (pendingResolves (vars w0)) ->
        NoDup (pendingResolves (vars r))
        /\ forall q, In q (map snd mine) -> ~ In q (pendingResolves (vars r))).
Proof.
  induction mine as [|[s' p] mine IH]; intros w0; cbv zeta; cbn [fold_left map snd].
  - split; [apply same_cycle_refl|]. split; [reflexivity|].
    split; [exists []; rewrite app_nil_r; split; [reflexivity|intros x []]|].
    split; [auto|]. split; [auto|]. intros N. split; [exact N|intros q []].
  - destruct (onAbort_effect p w0) as (A1 & A2 & A3). cbv zeta in *.
    specialize (IH (onAbort p w0)). cbv zeta in IH.
    set (w1 := onAbort p w0) in *. clearbody w1.
    destruct IH as (I1 & I2 & (l & I3 & I4) & I5 & I6 & I7).
    split; [eapply same_cycle_trans; eauto|]. split; [congruence|].
    destruct A3 as [(N & E1 & E2)|(l1 & l2 & E0 & E2 & E1)].
    + rewrite E1, E2 in *.
      split; [exists l; split; [exact I3|]|].
      { intros x Hx. destruct (I4 x Hx) as (Y1 & Y2 & Y3 & Y4).
        repeat split; auto. right. exact Y3. }
      split; [|split; [exact I6|]].
      { intros q Hq Hn. apply I5; [exact Hq|]. intros Hm. apply Hn. right. exact Hm. }
      intros ND. destruct (I7 ND) as [J1 J2]. split; [exact J1|].
      intros q [<-|Hq]; [|auto]. intros Hin. apply N. apply I6. exact Hin.
    + rewrite E1, E2 in *.
      assert (Sub : forall q, In q (l1 ++ l2) -> In q (pendingResolves (vars w0))).
      { intros q Hq. rewrite E0. apply in_app_or in Hq. apply in_or_app.
        destruct Hq; [left|right; right]; assumption. }
      split; [exists (mkSettlement p false PAbortError :: l); split|].
      { rewrite I3, <- app_assoc. reflexivity. }
      { intros x [<-|Hx]; cbn [s_ok s_payload s_waiter].
        - split; [reflexivity|]. split; [reflexivity|]. split; [left; reflexivity|].
          rewrite E0. apply in_or_app. right. left. reflexivity.
        - destruct (I4 x Hx) as (Y1 & Y2 & Y3 & Y4).
          split; [exact Y1|]. split; [exact Y2|]. split; [right; exact Y3|].
          apply Sub. exact Y4. }
      split; [|split].
      { intros q Hq Hn. apply I5.
        - rewrite E0 in Hq. apply in_app_or in Hq. apply in_or_app.
          destruct Hq as [Hq|[Hq|Hq]]; [left; exact Hq| |right; exact Hq].
          exfalso. apply Hn. left. exact Hq.
        - intros Hm. apply Hn. right. exact Hm. }
      { intros q Hq. apply Sub. apply I6. exact Hq. }
      intros ND. rewrite E0 in ND.
      destruct (I7 (NoDup_remove_1 _ _ _ ND)) as [J1 J2]. split; [exact J1|].
      intros q [<-|Hq]; [|auto]. intros Hin. apply I6 in Hin.
      exact (NoDup_remove_2 _ _ _ ND Hin).
Qed.

(** X3.  When a signal fires, the staged arguments, the timer and the
    invocation log stay as they are; what is settled are rejections with the
    abort error, each of a waiter that listened to this signal and was still
    listed; the other waiters stay listed.  On the first firing every waiter
    that listened leaves the list. *)
Theorem abort_rejects_only_its_waiters (s : signalId) (w : world) :
  let w' := abort s w in
  (* staged arguments, timer and invocation log are left alone *)
  same_cycle w w'
  (* what is settled: rejections with the abort error, of waiters that
     listened to this signal *)
  /\ (exists l,
        settlements w' = settlements w ++ l
        /\ forall x, In x l ->
             s_ok x = false /\ s_payload x = PAbortError
             /\ In (s, s_waiter x) (listeners w)
             /\ In (s_waiter x) (pendingResolves (vars w)))
  (* the other waiters stay *)
  /\ (forall q, In q (pendingResolves (vars w)) -> ~ In (s, q) (listeners w) ->
                In q (pendingResolves (vars w')))
  (* the first firing takes every listening waiter out of the list *)
  /\ (existsb (Nat.eqb s) (abortedSignals w) = false ->
      NoDup (pendingResolves (vars w)) ->
      forall q, In (s, q) (listeners w) -> ~ In q (pendingResolves (vars w'))).
Proof.
  cbv zeta. unfold abort.
  assert (M : forall q, In q (map snd (filter (fun l => Nat.eqb (fst l) s) (listeners w)))
                        <-> In (s, q) (listeners w)).
  { intros q. rewrite in_map_iff. split.
    - intros ([s' q'] & E & H). cbn in E. subst q'. apply filter_In in H.
      destruct H as [H1 H2]. cbn in H2. apply Nat.eqb_eq in H2. subst s'. exact H1.
    - intros H. exists (s, q). split; [reflexivity|]. apply filter_In.
      split; [exact H|apply Nat.eqb_refl]. }
  destruct (existsb (Nat.eqb s) (abortedSignals w)) eqn:Ea.
  - split; [apply same_cycle_refl|].
    split; [exists []; rewrite app_nil_r; split; [reflexivity|intros x []]|].
    split; [auto|discriminate].
  - set (w0 := set_listeners _ _).
    destruct (abort_fold (filter (fun l => Nat.eqb (fst l) s) (listeners w)) w0)
      as (I1 & I2 & (l & I3 & I4) & I5 & I6 & I7).
    cbv zeta in *. split; [exact I1|]. split; [exists l; split; [exact I3|]|].
    { intros x Hx. destruct (I4 x Hx) as (Y1 & Y2 & Y3 & Y4).
      repeat split; auto. apply M. exact Y3. }
    split.
    + intros q Hq Hn. apply I5; [exact Hq|]. intros Hm. apply Hn. apply M. exact Hm.
    + intros _ ND q Hq. apply (I7 ND). apply M. exact Hq.
Qed.

Lemma abort_rejects_only_its_waiters_witness :
  ~ In 0%nat (pendingResolves (vars (abort 5%nat twoWaiters)))
  /\ In 1%nat (pendingResolves (vars (abort 5%nat twoWaiters))).
Proof.
  destruct (abort_rejects_only_its_waiters 5%nat twoWaiters) as (_ & _ & H3 & H4).
  split.
  - apply (H4 eq_refl).
    + repeat constructor; cbn; intuition discriminate.
    + left. reflexivity.
  - apply H3.
    + right. left. reflexivity.
    + cbn. intuition discriminate.
Defined.

Lemma staged_registered options this allArgs now w :
  signal_aborted w (call_signal options allArgs) = false ->
  let w' := staged options this allArgs now w in
  let p := nextWaiter w in
  pendingResolves (vars w') = pendingResolves (vars w) ++ [p]
  /\ pendingRejects (vars w') = pendingRejects (vars w) ++ [p]
  /\ settlements w' = settlements w ++ executor_extra (call_signal options allArgs) p
  /\ listeners w' = listeners w ++ executor_listener (call_signal options allArgs) p.
Proof.
  intros Ha. cbv zeta. unfold staged.
  match goal with |- context [signal_aborted ?x _] =>
    rewrite (signal_aborted_frame w x) end.
  2:{ destruct (_ && _); [destruct (strategy options)|]; reflexivity. }
  rewrite Ha. unfold executor, executor_extra, executor_listener.
  set (sig := call_signal options allArgs).
  destruct (_ && _); [destruct (strategy options)|];
    destruct sig; cbn [truthy]; unfold_world; rewrite ?app_nil_r;
    repeat split; try reflexivity;
    match goal with |- context [if ?b then _ else _] => destruct b end;
    unfold_world; rewrite ?app_nil_r; reflexivity.
Qed.

Lemma run_microtasks_nil w : microtasks w = [] -> run_microtasks w = w.
Proof.
  intros H. unfold run_microtasks. rewrite H. cbn [fold_left].
  destruct w. cbn in *. subst. reflexivity.
Qed.

(** The timer callback (or any [invoke]) followed by the reactions it queued. *)
Lemma fire_outcome fn now w :
  microtasks w = [] ->
  let args := match pendingArgs (vars w) with Some a => a | None => [] end in
  let w' := run_microtasks (fst (invoke1 fn now w)) in
  invocations w' = invocations w ++ [mkInvocation now (pendingThis (vars w)) args]
  /\ timerId (vars w') = None /\ pendingArgs (vars w') = None
  /\ pendingThis (vars w') = VNull
  /\ microtasks w' = [] /\ nextWaiter w' = nextWaiter w
  /\ abortedSignals w' = abortedSignals w
  /\ match result (fn (pendingThis (vars w)) args) with
     | Returns v =>
         settlements w' = settlements w
                          ++ map (fun k => mkSettlement k true (PValue v)) (pendingResolves (vars w))
         /\ pendingResolves (vars w') = [] /\ pendingRejects (vars w') = []
         /\ inflight w' = inflight w
     | Throws e =>
         settlements w' = settlements w
                          ++ map (fun k => mkSettlement k false (PValue e)) (pendingRejects (vars w))
         /\ pendingResolves (vars w') = [] /\ pendingRejects (vars w') = []
         /\ inflight w' = inflight w
     | ReturnsPromise =>
         settlements w' = settlements w
         /\ pendingResolves (vars w') = pendingResolves (vars w)
         /\ pendingRejects (vars w') = pendingRejects (vars w)
         /\ inflight w' = S (inflight w)
     end.
Proof.
  intros Hm. cbv zeta. unfold invoke1. unfold_world.
  destruct (result _); cbn [fst]; unfold run_microtasks; unfold_world; rewrite Hm;
    cbn [app fold_left]; unfold_world; repeat split; reflexivity.
Qed.

Section PlainWorlds.
Variable options : DebounceOptions.
Variable fn : target.
Hypothesis fn_plain : plain fn.

(** The world a call leaves when it arms the trailing timer. *)
Lemma call_arms_world fuel t a w :
  idle w && leading options = false -> trailing options = true ->
  0 < delay options t (staged options VUndefined a t w) ->
  run_event options fn (S fuel) t (Task [OpCall a]) w =
    Some (run_microtasks
            (upd_vars (set_timerId (Some (setTimeout (delay options t (staged options VUndefined a t w)) t)))
                      (staged options VUndefined a t w))).
Proof.
  intros Hl Ht Hd.
  destruct (debounced_paths options fn fn_plain fuel VUndefined a t w)
    as (w1 & c & Hdeb & Hp).
  rewrite (run_call options fn fuel t a w w1 c Hdeb). cbv zeta in Hp.
  rewrite Hl, Ht in Hp.
  destruct Hp as [(_ & T & _)|[(_ & _ & _ & E)|[(_ & _ & D & _)|[(L & _)|[(L & _)|(L & _)]]]]];
    try discriminate; try lia.
  rewrite E. reflexivity.
Qed.

(** The leading edge with the trailing edge enabled. *)
Lemma call_leads_world fuel t a w :
  idle w && leading options = true -> trailing options = true ->
  0 < delay options t (staged options VUndefined a t w) ->
  run_event options fn (S fuel) t (Task [OpCall a]) w =
    Some (run_microtasks
            match snd (invoke1 fn t (staged options VUndefined a t w)) with
            | Thrown _ => fst (invoke1 fn t (staged options VUndefined a t w))
            | Normal _ =>
                upd_vars (set_timerId (Some (setTimeout (delay options t (staged options VUndefined a t w)) t)))
                         (fst (invoke1 fn t (staged options VUndefined a t w)))
            end).
Proof.
  intros Hl Ht Hd. unfold run_event. cbn [exec_ops exec_op].
  fold (debounced options fn (S fuel)).
  rewrite (debounced_plain options fn fn_plain). cbv zeta. rewrite Hl, Ht. cbn [negb].
  set (w1 := staged options VUndefined a t w) in *.
  pose proof (invoke1_shape fn t w1) as I. cbv zeta in I.
  destruct I as (_ & _ & _ & I4 & I5 & _).
  pose proof (delay_frame options t w1 (fst (invoke1 fn t w1)) I4 I5) as Ed.
  destruct (invoke1 fn t w1) as [w2 [r|e]]; cbn [fst snd] in *; [|reflexivity].
  rewrite (schedule_plain options fn fn_plain), Ed.
  replace (delay options t w1 <=? 0) with false by (symmetry; apply Z.leb_gt; lia).
  reflexivity.
Qed.
End PlainWorlds.

Lemma invoke1_completion fn now w :
  snd (invoke1 fn now w) =
    match result (fn (pendingThis (vars w))
                     (match pendingArgs (vars w) with Some a => a | None => [] end)) with
    | Returns v => Normal (DValue v)
    | Throws e => Thrown (PValue e)
    | ReturnsPromise => Normal DPromise
    end.
Proof. unfold invoke1. unfold_world. destruct (result _); reflexivity. Qed.


Lemma delay_first_call options t this a :
  maxWait options = Infinity ->
  delay options t (staged options this a t createDebouncedFunction) = wait options.
Proof.
  intros Hm. unfold delay. rewrite Hm. cbn [min_delay].
  pose proof (staged_frame options this a t createDebouncedFunction) as S1. cbv zeta in S1.
  rewrite idle_initial in S1. destruct S1 as (_ & _ & _ & _ & S5 & _).
  destruct (strategy options); [reflexivity|]. rewrite S5. pose proof (wait_nonneg options). lia.
Qed.

(** X5.  With both edges enabled and a [wait] within the host's timer
    range, a single call runs the target at once on its arguments and,
    unless that run threw, arms the timer all the same; when the timer fires
    the target runs a second time, with no arguments and [this] set to
    [null], because the leading run has already used up the staged call. *)
Theorem both_edges_single_call (options : DebounceOptions) (fn : target) (fuel : nat)
    (t : Z) (a : list value) (T : Z) :
  plain fn ->
  leading options = true -> trailing options = true ->
  maxWait options = Infinity -> 0 < wait options <= TIMEOUT_MAX ->
  t + wait options <= T ->
  exists w,
    run_until options fn (S fuel) [(t, Task [OpCall a])] T createDebouncedFunction = Some w
    /\ invocations w =
         match result (fn VUndefined (call_args a)) with
         | Throws _ => [mkInvocation t VUndefined (call_args a)]
         | _ => [mkInvocation t VUndefined (call_args a);
                 mkInvocation (t + wait options) VNull []]
         end.
Proof.
  intros Hp Hl Ht Hm [Hw Hfit] HT. unfold run_until. cbn [run].
  rewrite (advance_idle options fn (S fuel) t createDebouncedFunction eq_refl).
  rewrite (call_leads_world options fn Hp fuel t a createDebouncedFunction);
    [|rewrite Hl; reflexivity|exact Ht|rewrite (delay_first_call options t VUndefined a Hm); exact Hw].
  rewrite (delay_first_call options t VUndefined a Hm).
  rewrite (setTimeout_in_range (wait options) t Hw Hfit).
  pose proof (staged_frame options VUndefined a t createDebouncedFunction) as S1.
  cbv zeta in S1. destruct S1 as (_ & S2 & S3 & _ & _ & S6 & _).
  set (w1 := staged options VUndefined a t createDebouncedFunction) in *.
  pose proof (invoke1_shape fn t w1) as I. cbv zeta in I. rewrite S2, S3, S6 in I.
  destruct I as (I1 & I2 & I3 & _ & _ & I6 & _).
  rewrite (invoke1_completion fn t w1), S2, S3.
  set (w2 := fst (invoke1 fn t w1)) in *. clearbody w2.
  destruct (result (fn VUndefined (call_args a))).
  - set (wA := run_microtasks (upd_vars (set_timerId (Some (t + wait options))) w2)).
    destruct (run_microtasks_same_cycle (upd_vars (set_timerId (Some (t + wait options))) w2))
      as (R1 & R2 & R3 & _ & _ & R6). fold wA in R1, R2, R3, R6. unfold_world.
    rewrite (advance_due options fn Hp fuel T wA (t + wait options) R1 HT).
    eexists. split; [reflexivity|].
    destruct (run_microtasks_same_cycle (fst (invoke1 fn (t + wait options) wA)))
      as (_ & _ & _ & _ & _ & Q6).
    pose proof (invoke1_shape fn (t + wait options) wA) as J. cbv zeta in J.
    destruct J as (_ & _ & _ & _ & _ & J6 & _).
    rewrite Q6, J6, R6, R2, R3, I2, I3, I6. reflexivity.
  - destruct (run_microtasks_same_cycle w2) as (R1 & _ & _ & _ & _ & R6).
    rewrite (advance_idle options fn (S fuel) T (run_microtasks w2)) by congruence.
    eexists. split; [reflexivity|]. rewrite R6, I6. reflexivity.
  - set (wA := run_microtasks (upd_vars (set_timerId (Some (t + wait options))) w2)).
    destruct (run_microtasks_same_cycle (upd_vars (set_timerId (Some (t + wait options))) w2))
      as (R1 & R2 & R3 & _ & _ & R6). fold wA in R1, R2, R3, R6. unfold_world.
    rewrite (advance_due options fn Hp fuel T wA (t + wait options) R1 HT).
    eexists. split; [reflexivity|].
    destruct (run_microtasks_same_cycle (fst (invoke1 fn (t + wait options) wA)))
      as (_ & _ & _ & _ & _ & Q6).
    pose proof (invoke1_shape fn (t + wait options) wA) as J. cbv zeta in J.
    destruct J as (_ & _ & _ & _ & _ & J6 & _).
    rewrite Q6, J6, R6, R2, R3, I2, I3, I6. reflexivity.
Qed.

Lemma both_edges_single_call_witness :
  exists w,
    run_until (mkOptions 100 (Some true) None None None None) echo 1
      [(0, Task [OpCall [VStr "a"]])] 100 createDebouncedFunction = Some w
    /\ invocations w = [mkInvocation 0 VUndefined [VStr "a"]; mkInvocation 100 VNull []].
Proof.
  apply (both_edges_single_call (mkOptions 100 (Some true) None None None None) echo 0
           0 [VStr "a"] 100 (fun _ _ => eq_refl) eq_refl eq_refl eq_refl).
  - timer_range.
  - cbn. lia.
Defined.

(** X2.  A per-call [signal] that is an AbortSignal takes the place of the
    wrapper's default signal for that call: the call's waiter listens to it,
    and as long as it has not fired nothing the call does rejects a waiter
    with the abort error, whatever the default signal is. *)
Theorem per_call_signal_overrides_default (options : DebounceOptions) (fn : target)
    (fuel : nat) (this : value) (pre : list value) (fields : list (string * value))
    (s : signalId) (now : Z) (w : world) :
  plain fn ->
  lookup_field "signal" fields = Some (VSignal s) ->
  existsb (Nat.eqb s) (abortedSignals w) = false ->
  call_signal options (pre ++ [VObject fields]) = VSignal s
  /\ exists w' c,
       debounced options fn (S fuel) this (pre ++ [VObject fields]) now w = Some (w', c)
       /\ In (s, nextWaiter w) (listeners w')
       /\ exists later,
            settlements w' = settlements w ++ later
            /\ forall x, In x later -> s_payload x <> PAbortError.
Proof.
  intros Hp Hf Hs.
  assert (Hc : call_signal options (pre ++ [VObject fields]) = VSignal s).
  { unfold call_signal. rewrite (split_call_options pre fields _ Hf). reflexivity. }
  split; [exact Hc|].
  destruct (debounced_paths options fn Hp fuel this (pre ++ [VObject fields]) now w)
    as (w' & c & Hd & Hpaths).
  exists w', c. split; [exact Hd|]. cbv zeta in Hpaths.
  pose proof (staged_registered options this (pre ++ [VObject fields]) now w) as R.
  rewrite Hc in R. specialize (R Hs). cbv zeta in R.
  cbn [executor_extra executor_listener] in R. rewrite app_nil_r in R.
  set (w1 := staged options this (pre ++ [VObject fields]) now w) in *. clearbody w1.
  destruct R as (_ & _ & R3 & R4).
  assert (K : forall x,
             listeners (fst (invoke1 fn now x)) = listeners x
             /\ exists later,
                  settlements (fst (invoke1 fn now x)) = settlements x ++ later
                  /\ forall y, In y later -> s_payload y <> PAbortError).
  { intros x. pose proof (invoke1_shape fn now x) as I. cbv zeta in I.
    destruct I as (_ & _ & _ & _ & _ & _ & _ & I8 & _). split; [exact I8|].
    destruct (invoke1_waiters fn now x) as [(E1 & _)|(e & E1 & _)].
    - exists []. rewrite app_nil_r. split; [exact E1|intros y []].
    - eexists. split; [exact E1|]. intros y Hy. apply in_map_iff in Hy.
      destruct Hy as (k & <- & _). discriminate. }
  assert (L0 : In (s, nextWaiter w) (listeners w1)).
  { rewrite R4. apply in_or_app. right. left. reflexivity. }
  destruct (K w1) as (K1 & l1 & K2 & K3).
  destruct (K (fst (invoke1 fn now w1))) as (J1 & l2 & J2 & J3).
  destruct Hpaths as [(L & T & E)|[(L & T & D & E)|[(L & T & D & E)|[(L & T & E)|
                 [(L & T & D & E)|(L & T & D & E)]]]]]; subst w'; unfold_world.
  - split; [exact L0|]. exists []. rewrite app_nil_r. split; [exact R3|intros x []].
  - split; [exact L0|]. exists []. rewrite app_nil_r. split; [exact R3|intros x []].
  - split; [rewrite K1; exact L0|]. exists l1. split; [rewrite K2, R3; reflexivity|exact K3].
  - split; [rewrite K1; exact L0|]. exists l1. split; [rewrite K2, R3; reflexivity|exact K3].
  - split; [rewrite K1; exact L0|]. exists l1. split; [rewrite K2, R3; reflexivity|exact K3].
  - split; [rewrite J1, K1; exact L0|]. exists (l1 ++ l2).
    split; [rewrite J2, K2, R3, app_assoc; reflexivity|].
    intros x Hx. apply in_app_or in Hx. destruct Hx; auto.
Qed.

Lemma per_call_signal_overrides_default_witness :
  let o := mkOptions 100 None None None None (Some 1%nat) in
  let w := abort 1%nat createDebouncedFunction in
  call_signal o [VStr "x"; VObject [("signal", VSignal 2%nat)]] = VSignal 2%nat
  /\ exists w' c,
       debounced o echo 1 VUndefined [VStr "x"; VObject [("signal", VSignal 2%nat)]] 0 w
         = Some (w', c)
       /\ In (2%nat, nextWaiter w) (listeners w')
       /\ exists later,
            settlements w' = settlements w ++ later
            /\ forall x, In x later -> s_payload x <> PAbortError.
Proof.
  cbv zeta.
  apply (per_call_signal_overrides_default (mkOptions 100 None None None None (Some 1%nat))
           echo 0 VUndefined [VStr "x"] [("signal", VSignal 2%nat)] 2%nat 0
           (abort 1%nat createDebouncedFunction) (fun _ _ => eq_refl) eq_refl eq_refl).
Defined.


(** X9.  A call whose signal is truthy but no AbortSignal (say a string
    under the [signal] key) has its promise rejected with the TypeError of
    the failed [addEventListener]; its waiter is registered before that, so
    the call is debounced like any other: the target runs after [wait]
    (within the host's timer range) on the call's arguments, and the waiter's resolve (or reject) is then
    called on the promise that is already rejected. *)
Theorem non_signal_option_rejects_but_runs (options : DebounceOptions) (fn : target)
    (fuel : nat) (t : Z) (allArgs : list value) (T : Z) :
  plain fn ->
  leading options = false -> trailing options = true ->
  maxWait options = Infinity -> 0 < wait options <= TIMEOUT_MAX ->
  truthy (call_signal options allArgs) = true ->
  (forall s, call_signal options allArgs <> VSignal s) ->
  truthy (get_property "aborted" (call_signal options allArgs)) = false ->
  t + wait options <= T ->
  exists w,
    run_until options fn (S fuel) [(t, Task [OpCall allArgs])] T createDebouncedFunction
      = Some w
    /\ invocations w = [mkInvocation (t + wait options) VUndefined (call_args allArgs)]
    /\ settlements w =
         mkSettlement 0%nat false PTypeError
         :: match result (fn VUndefined (call_args allArgs)) with
            | Returns v => [mkSettlement 0%nat true (PValue v)]
            | Throws e => [mkSettlement 0%nat false (PValue e)]
            | ReturnsPromise => []
            end.
Proof.
  intros Hp Hl Ht Hm [Hw Hfit] Htr Hns Hab HT. unfold run_until. cbn [run].
  rewrite (advance_idle options fn (S fuel) t createDebouncedFunction eq_refl).
  rewrite (call_arms_world options fn Hp fuel t allArgs createDebouncedFunction);
    [|rewrite Hl; reflexivity|exact Ht
     |rewrite (delay_first_call options t VUndefined allArgs Hm); exact Hw].
  rewrite (delay_first_call options t VUndefined allArgs Hm).
  rewrite (setTimeout_in_range (wait options) t Hw Hfit).
  pose proof (staged_frame options VUndefined allArgs t createDebouncedFunction) as S1.
  cbv zeta in S1. destruct S1 as (_ & S2 & S3 & _ & _ & S6 & S7 & _).
  assert (Ha : signal_aborted createDebouncedFunction (call_signal options allArgs) = false).
  { unfold signal_aborted. destruct (call_signal options allArgs); try reflexivity.
    exact Hab. }
  pose proof (staged_registered options VUndefined allArgs t createDebouncedFunction Ha) as R.
  cbv zeta in R. destruct R as (R1 & R2 & R3 & _).
  assert (Ex : executor_extra (call_signal options allArgs) 0%nat
               = [mkSettlement 0%nat false PTypeError]).
  { unfold executor_extra. destruct (call_signal options allArgs) eqn:E;
      try (rewrite Htr; reflexivity). exfalso. apply (Hns s). reflexivity. }
  cbn [nextWaiter createDebouncedFunction] in R1, R2, R3. rewrite Ex in R3.
  set (w1 := staged options VUndefined allArgs t createDebouncedFunction) in *. clearbody w1.
  set (wA := upd_vars (set_timerId (Some (t + wait options))) w1).
  assert (MA : microtasks wA = []) by exact S7.
  rewrite (run_microtasks_nil wA MA).
  rewrite (advance_due options fn Hp fuel T wA (t + wait options) eq_refl HT).
  eexists. split; [reflexivity|].
  pose proof (fire_outcome fn (t + wait options) wA MA) as F. cbv zeta in F.
  change (pendingArgs (vars wA)) with (pendingArgs (vars w1)) in F.
  change (pendingThis (vars wA)) with (pendingThis (vars w1)) in F.
  change (invocations wA) with (invocations w1) in F.
  change (settlements wA) with (settlements w1) in F.
  change (pendingResolves (vars wA)) with (pendingResolves (vars w1)) in F.
  change (pendingRejects (vars wA)) with (pendingRejects (vars w1)) in F.
  rewrite S2, S3, S6, R1, R2, R3 in F.
  destruct F as (F1 & _ & _ & _ & _ & _ & _ & F8).
  split; [exact F1|].
  destruct (result (fn VUndefined (call_args allArgs)));
    destruct F8 as (F8 & _); exact F8.
Qed.

Lemma non_signal_option_rejects_but_runs_witness :
  exists w,
    run_until (debounceExtend 100 noOptions) echo 1
      [(0, Task [OpCall [VStr "q"; VObject [("signal", VStr "strong")]]])] 100
      createDebouncedFunction = Some w
    /\ invocations w = [mkInvocation 100 VUndefined [VStr "q"]]
    /\ settlements w = [mkSettlement 0%nat false PTypeError;
                        mkSettlement 0%nat true (PValue (VStr "q"))].
Proof.
  apply (non_signal_option_rejects_but_runs (debounceExtend 100 noOptions) echo 0 0
           [VStr "q"; VObject [("signal", VStr "strong")]] 100
           (fun _ _ => eq_refl) eq_refl eq_refl eq_refl).
  - timer_range.
  - reflexivity.
  - intros s. discriminate.
  - reflexivity.
  - cbn. lia.
Defined.


Lemma typed_signal_quiet w sig p :
  abortedSignals w = [] -> signal_typed sig = true ->
  signal_aborted w sig = false /\ executor_extra sig p = [].
Proof.
  intros Ha Hty. unfold signal_aborted, executor_extra. rewrite Ha.
  destruct sig; try discriminate; split; reflexivity.
Qed.

Section PlainGather.
Variable options : DebounceOptions.
Variable fn : target.
Hypothesis fn_plain : plain fn.
Hypothesis Hstrategy : strategy options = Extend.
Hypothesis Hleading : leading options = false.
Hypothesis Htrailing : trailing options = true.
Hypothesis HnoMax : maxWait options = Infinity.
Hypothesis Hwait : 0 < wait options.
Hypothesis Hfit : wait options <= TIMEOUT_MAX.

Lemma gather_call fuel n t a w :
  (timerId (vars w) = None \/ exists due, timerId (vars w) = Some due /\ t < due) ->
  invocations w = [] -> gathered n w ->
  signal_typed (call_signal options a) = true ->
  exists w',
    run options fn (S fuel) [(t, Task [OpCall a])] w = Some w'
    /\ armed options [] t a w' /\ gathered (S n) w'.
Proof.
  intros Hti Hinv (G1 & G2 & G3 & G4 & G5 & G6 & G7) Hty. cbn [run].
  assert (Ha : advance options fn (S fuel) t w = Some w).
  { destruct Hti as [Hn|(due & Hs & Hlt)];
      [apply advance_idle; exact Hn|eapply advance_early; eauto]. }
  rewrite Ha.
  rewrite (call_arms_world options fn fn_plain fuel t a w);
    [|rewrite Hleading; apply andb_false_r|exact Htrailing
     |rewrite (delay_extend options Hstrategy HnoMax); exact Hwait].
  rewrite (delay_extend options Hstrategy HnoMax).
  rewrite (setTimeout_in_range (wait options) t Hwait Hfit).
  pose proof (staged_frame options VUndefined a t w) as S1. cbv zeta in S1.
  destruct S1 as (_ & S2 & S3 & _ & _ & S6 & S7 & S8 & S9 & S10).
  destruct (typed_signal_quiet w (call_signal options a) (nextWaiter w) G6 Hty) as [Q1 Q2].
  pose proof (staged_registered options VUndefined a t w Q1) as R. cbv zeta in R.
  rewrite Q2, app_nil_r in R. destruct R as (R1 & R2 & R3 & _).
  set (w1 := staged options VUndefined a t w) in *. clearbody w1.
  set (wA := upd_vars (set_timerId (Some (t + wait options))) w1).
  assert (MA : microtasks wA = []) by (unfold wA; unfold_world; congruence).
  rewrite (run_microtasks_nil wA MA). exists wA. split; [reflexivity|].
  unfold armed, gathered, wA. unfold_world.
  rewrite S2, S3, S6, S7, S8, S9, S10, R1, R2, R3, G1, G2, G3, G4, G5, G6, G7, Hinv.
  rewrite seq_S. repeat split; reflexivity.
Qed.

Lemma gather_burst fuel rest :
  forall n t a w,
    armed options [] t a w -> gathered n w ->
    spaced (wait options) t rest ->
    (forall c, In c rest -> signal_typed (call_signal options (snd c)) = true) ->
    exists w',
      run options fn (S fuel) (single_calls rest) w = Some w'
      /\ armed options [] (fst (last rest (t, a))) (snd (last rest (t, a))) w'
      /\ gathered (n + List.length rest) w'.
Proof.
  induction rest as [|[t1 a1] rest IH]; intros n t a w Hq Hg Hs Hty.
  - exists w. rewrite Nat.add_0_r. split; [reflexivity|]. split; assumption.
  - cbn [spaced fst] in Hs. destruct Hs as [Ht1 Hs].
    destruct Hq as (Q1 & Q2 & Q3 & Q4).
    destruct (gather_call fuel n t1 a1 w) as (w1 & Hr1 & Hq1 & Hg1).
    + right. exists (t + wait options). split; [exact Q1|lia].
    + exact Q4.
    + exact Hg.
    + apply (Hty (t1, a1)). left. reflexivity.
    + destruct (IH (S n) t1 a1 w1 Hq1 Hg1 Hs) as (w' & Hr & Hq' & Hg').
      { intros c Hc. apply Hty. right. exact Hc. }
      exists w'. split; [|split].
      * cbn [single_calls map fst snd].
        rewrite (run_cons options fn (S fuel) _ _ w w1 Hr1). exact Hr.
      * rewrite last_cons. exact Hq'.
      * cbn [List.length]. rewrite Nat.add_succ_r. exact Hg'.
Qed.
End PlainGather.

(** X8.  For a [wait] within the host's timer range, every caller of a
    burst gets the outcome of the burst's one invocation: when the target returns a value the waiters are resolved
    with it in the order of their calls, when it throws they are rejected
    with what it threw, and when it returns a promise they stay listed
    until that promise settles.  In each case the cycle is over. *)
Theorem burst_settles_every_caller (options : DebounceOptions) (fn : target) (fuel : nat)
    (first : Z * list value) (rest : list (Z * list value)) (T : Z) :
  plain fn ->
  strategy options = Extend ->
  leading options = false ->
  trailing options = true ->
  maxWait options = Infinity ->
  0 < wait options <= TIMEOUT_MAX ->
  spaced (wait options) (fst first) rest ->
  (forall c, In c (first :: rest) -> signal_typed (call_signal options (snd c)) = true) ->
  fst (last rest first) + wait options <= T ->
  exists w,
    run_until options fn (S fuel) (single_calls (first :: rest)) T createDebouncedFunction
      = Some w
    /\ pending w = false
    /\ pendingResolves (vars w) =
         match result (fn VUndefined (call_args (snd (last rest first)))) with
         | ReturnsPromise => seq 0 (S (List.length rest))
         | _ => []
         end
    /\ settlements w =
         match result (fn VUndefined (call_args (snd (last rest first)))) with
         | Returns v =>
             map (fun k => mkSettlement k true (PValue v)) (seq 0 (S (List.length rest)))
         | Throws e =>
             map (fun k => mkSettlement k false (PValue e)) (seq 0 (S (List.length rest)))
         | ReturnsPromise => []
         end.
Proof.
  intros Hp Hs Hl Ht Hm [Hw Hfit] Hsp Hty HT. destruct first as [t0 a0]. cbn [fst] in Hsp.
  unfold run_until. cbn [single_calls map fst snd].
  destruct (gather_call options fn Hp Hs Hl Ht Hm Hw Hfit fuel 0 t0 a0 createDebouncedFunction)
    as (w1 & Hr1 & Hq1 & Hg1).
  { left. reflexivity. }
  { reflexivity. }
  { repeat split. }
  { apply (Hty (t0, a0)). left. reflexivity. }
  rewrite (run_cons options fn (S fuel) _ _ createDebouncedFunction w1 Hr1).
  destruct (gather_burst options fn Hp Hs Hl Ht Hm Hw Hfit fuel rest 1 t0 a0 w1 Hq1 Hg1 Hsp)
    as (w2 & Hr2 & (Q1 & Q2 & Q3 & Q4) & (G1 & G2 & G3 & G4 & G5 & G6 & G7)).
  { intros c Hc. apply Hty. right. exact Hc. }
  fold (single_calls rest). rewrite Hr2.
  rewrite (advance_due options fn Hp fuel T w2 _ Q1 HT).
  eexists. split; [reflexivity|].
  pose proof (fire_outcome fn (fst (last rest (t0, a0)) + wait options) w2 G4) as F.
  cbv zeta in F. rewrite Q2, Q3, G1, G2, G3 in F. cbn [Nat.add] in F.
  destruct F as (_ & F2 & F3 & _ & _ & _ & _ & F8).
  split; [unfold pending; rewrite F2, F3; reflexivity|].
  destruct (result (fn VUndefined (call_args (snd (last rest (t0, a0))))));
    destruct F8 as (F8 & F9 & _); split; assumption.
Qed.

Lemma burst_settles_every_caller_witness :
  exists w,
    run_until (debounceExtend 50 noOptions) echo 1
      (single_calls [(0, [VStr "a"]); (20, [VStr "b"]); (60, [VStr "c"])]) 500
      createDebouncedFunction = Some w
    /\ pending w = false
    /\ pendingResolves (vars w) = []
    /\ settlements w = [mkSettlement 0%nat true (PValue (VStr "c"));
                        mkSettlement 1%nat true (PValue (VStr "c"));
                        mkSettlement 2%nat true (PValue (VStr "c"))].
Proof.
  apply (burst_settles_every_caller (debounceExtend 50 noOptions) echo 0
           (0, [VStr "a"]) [(20, [VStr "b"]); (60, [VStr "c"])] 500
           (fun _ _ => eq_refl) eq_refl eq_refl eq_refl eq_refl).
  - timer_range.
  - cbn. lia.
  - intros c [<-|[<-|[<-|[]]]]; reflexivity.
  - cbn. lia.
Defined.


(** ** A wait that is used up at once *)

Lemma delay_used_up options t a w :
  idle w = true ->
  wait options = 0 \/ maxWait options = Fin 0 ->
  delay options t (staged options VUndefined a t w) <= 0.
Proof.
  intros Hi Hz. pose proof (staged_frame options VUndefined a t w) as S1.
  cbv zeta in S1. rewrite Hi in S1. destruct S1 as (_ & _ & _ & S4 & S5 & _).
  unfold delay. rewrite S4, S5.
  destruct Hz as [Hz|Hz]; rewrite Hz;
    destruct (strategy options); try destruct (maxWait options);
    cbn [min_delay]; lia.
Qed.

Lemma zero_wait_run options fn fuel calls :
  plain fn -> leading options = false -> trailing options = true ->
  wait options = 0 \/ maxWait options = Fin 0 ->
  forall w, idle w = true ->
  exists w',
    run options fn (S fuel) (single_calls calls) w = Some w'
    /\ idle w' = true
    /\ invocations w' =
         invocations w
         ++ map (fun c => mkInvocation (fst c) VUndefined (call_args (snd c))) calls.
Proof.
  intros Hp Hl Ht Hz. induction calls as [|[t a] calls IH]; intros w Hi.
  - exists w. cbn. rewrite app_nil_r. auto.
  - cbn [single_calls map run fst snd].
    assert (Hti : timerId (vars w) = None).
    { unfold idle in Hi. apply andb_prop in Hi. destruct Hi as [_ Hi].
      destruct (timerId (vars w)); [discriminate|reflexivity]. }
    rewrite (advance_idle options fn (S fuel) t w Hti).
    destruct (call_invokes options fn Hp fuel t a w) as (w1 & Hr & C1 & C2 & C3).
    + rewrite Hl. apply andb_false_r.
    + exact Ht.
    + apply delay_used_up; assumption.
    + rewrite Hr.
      assert (Hi1 : idle w1 = true) by (unfold idle; rewrite C1, C2; reflexivity).
      destruct (IH w1 Hi1) as (w' & Hr' & Hi' & Hinv).
      exists w'. split; [exact Hr'|]. split; [exact Hi'|].
      rewrite Hinv, C3, <- app_assoc. reflexivity.
Qed.

(** X7.  A [wait] of zero or less, or a [maxWait] of zero or less, leaves
    no delay to wait for: on the trailing edge every call then runs the
    target within the call, on its own arguments, and no timer is armed. *)
Theorem zero_wait_runs_every_call (options : DebounceOptions) (fn : target) (fuel : nat)
    (calls : list (Z * list value)) :
  plain fn -> leading options = false -> trailing options = true ->
  wait options = 0 \/ maxWait options = Fin 0 ->
  exists w,
    run options fn (S fuel) (single_calls calls) createDebouncedFunction = Some w
    /\ invocations w =
         map (fun c => mkInvocation (fst c) VUndefined (call_args (snd c))) calls
    /\ pending w = false.
Proof.
  intros Hp Hl Ht Hz.
  destruct (zero_wait_run options fn fuel calls Hp Hl Ht Hz createDebouncedFunction eq_refl)
    as (w & Hr & Hi & Hinv).
  exists w. split; [exact Hr|]. split; [exact Hinv|].
  unfold idle in Hi. unfold pending.
  destruct (pendingArgs (vars w)); [discriminate|].
  destruct (timerId (vars w)); [discriminate|reflexivity].
Qed.

Lemma zero_wait_runs_every_call_witness :
  exists w,
    run (debounceExtend (-5) noOptions) echo 1
      (single_calls [(0, [VStr "a"]); (0, [VStr "b"])]) createDebouncedFunction = Some w
    /\ invocations w =
         [mkInvocation 0 VUndefined [VStr "a"]; mkInvocation 0 VUndefined [VStr "b"]]
    /\ pending w = false.
Proof.
  apply (zero_wait_runs_every_call (debounceExtend (-5) noOptions) echo 0
           [(0, [VStr "a"]); (0, [VStr "b"])] (fun _ _ => eq_refl) eq_refl eq_refl).
  left. reflexivity.
Defined.

(** ** Both edges disabled *)

Lemma abort_same_cycle s w : same_cycle w (abort s w).
Proof.
  unfold abort. destruct (existsb _ _); [apply same_cycle_refl|].
  match goal with |- same_cycle _ (fold_left _ ?m ?w0) =>
    pose proof (abort_fold m w0) as F end.
  cbv zeta in F. destruct F as (F & _).
  refine (same_cycle_trans _ _ _ _ F). repeat split.
Qed.

Lemma debounced_no_edges options inv this allArgs now w :
  leading options = false -> trailing options = false ->
  debounced_with options inv this allArgs now w
  = Some (staged options this allArgs now w, Normal (RetWaiter (nextWaiter w))).
Proof.
  intros Hl Ht.
  unfold debounced_with, staged, call_args, call_signal.
  destruct (split_call allArgs) as [args cs]. cbn [fst snd].
  rewrite Hl, Ht, andb_false_r.
  destruct (negb (is_some (pendingArgs (vars w))) && negb (is_some (timerId (vars w))));
    reflexivity.
Qed.

Section NoEdges.
Variable options : DebounceOptions.
Variable fn : target.
Hypothesis Hleading : leading options = false.
Hypothesis Htrailing : trailing options = false.

Lemma exec_ops_no_edges inv now ops :
  forallb flushless ops = true ->
  forall w, timerId (vars w) = None ->
  exists w',
    exec_ops options inv now ops w = Some (w', Normal tt)
    /\ invocations w' = invocations w /\ timerId (vars w') = None
    /\ microtasks w' = microtasks w.
Proof.
  induction ops as [|o ops IH]; intros Hf w Hti.
  - exists w. auto.
  - cbn [forallb] in Hf. apply andb_prop in Hf. destruct Hf as [Ho Hf].
    cbn [exec_ops].
    assert (S1 : exists w1, exec_op options inv now o w = Some (w1, Normal tt)
                            /\ invocations w1 = invocations w
                            /\ timerId (vars w1) = None
                            /\ microtasks w1 = microtasks w).
    { destruct o as [a| | |s]; cbn [exec_op]; try discriminate.
      - rewrite (debounced_no_edges options inv VUndefined a now w Hleading Htrailing).
        eexists. split; [reflexivity|].
        pose proof (staged_frame options VUndefined a now w) as F. cbv zeta in F.
        destruct F as (F1 & _ & _ & _ & _ & F6 & F7 & _). rewrite F1, F6, F7. auto.
      - eexists. split; [reflexivity|].
        destruct (cancel_spec w) as (C1 & _ & _ & C4 & _). cbv zeta in *.
        split; [exact C4|]. split; [exact C1|].
        unfold cancel. unfold_world. destruct (pendingRejects (vars w)); reflexivity.
      - eexists. split; [reflexivity|].
        destruct (abort_same_cycle s w) as (A1 & _ & _ & _ & _ & A6).
        split; [exact A6|]. split; [congruence|].
        unfold abort. destruct (existsb _ _); [reflexivity|].
        match goal with |- microtasks (fold_left _ ?m ?w0) = _ =>
          change (microtasks w) with (microtasks w0); generalize w0; generalize m end.
        induction l as [|x l IHl]; intros w0; cbn [fold_left]; [reflexivity|].
        rewrite IHl. unfold onAbort.
        destruct (indexOf _ _); destruct (negb _); reflexivity. }
    destruct S1 as (w1 & E1 & I1 & T1 & M1). rewrite E1.
    destruct (IH Hf w1 T1) as (w' & E' & I' & T' & M').
    exists w'. split; [exact E'|]. repeat split; congruence.
Qed.

Lemma run_no_edges fuel trace :
  forallb (fun e => event_flushless (snd e)) trace = true ->
  forall w, timerId (vars w) = None ->
  exists w',
    run options fn fuel trace w = Some w'
    /\ invocations w' = invocations w /\ timerId (vars w') = None.
Proof.
  induction trace as [|[t e] trace IH]; intros Hf w Hti.
  - exists w. auto.
  - cbn [forallb snd] in Hf. apply andb_prop in Hf. destruct Hf as [He Hf].
    cbn [run]. rewrite (advance_idle options fn fuel t w Hti).
    assert (S1 : exists w1, run_event options fn fuel t e w = Some w1
                            /\ invocations w1 = invocations w
                            /\ timerId (vars w1) = None).
    { destruct e as [ops|ok v]; cbn [run_event event_flushless] in *.
      - destruct (exec_ops_no_edges (invoke options fn fuel) t ops He w Hti)
          as (w1 & E1 & I1 & T1 & _).
        rewrite E1. cbn [drop option_map]. eexists. split; [reflexivity|].
        destruct (run_microtasks_same_cycle w1) as (R1 & _ & _ & _ & _ & R6).
        split; congruence.
      - destruct (inflight w); eexists; (split; [reflexivity|]); unfold_world; auto. }
    destruct S1 as (w1 & E1 & I1 & T1). rewrite E1.
    destruct (IH Hf w1 T1) as (w' & E' & I' & T').
    exists w'. split; [exact E'|]. split; congruence.
Qed.
End NoEdges.

(** X10.  With [leading] and [trailing] both false, calls, [cancel()] and
    firing signals never run the target and never arm a timer, whatever the
    target is and however long one waits; only [flush()] can run it. *)
Theorem no_edges_never_runs_target (options : DebounceOptions) (fn : target) (fuel : nat)
    (trace : list (Z * event)) (T : Z) :
  leading options = false -> trailing options = false ->
  forallb (fun e => event_flushless (snd e)) trace = true ->
  exists w,
    run_until options fn fuel trace T createDebouncedFunction = Some w
    /\ invocations w = []
    /\ timerId (vars w) = None.
Proof.
  intros Hl Ht Hf. unfold run_until.
  destruct (run_no_edges options fn Hl Ht fuel trace Hf createDebouncedFunction eq_refl)
    as (w & Hr & Hi & Hti).
  rewrite Hr. rewrite (advance_idle options fn fuel T w Hti).
  exists w. auto.
Qed.

Lemma no_edges_never_runs_target_witness :
  exists w,
    run_until (mkOptions 100 None (Some false) None None None) reenter 0
      [(0, Task [call1 "a"; call1 "b"]); (50, Task [OpCancel; call1 "a"; OpAbort 3%nat])]
      1000 createDebouncedFunction = Some w
    /\ invocations w = []
    /\ timerId (vars w) = None.
Proof.
  apply (no_edges_never_runs_target (mkOptions 100 None (Some false) None None None)
           reenter 0 _ 1000); reflexivity.
Defined.


Lemma traced_more seen c w :
  timerId (vars w) = None -> traced seen w -> traced (seen ++ [c]) w.
Proof.
  intros Hti (J1 & J2 & J3). unfold traced. rewrite Hti in *.
  rewrite length_app. cbn [List.length]. split; [lia|]. split.
  - intros i Hi. destruct (J2 i Hi) as (A & c0 & B & C).
    split; [exact A|]. exists c0. split; [apply in_or_app; left; exact B|exact C].
  - intros due H. discriminate.
Qed.

Section PlainTraced.
Variable options : DebounceOptions.
Variable fn : target.
Hypothesis fn_plain : plain fn.
Hypothesis Hleading : leading options = false.

Lemma traced_invoke seen now w c :
  (List.length (invocations w) < List.length seen)%nat ->
  (forall i, In i (invocations w) ->
        inv_this i = VUndefined
        /\ exists c, In c seen /\ inv_args i = call_args (snd c) /\ fst c <= inv_time i) ->
  In c seen -> pendingArgs (vars w) = Some (call_args (snd c)) ->
  pendingThis (vars w) = VUndefined -> fst c <= now ->
  traced seen (run_microtasks (fst (invoke1 fn now w))).
Proof.
  intros Hlen Hall Hc Ha Hth Hle.
  pose proof (invoke1_shape fn now w) as I. cbv zeta in I. rewrite Ha, Hth in I.
  destruct I as (I1 & _ & _ & _ & _ & I6 & _).
  destruct (run_microtasks_same_cycle (fst (invoke1 fn now w))) as (R1 & _ & _ & _ & _ & R6).
  unfold traced. rewrite R1, R6, I1, I6, length_app. cbn [List.length].
  split; [lia|]. split; [|intros due H; discriminate].
  intros i Hi. apply in_app_or in Hi. destruct Hi as [Hi|[<-|[]]]; [auto|].
  cbn [inv_this inv_args inv_time]. split; [reflexivity|]. exists c. auto.
Qed.

Lemma traced_advance fuel seen T w :
  traced seen w ->
  exists w',
    advance options fn (S fuel) T w = Some w'
    /\ traced seen w'
    /\ (forall due, timerId (vars w') = Some due -> T < due).
Proof.
  intros J. destruct (timerId (vars w)) as [due|] eqn:Hti.
  - destruct (Z_le_gt_dec due T) as [Hle|Hgt].
    + rewrite (advance_due options fn fn_plain fuel T w due Hti Hle).
      eexists. split; [reflexivity|].
      destruct J as (J1 & J2 & J3). rewrite Hti in J1.
      destruct (J3 due Hti) as (c & C1 & C2 & C3 & C4).
      split.
      * apply (traced_invoke seen due w c); auto; lia.
      * intros d H.
        pose proof (invoke1_shape fn due w) as I. cbv zeta in I.
        destruct I as (I1 & _).
        destruct (run_microtasks_same_cycle (fst (invoke1 fn due w))) as (R1 & _).
        rewrite R1, I1 in H. discriminate.
    + rewrite (advance_early options fn (S fuel) T w due Hti) by lia.
      exists w. split; [reflexivity|]. split; [exact J|].
      intros d H. rewrite Hti in H. injection H as <-. lia.
  - rewrite (advance_idle options fn (S fuel) T w Hti).
    exists w. split; [reflexivity|]. split; [exact J|].
    intros d H. rewrite Hti in H. discriminate.
Qed.

Lemma traced_call fuel seen t a w :
  traced seen w ->
  (forall due, timerId (vars w) = Some due -> t < due) ->
  exists w',
    run_event options fn (S fuel) t (Task [OpCall a]) w = Some w'
    /\ traced (seen ++ [(t, a)]) w'.
Proof.
  intros (J1 & J2 & J3) Hlate.
  destruct (debounced_paths options fn fn_plain fuel VUndefined a t w)
    as (w1 & c & Hd & Hp).
  rewrite (run_call options fn fuel t a w w1 c Hd). cbv zeta in Hp.
  rewrite Hleading, andb_false_r in Hp.
  eexists. split; [reflexivity|].
  pose proof (staged_frame options VUndefined a t w) as S1. cbv zeta in S1.
  destruct S1 as (S1 & S2 & S3 & _ & _ & S6 & _).
  assert (Hlen : (List.length (invocations w) <= List.length seen)%nat) by lia.
  assert (Hall : forall i, In i (invocations w) ->
            inv_this i = VUndefined
            /\ exists c, In c (seen ++ [(t, a)]) /\ inv_args i = call_args (snd c)
                         /\ fst c <= inv_time i).
  { intros i Hi. destruct (J2 i Hi) as (A & c0 & B & C).
    split; [exact A|]. exists c0. split; [apply in_or_app; left; exact B|exact C]. }
  assert (Hin : In (t, a) (seen ++ [(t, a)])) by (apply in_or_app; right; left; reflexivity).
  destruct Hp as [(_ & T & E)|[(_ & T & D & E)|[(_ & T & D & E)|[(L & _)|[(L & _)|(L & _)]]]]];
    try discriminate.
  - (* no trailing edge: the call is only staged *)
    subst w1.
    destruct (run_microtasks_same_cycle (staged options VUndefined a t w))
      as (R1 & R2 & R3 & _ & _ & R6).
    unfold traced. rewrite R1, R2, R3, R6, S1, S2, S3, S6, length_app. cbn [List.length].
    split; [lia|]. split; [exact Hall|].
    intros due H. exists (t, a). cbn [fst snd]. auto.
  - (* the timer is armed anew *)
    subst w1.
    match goal with |- traced _ (run_microtasks ?x) =>
      destruct (run_microtasks_same_cycle x) as (R1 & R2 & R3 & _ & _ & R6) end.
    unfold traced. rewrite R1, R2, R3, R6. unfold_world.
    rewrite S2, S3, S6, length_app. cbn [List.length].
    split; [lia|]. split; [exact Hall|].
    intros due H. injection H as <-. exists (t, a). cbn [fst snd].
    pose proof (setTimeout_bounds _ t D).
    repeat split; auto; lia.
  - (* the delay is used up: the target runs within the call *)
    subst w1. apply (traced_invoke (seen ++ [(t, a)]) t _ (t, a)); cbn [fst snd]; auto.
    + rewrite S6, length_app. cbn [List.length]. lia.
    + rewrite S6. exact Hall.
    + lia.
Qed.

Lemma traced_run fuel calls :
  forall seen w,
    traced seen w ->
    exists w',
      run options fn (S fuel) (single_calls calls) w = Some w'
      /\ traced (seen ++ calls) w'.
Proof.
  induction calls as [|[t a] calls IH]; intros seen w J.
  - exists w. rewrite app_nil_r. auto.
  - cbn [single_calls map run fst snd].
    destruct (traced_advance fuel seen t w J) as (w1 & E1 & J1 & L1). rewrite E1.
    destruct (traced_call fuel seen t a w1 J1 L1) as (w2 & E2 & J2). rewrite E2.
    destruct (IH (seen ++ [(t, a)]) w2 J2) as (w' & E' & J').
    exists w'. split; [exact E'|]. rewrite <- app_assoc in J'. exact J'.
Qed.
End PlainTraced.

(** X11.  Without the leading edge, for any times of the calls and any
    [wait], [maxWait] and strategy, the target runs at most once per call,
    each run is on the arguments of one of the calls made, and no run comes
    before the call whose arguments it uses.  The calls of a trace are plain
    function calls, with [this] undefined, and so is [this] in every run. *)
Theorem runs_come_from_calls (options : DebounceOptions) (fn : target) (fuel : nat)
    (calls : list (Z * list value)) (T : Z) :
  plain fn -> leading options = false ->
  exists w,
    run_until options fn (S fuel) (single_calls calls) T createDebouncedFunction = Some w
    /\ (List.length (invocations w) <= List.length calls)%nat
    /\ forall i, In i (invocations w) ->
         inv_this i = VUndefined
         /\ exists c, In c calls /\ inv_args i = call_args (snd c) /\ fst c <= inv_time i.
Proof.
  intros Hp Hl. unfold run_until.
  assert (J0 : traced [] createDebouncedFunction).
  { unfold traced. cbn. split; [lia|]. split; [intros i []|intros d H; discriminate]. }
  destruct (traced_run options fn Hp Hl fuel calls [] createDebouncedFunction J0)
    as (w1 & E1 & J1).
  rewrite E1. cbn [app] in J1.
  destruct (traced_advance options fn Hp fuel calls T w1 J1) as (w & E & (A & B & _) & _).
  exists w. split; [exact E|]. split; [lia|exact B].
Qed.

Lemma runs_come_from_calls_witness :
  exists w,
    run_until streamOptions echo 1 (single_calls stream) 5000 createDebouncedFunction
      = Some w
    /\ (List.length (invocations w) <= List.length stream)%nat
    /\ forall i, In i (invocations w) ->
         inv_this i = VUndefined
         /\ exists c, In c stream /\ inv_args i = call_args (snd c) /\ fst c <= inv_time i.
Proof.
  apply (runs_come_from_calls streamOptions echo 0 stream 5000 (fun _ _ => eq_refl)).
  reflexivity.
Defined.


Section PlainOpenCycle.
Variable options : DebounceOptions.
Variable fn : target.
Hypothesis fn_plain : plain fn.
Hypothesis Hstrategy : strategy options = Extend.
Hypothesis Htrailing : trailing options = true.
Hypothesis HnoMax : maxWait options = Infinity.
Hypothesis Hwait : 0 < wait options.
Hypothesis Hfit : wait options <= TIMEOUT_MAX.

(** A call while the timer is armed: whatever [leading] says, the call only
    stages its arguments and re-arms the timer. *)
Lemma open_call fuel inv t a w due :
  timerId (vars w) = Some due -> t < due -> invocations w = inv ->
  exists w',
    run options fn (S fuel) [(t, Task [OpCall a])] w = Some w' /\ armed options inv t a w'.
Proof.
  intros Hti Hlt Hinv. cbn [run].
  rewrite (advance_early options fn (S fuel) t w due Hti Hlt).
  assert (Hi : idle w = false).
  { unfold idle. rewrite Hti. apply andb_false_r. }
  destruct (call_arms options fn fn_plain fuel t a w) as (w' & Hr & A1 & A2 & A3 & _ & _ & A6).
  - rewrite Hi. reflexivity.
  - exact Htrailing.
  - rewrite (delay_extend options Hstrategy HnoMax). split; [exact Hwait|exact Hfit].
  - rewrite Hr. exists w'. split; [reflexivity|].
    rewrite (delay_extend options Hstrategy HnoMax) in A1.
    unfold armed. repeat split; congruence.
Qed.

Lemma open_burst fuel inv rest :
  forall t a w,
    armed options inv t a w -> spaced (wait options) t rest ->
    exists w',
      run options fn (S fuel) (single_calls rest) w = Some w'
      /\ armed options inv (fst (last rest (t, a))) (snd (last rest (t, a))) w'.
Proof.
  induction rest as [|[t1 a1] rest IH]; intros t a w Hq Hs.
  - exists w. split; [reflexivity|exact Hq].
  - cbn [spaced fst] in Hs. destruct Hs as [Ht1 Hs].
    destruct Hq as (Q1 & Q2 & Q3 & Q4).
    destruct (open_call fuel inv t1 a1 w (t + wait options) Q1) as (w1 & Hr1 & Hq1);
      [lia|exact Q4|].
    destruct (IH t1 a1 w1 Hq1 Hs) as (w' & Hr & Hq').
    exists w'. split.
    + cbn [single_calls map fst snd].
      rewrite (run_cons options fn (S fuel) _ _ w w1 Hr1). exact Hr.
    + rewrite last_cons. exact Hq'.
Qed.
End PlainOpenCycle.

(** X6.  With both edges enabled under [extend] and a [wait] within the
    host's timer range, a burst of two or more calls runs the target twice:
    at once on the first call's arguments, and [wait] ms after the last call
    on the last call's arguments.  The calls in between only re-arm the
    timer. *)
Theorem both_edges_burst (options : DebounceOptions) (fn : target) (fuel : nat)
    (first second : Z * list value) (rest : list (Z * list value)) (T : Z) :
  plain fn ->
  strategy options = Extend ->
  leading options = true -> trailing options = true ->
  maxWait options = Infinity ->
  wait options <= TIMEOUT_MAX ->
  (forall e, result (fn VUndefined (call_args (snd first))) <> Throws e) ->
  spaced (wait options) (fst first) (second :: rest) ->
  fst (last rest second) <= T ->
  exists w,
    run_until options fn (S fuel) (single_calls (first :: second :: rest)) T
      createDebouncedFunction = Some w
    /\ invocations w =
         mkInvocation (fst first) VUndefined (call_args (snd first))
         :: if T <? fst (last rest second) + wait options then []
            else [mkInvocation (fst (last rest second) + wait options) VUndefined
                               (call_args (snd (last rest second)))].
Proof.
  intros Hp Hs Hl Ht Hm Hfit Hok Hsp HT.
  destruct first as [t0 a0]. destruct second as [t1 a1]. cbn [fst snd] in *.
  cbn [spaced fst] in Hsp. destruct Hsp as [Ht1 Hsp]. assert (Hw : 0 < wait options) by lia.
  unfold run_until. cbn [single_calls map fst snd].
  (* the first call: the leading edge, then the timer *)
  assert (F : exists w1,
             run options fn (S fuel) [(t0, Task [OpCall a0])] createDebouncedFunction = Some w1
             /\ timerId (vars w1) = Some (t0 + wait options)
             /\ invocations w1 = [mkInvocation t0 VUndefined (call_args a0)]).
  { cbn [run].
    rewrite (advance_idle options fn (S fuel) t0 createDebouncedFunction eq_refl).
    rewrite (call_leads_world options fn Hp fuel t0 a0 createDebouncedFunction);
      [|rewrite Hl; reflexivity|exact Ht
       |rewrite (delay_first_call options t0 VUndefined a0 Hm); exact Hw].
    rewrite (delay_first_call options t0 VUndefined a0 Hm).
    rewrite (setTimeout_in_range (wait options) t0 Hw Hfit).
    pose proof (staged_frame options VUndefined a0 t0 createDebouncedFunction) as S1.
    cbv zeta in S1. destruct S1 as (_ & S2 & S3 & _ & _ & S6 & _).
    set (w1 := staged options VUndefined a0 t0 createDebouncedFunction) in *.
    pose proof (invoke1_shape fn t0 w1) as I. cbv zeta in I. rewrite S2, S3, S6 in I.
    destruct I as (_ & _ & _ & _ & _ & I6 & _).
    rewrite (invoke1_completion fn t0 w1), S2, S3.
    set (w2 := fst (invoke1 fn t0 w1)) in *. clearbody w2.
    destruct (result (fn VUndefined (call_args a0))) as [v|e|] eqn:Er;
      [|exfalso; exact (Hok e eq_refl)|];
      (eexists; split; [reflexivity|];
       match goal with |- context [run_microtasks ?x] =>
         destruct (run_microtasks_same_cycle x) as (R1 & _ & _ & _ & _ & R6) end;
       rewrite R1, R6; unfold_world; auto). }
  destruct F as (w1 & Hr1 & T1 & I1).
  rewrite (run_cons options fn (S fuel) _ _ createDebouncedFunction w1 Hr1).
  assert (Hlt : t1 < t0 + wait options) by lia.
  destruct (open_call options fn Hp Hs Ht Hm Hw Hfit fuel _ t1 a1 w1 _ T1 Hlt I1)
    as (w2 & Hr2 & Hq2).
  rewrite (run_cons options fn (S fuel) _ _ w1 w2 Hr2).
  destruct (open_burst options fn Hp Hs Ht Hm Hw Hfit fuel _ rest t1 a1 w2 Hq2 Hsp)
    as (w3 & Hr3 & Q1 & Q2 & Q3 & Q4).
  fold (single_calls rest). rewrite Hr3.
  destruct (T <? fst (last rest (t1, a1)) + wait options) eqn:E.
  - apply Z.ltb_lt in E. exists w3. split; [|exact Q4].
    eapply advance_early; eauto.
  - apply Z.ltb_ge in E.
    destruct (timer_fires options fn Hp fuel T w3 _ _ VUndefined Q1 E Q2 Q3)
      as (w4 & Ha & _ & _ & Hinv).
    exists w4. split; [exact Ha|]. rewrite Hinv, Q4. reflexivity.
Qed.

Lemma both_edges_burst_witness :
  exists w,
    run_until (mkOptions 100 (Some true) None None None None) echo 1
      (single_calls [(0, [VStr "a"]); (50, [VStr "b"]); (120, [VStr "c"])]) 300
      createDebouncedFunction = Some w
    /\ invocations w =
         [mkInvocation 0 VUndefined [VStr "a"]; mkInvocation 220 VUndefined [VStr "c"]].
Proof.
  apply (both_edges_burst (mkOptions 100 (Some true) None None None None) echo 0
           (0, [VStr "a"]) (50, [VStr "b"]) [(120, [VStr "c"])] 300
           (fun _ _ => eq_refl) eq_refl eq_refl eq_refl eq_refl).
  - timer_range.
  - intros e. discriminate.
  - cbn. lia.
  - cbn. lia.
Defined.

(** X12.  With a finite [maxWait], and [wait] or [maxWait] within the
    host's timer range, the timer of a cycle is due at the strategy's time
    or at [maxWait] after the cycle's first call, whichever comes first: in
    any cycle, whatever earlier cycles left behind, a burst whose calls all
    come before the timer then armed is served once, at that time, on the
    last call's arguments. *)
Theorem ceiling_cuts_the_wait (options : DebounceOptions) (fn : target) (fuel : nat)
    (m : Z) (w0 : world) (first : Z * list value) (rest : list (Z * list value)) (T : Z) :
  plain fn ->
  leading options = false -> trailing options = true ->
  maxWait options = Fin m -> 0 < wait options -> 0 < m ->
  Z.min (wait options) m <= TIMEOUT_MAX ->
  idle w0 = true ->
  beforeDue options (fst first) m (fst first) rest ->
  fst (last rest first) <= T ->
  exists w,
    run_until options fn (S fuel) (single_calls (first :: rest)) T w0 = Some w
    /\ invocations w =
         invocations w0
         ++ if T <? dueTime options (fst first) m (fst (last rest first)) then []
            else [mkInvocation (dueTime options (fst first) m (fst (last rest first)))
                               VUndefined (call_args (snd (last rest first)))].
Proof.
  intros Hp Hl Ht Hmax Hw Hm Hfit Hi0 Hb HT. destruct first as [t0 a0]. cbn [fst snd] in *.
  assert (Hti : timerId (vars w0) = None).
  { unfold idle in Hi0. apply andb_prop in Hi0. destruct Hi0 as [_ Hi0].
    destruct (timerId (vars w0)); [discriminate|reflexivity]. }
  unfold run_until. cbn [single_calls map run fst snd].
  rewrite (advance_idle options fn (S fuel) t0 w0 Hti).
  pose proof (staged_frame options VUndefined a0 t0 w0) as S1.
  cbv zeta in S1. rewrite Hi0 in S1. destruct S1 as (_ & _ & _ & S4 & S5 & _).
  destruct (capped_call options fn m Hp Ht Hmax Hw Hfit fuel (invocations w0) t0 t0 a0 w0)
    as (w1 & Hr1 & Hq1).
  - rewrite Hl. apply andb_false_r.
  - exact S4.
  - rewrite S5. destruct (strategy options); reflexivity.
  - unfold dueTime. destruct (strategy options); lia.
  - reflexivity.
  - rewrite Hr1.
    destruct (capped_burst options fn m Hp Ht Hmax Hw Hfit fuel (invocations w0) t0 rest
                t0 a0 w1 Hq1 (Z.le_refl t0) Hb)
      as (w2 & Hr2 & Q1 & Q2 & Q3 & Q4 & Q5 & Q6).
    fold (single_calls rest). rewrite Hr2.
    destruct (T <? dueTime options t0 m (fst (last rest (t0, a0)))) eqn:E.
    + apply Z.ltb_lt in E. exists w2. split; [|rewrite app_nil_r; exact Q6].
      eapply advance_early; eauto.
    + apply Z.ltb_ge in E.
      destruct (timer_fires options fn Hp fuel T w2 _ _ VUndefined Q3 E Q4 Q5)
        as (w3 & Ha & _ & _ & Hinv).
      exists w3. split; [exact Ha|]. rewrite Hinv, Q6. reflexivity.
Qed.

Lemma ceiling_cuts_the_wait_witness :
  exists w,
    run_until (debounceExtend 300 (mkOptions 0 None None (Some (Fin 500)) None None)) echo 1
      (single_calls [(0, [VStr "a"]); (200, [VStr "b"]); (400, [VStr "c"])]) 1000
      createDebouncedFunction = Some w
    /\ invocations w = [mkInvocation 500 VUndefined [VStr "c"]].
Proof.
  apply (ceiling_cuts_the_wait
           (debounceExtend 300 (mkOptions 0 None None (Some (Fin 500)) None None)) echo 0
           500 createDebouncedFunction
           (0, [VStr "a"]) [(200, [VStr "b"]); (400, [VStr "c"])] 1000
           (fun _ _ => eq_refl) eq_refl eq_refl eq_refl eq_refl eq_refl).
  - timer_range.
  - reflexivity.
  - cbn. lia.
  - cbn. lia.
Defined.



Section LegacyHost.
Import Legacy.
Variable minDelay : Z.

Lemma legacy_advance_none T m : timeouts m = [] -> advance T m = m.
Proof. intros H. unfold advance. rewrite H. reflexivity. Qed.

Lemma legacy_advance_early T m t :
  timeouts m = [t] -> T < due t -> advance T m = m.
Proof.
  intros H Hlt. unfold advance. rewrite H. cbn [List.length advance_loop].
  rewrite H. cbn [earliest].
  replace (due t <=? T) with false by (symmetry; apply Z.leb_gt; lia). reflexivity.
Qed.

Lemma legacy_advance_due T m t :
  timeouts m = [t] -> due t <= T ->
  advance T m =
    onTimeout t (mkModule (ref m) (lastTime m) [] (nextId m) (runs m)).
Proof.
  intros H Hle. unfold advance. rewrite H. cbn [List.length advance_loop].
  rewrite H. cbn [earliest].
  replace (due t <=? T) with true by (symmetry; apply Z.leb_le; lia).
  unfold clearTimeout. rewrite H. cbn [filter]. rewrite Nat.eqb_refl. reflexivity.
Qed.

(** A call of [UserTypedDebounce] when at most the timeout in [ref] is set. *)
Lemma UserTyped_call f d now m :
  inRange d = true ->
  (timeouts m = [] \/ exists t, timeouts m = [t] /\ ref m = Some (timeoutId t)) ->
  UserTypedDebounce minDelay f d now m =
    Some (mkModule (Some (nextId m)) (Some (now + d))
                   [mkTimeout (nextId m) (now + Z.max minDelay d) f]
                   (S (nextId m)) (runs m)).
Proof.
  intros Hr [H|(t & H & Href)]; unfold UserTypedDebounce, setTimeout; rewrite Hr.
  - destruct (ref m); unfold clearTimeout, set_ref, set_lastTime;
      cbn [ref lastTime timeouts nextId runs]; rewrite H; reflexivity.
  - rewrite Href. unfold clearTimeout, set_ref, set_lastTime.
    cbn [ref lastTime timeouts nextId runs]. rewrite H. cbn [filter].
    rewrite Nat.eqb_refl. reflexivity.
Qed.

Lemma UserTyped_burst rest :
  forall c m,
    Forall (fun c => inRange (timer c) = true) rest ->
    crowded minDelay c rest ->
    timeouts m = [mkTimeout (pred (nextId m)) (dueOf minDelay c) (what c)] ->
    ref m = Some (pred (nextId m)) -> runs m = [] ->
    exists m',
      run (UserTypedDebounce minDelay) rest m = Some m'
      /\ timeouts m' = [mkTimeout (pred (nextId m')) (dueOf minDelay (last rest c))
                                  (what (last rest c))]
      /\ ref m' = Some (pred (nextId m')) /\ runs m' = [].
Proof.
  induction rest as [|c1 rest IH]; intros c m Hr Hc Ht Href Hruns.
  - exists m. auto.
  - cbn [crowded] in Hc. destruct Hc as [Hc1 Hc].
    inversion Hr as [|? ? Hr1 Hr']; subst.
    cbn [run]. rewrite (legacy_advance_early (when c1) m _ Ht) by (cbn [due]; lia).
    rewrite (UserTyped_call (what c1) (timer c1) (when c1) m Hr1).
    2:{ right. eexists. split; [exact Ht|]. exact Href. }
    destruct (IH c1 (mkModule (Some (nextId m)) (Some (when c1 + timer c1))
                       [mkTimeout (nextId m) (when c1 + Z.max minDelay (timer c1)) (what c1)]
                       (S (nextId m)) (runs m)) Hr' Hc)
      as (m' & E & A & B & C); try reflexivity; [exact Hruns|].
    exists m'. split; [exact E|]. rewrite last_cons. auto.
Qed.

(** A call of [TimeBasedDebounce] with [ref1] unset. *)
Lemma TimeBased_first f d now m :
  ref m = None -> inRange d = true ->
  TimeBasedDebounce minDelay f d now m =
    Some (mkModule (Some (nextId m)) (Some (now + d))
                   (timeouts m ++ [mkTimeout (nextId m) (now + Z.max minDelay d) f])
                   (S (nextId m)) (runs m)).
Proof.
  intros Href Hr. unfold TimeBasedDebounce, setTimeout. rewrite Href, Hr. reflexivity.
Qed.

(** A call of [TimeBasedDebounce] while the timeout in [ref1] is set: the
    delay is computed from [lastTime1], the argument [timer] is not used. *)
Lemma TimeBased_again f d now m t lt :
  timeouts m = [t] -> ref m = Some (timeoutId t) -> lastTime m = Some lt ->
  inRange (now - lt) = true ->
  TimeBasedDebounce minDelay f d now m =
    Some (mkModule (Some (nextId m)) (Some (now + (now - lt)))
                   [mkTimeout (nextId m) (now + Z.max minDelay (now - lt)) f]
                   (S (nextId m)) (runs m)).
Proof.
  intros Ht Href Hl Hr. unfold TimeBasedDebounce. rewrite Href, Hl. cbn [minus].
  unfold setTimeout. rewrite Hr. unfold clearTimeout, set_ref, set_lastTime.
  cbn [ref lastTime timeouts nextId runs plus]. rewrite Ht. cbn [filter].
  rewrite Nat.eqb_refl. reflexivity.
Qed.

End LegacyHost.

(** X14.  [UserTypedDebounce] keeps one timeout for all its callers: of
    calls that each come before the timeout of the call before has run,
    only the function of the last call runs, once, [timer] ms after that
    call, also when the calls pass different functions. *)
Theorem UserTypedDebounce_last_call_wins (minDelay : Z) (first : Legacy.request)
    (rest : list Legacy.request) (T : Z) :
  Forall (fun c => Legacy.inRange (Legacy.timer c) = true) (first :: rest) ->
  Legacy.crowded minDelay first rest ->
  Legacy.dueOf minDelay (last rest first) <= T ->
  exists m,
    Legacy.run_until (Legacy.UserTypedDebounce minDelay) (first :: rest) T
      Legacy.load = Some m
    /\ Legacy.runs m = [(Legacy.dueOf minDelay (last rest first),
                         Legacy.label (Legacy.what (last rest first)))]
    /\ Legacy.timeouts m = [].
Proof.
  intros Hr Hc HT. inversion Hr as [|? ? Hr1 Hr']; subst.
  unfold Legacy.run_until. cbn [Legacy.run].
  rewrite (legacy_advance_none (Legacy.when first) Legacy.load eq_refl).
  rewrite (UserTyped_call minDelay (Legacy.what first) (Legacy.timer first)
             (Legacy.when first) Legacy.load Hr1) by (left; reflexivity).
  destruct (UserTyped_burst minDelay rest first
              (Legacy.mkModule (Some 1%nat) (Some (Legacy.when first + Legacy.timer first))
                 [Legacy.mkTimeout 1 (Legacy.when first + Z.max minDelay (Legacy.timer first))
                                   (Legacy.what first)] 2 [])
              Hr' Hc eq_refl eq_refl eq_refl)
    as (m' & E & A & B & C).
  cbn [Legacy.load Legacy.nextId Legacy.runs].
  rewrite E. cbn [option_map]. eexists. split; [reflexivity|].
  rewrite (legacy_advance_due T m' _ A) by (cbn [Legacy.due]; lia).
  unfold Legacy.onTimeout. cbn [Legacy.callback Legacy.due Legacy.runs].
  rewrite C. destruct (Legacy.throws _); split; reflexivity.
Qed.

Lemma UserTypedDebounce_last_call_wins_witness :
  exists m,
    Legacy.run_until (Legacy.UserTypedDebounce 0)
      [Legacy.mkRequest 0 (Legacy.mkFunc 1 false) 700;
       Legacy.mkRequest 300 (Legacy.mkFunc 2 false) 700;
       Legacy.mkRequest 900 (Legacy.mkFunc 3 true) 100] 5000 Legacy.load = Some m
    /\ Legacy.runs m = [(1000, 3%nat)]
    /\ Legacy.timeouts m = [].
Proof.
  apply (UserTypedDebounce_last_call_wins 0 (Legacy.mkRequest 0 (Legacy.mkFunc 1 false) 700)
           [Legacy.mkRequest 300 (Legacy.mkFunc 2 false) 700;
            Legacy.mkRequest 900 (Legacy.mkFunc 3 true) 100] 5000).
  - repeat constructor.
  - cbn. lia.
  - cbn. lia.
Defined.

(** X15.  [TimeBasedDebounce] called again while its timeout is set takes
    the delay [Date.now() - lastTime1], which is negative then, in place of
    the [timer] it is given: the function of the second call runs as soon
    as the host lets a timeout run, and the function of the first call never
    runs. *)
Theorem TimeBasedDebounce_second_call_runs_at_once (minDelay : Z)
    (c0 c1 : Legacy.request) (T : Z) :
  0 <= minDelay ->
  minDelay <= Legacy.timer c0 -> Legacy.inRange (Legacy.timer c0) = true ->
  Legacy.when c0 <= Legacy.when c1 < Legacy.when c0 + Legacy.timer c0 ->
  Legacy.when c1 + minDelay <= T ->
  exists m,
    Legacy.run_until (Legacy.TimeBasedDebounce minDelay) [c0; c1] T Legacy.load
      = Some m
    /\ Legacy.runs m = [(Legacy.when c1 + minDelay, Legacy.label (Legacy.what c1))]
    /\ Legacy.timeouts m = [].
Proof.
  intros Hm Hd Hr Hw HT.
  destruct c0 as [t0 f0 d0]. destruct c1 as [t1 f1 d1].
  cbn [Legacy.when Legacy.what Legacy.timer] in *.
  unfold Legacy.run_until. cbn [Legacy.run Legacy.when Legacy.what Legacy.timer].
  rewrite (legacy_advance_none t0 Legacy.load eq_refl).
  rewrite (TimeBased_first minDelay f0 d0 t0 Legacy.load eq_refl Hr).
  cbn [Legacy.load Legacy.nextId Legacy.timeouts Legacy.runs app].
  match goal with |- context [Legacy.advance t1 ?m] =>
    rewrite (legacy_advance_early t1 m (Legacy.mkTimeout 1 (t0 + Z.max minDelay d0) f0) eq_refl)
      by (cbn [Legacy.due]; lia) end.
  assert (Hr1 : Legacy.inRange (t1 - (t0 + d0)) = true).
  { unfold Legacy.inRange in *. apply andb_prop in Hr. destruct Hr as [A B].
    apply Z.leb_le in A, B. apply andb_true_intro. split; apply Z.leb_le; lia. }
  rewrite (TimeBased_again minDelay f1 d1 t1
             (Legacy.mkModule (Some 1%nat) (Some (t0 + d0))
                [Legacy.mkTimeout 1 (t0 + Z.max minDelay d0) f0] 2 [])
             (Legacy.mkTimeout 1 (t0 + Z.max minDelay d0) f0)
             (t0 + d0) eq_refl eq_refl eq_refl Hr1).
  cbn [Legacy.nextId Legacy.runs option_map].
  replace (Z.max minDelay (t1 - (t0 + d0))) with minDelay by lia.
  eexists. split; [reflexivity|].
  match goal with |- context [Legacy.advance T ?m] =>
    rewrite (legacy_advance_due T m (Legacy.mkTimeout 2 (t1 + minDelay) f1) eq_refl)
      by (cbn [Legacy.due]; lia) end.
  unfold Legacy.onTimeout. cbn [Legacy.callback Legacy.due Legacy.runs app].
  destruct (Legacy.throws f1); split; reflexivity.
Qed.

Lemma TimeBasedDebounce_second_call_runs_at_once_witness :
  exists m,
    Legacy.run_until (Legacy.TimeBasedDebounce 0)
      [Legacy.mkRequest 0 (Legacy.mkFunc 1 false) 3000;
       Legacy.mkRequest 500 (Legacy.mkFunc 2 false) 3000] 600 Legacy.load = Some m
    /\ Legacy.runs m = [(500, 2%nat)]
    /\ Legacy.timeouts m = [].
Proof.
  apply (TimeBasedDebounce_second_call_runs_at_once 0
           (Legacy.mkRequest 0 (Legacy.mkFunc 1 false) 3000)
           (Legacy.mkRequest 500 (Legacy.mkFunc 2 false) 3000) 600).
  - lia.
  - cbn. lia.
  - reflexivity.
  - cbn. lia.
  - cbn. lia.
Defined.

Section LegacySingle.
Import Legacy.
Variable minDelay : Z.

Lemma single_advance seen T m : single seen m -> single seen (advance T m).
Proof.
  intros (S1 & S2 & S3). destruct S1 as [H|(t & H & Href & Hin)].
  - rewrite (legacy_advance_none T m H). split; [left; exact H|]. split; assumption.
  - destruct (Z_le_gt_dec (due t) T) as [Hle|Hgt].
    + rewrite (legacy_advance_due T m t H Hle). rewrite H in S2. cbn [List.length] in S2.
      unfold onTimeout. cbn [ref lastTime timeouts nextId runs].
      assert (G : forall r, In r (runs m ++ [(due t, label (callback t))]) ->
                    exists c, In c seen /\ snd r = label (what c)).
      { intros r Hr. apply in_app_or in Hr. destruct Hr as [Hr|[<-|[]]]; [auto|].
        apply in_map_iff in Hin. destruct Hin as (c & Ec & Hc).
        exists c. split; [exact Hc|]. cbn [snd]. rewrite Ec. reflexivity. }
      destruct (throws (callback t)); unfold single, set_ref, set_lastTime;
        cbn [ref lastTime timeouts nextId runs];
        (split; [left; reflexivity|]);
        (split; [rewrite length_app; cbn [List.length]; lia|exact G]).
    + rewrite (legacy_advance_early T m t H) by lia.
      split; [right; exists t; auto|]. split; assumption.
Qed.

Lemma single_call seen c m :
  inRange (timer c) = true -> single seen m ->
  exists m',
    UserTypedDebounce minDelay (what c) (timer c) (when c) m = Some m'
    /\ single (seen ++ [c]) m'.
Proof.
  intros Hr (S1 & S2 & S3).
  rewrite (UserTyped_call minDelay (what c) (timer c) (when c) m Hr).
  2:{ destruct S1 as [H|(t & H & Href & _)]; [left; exact H|right; exists t; auto]. }
  eexists. split; [reflexivity|]. unfold single. cbn [ref lastTime timeouts nextId runs].
  split; [right; eexists; split; [reflexivity|]; cbn [timeoutId callback]; split;
          [reflexivity|rewrite map_app; apply in_or_app; right; left; reflexivity]|].
  split.
  - rewrite length_app. cbn [List.length]. lia.
  - intros r Hin. destruct (S3 r Hin) as (c0 & A & B).
    exists c0. split; [apply in_or_app; left; exact A|exact B].
Qed.

Lemma single_run calls :
  Forall (fun c => inRange (timer c) = true) calls ->
  forall seen m,
    single seen m ->
    exists m',
      run (UserTypedDebounce minDelay) calls m = Some m' /\ single (seen ++ calls) m'.
Proof.
  induction 1 as [|c calls Hr _ IH]; intros seen m Hs.
  - exists m. rewrite app_nil_r. auto.
  - cbn [run].
    destruct (single_call seen c (advance (when c) m) Hr (single_advance seen (when c) m Hs))
      as (m1 & E1 & S1).
    rewrite E1. destruct (IH (seen ++ [c]) m1 S1) as (m' & E' & S').
    exists m'. split; [exact E'|]. rewrite <- app_assoc in S'. exact S'.
Qed.
End LegacySingle.

(** X16.  However [UserTypedDebounce] is called, at most one of its
    timeouts is set at any time, the functions run no more often than calls
    were made, and each run is of a function some call passed; this holds
    also when a function throws and leaves [ref] as it was. *)
Theorem UserTypedDebounce_one_timeout (minDelay : Z) (calls : list Legacy.request) (T : Z) :
  Forall (fun c => Legacy.inRange (Legacy.timer c) = true) calls ->
  exists m,
    Legacy.run_until (Legacy.UserTypedDebounce minDelay) calls T Legacy.load = Some m
    /\ (List.length (Legacy.timeouts m) <= 1)%nat
    /\ (List.length (Legacy.runs m) + List.length (Legacy.timeouts m)
        <= List.length calls)%nat
    /\ forall r, In r (Legacy.runs m) ->
         exists c, In c calls /\ snd r = Legacy.label (Legacy.what c).
Proof.
  intros Hr. unfold Legacy.run_until.
  assert (S0 : Legacy.single [] Legacy.load).
  { split; [left; reflexivity|]. split; [cbn; lia|intros r []]. }
  destruct (single_run minDelay calls Hr [] Legacy.load S0) as (m & E & S).
  rewrite E. cbn [option_map app] in *. eexists. split; [reflexivity|].
  destruct (single_advance calls T m S) as (S1 & S2 & S3).
  split; [|split; assumption].
  destruct S1 as [H|(t & H & _)]; rewrite H; cbn [List.length]; lia.
Qed.

Lemma UserTypedDebounce_one_timeout_witness :
  exists m,
    Legacy.run_until (Legacy.UserTypedDebounce 1)
      [Legacy.mkRequest 0 (Legacy.mkFunc 1 false) 700;
       Legacy.mkRequest 1000 (Legacy.mkFunc 2 true) 0;
       Legacy.mkRequest 1000 (Legacy.mkFunc 3 false) 50] 1020 Legacy.load = Some m
    /\ (List.length (Legacy.timeouts m) <= 1)%nat
    /\ (List.length (Legacy.runs m) + List.length (Legacy.timeouts m) <= 3)%nat
    /\ forall r, In r (Legacy.runs m) ->
         exists c, In c [Legacy.mkRequest 0 (Legacy.mkFunc 1 false) 700;
                         Legacy.mkRequest 1000 (Legacy.mkFunc 2 true) 0;
                         Legacy.mkRequest 1000 (Legacy.mkFunc 3 false) 50]
                   /\ snd r = Legacy.label (Legacy.what c).
Proof.
  apply (UserTypedDebounce_one_timeout 1
           [Legacy.mkRequest 0 (Legacy.mkFunc 1 false) 700;
            Legacy.mkRequest 1000 (Legacy.mkFunc 2 true) 0;
            Legacy.mkRequest 1000 (Legacy.mkFunc 3 false) 50] 1020).
  repeat constructor.
Defined.

